(** * Adaptive estimation and matchmaking pipeline: a shallow embedding

    The Python sources compute on [float] and [int].  Integers are
    modelled by [Z]; floats by exact rationals [Q] (the arithmetic is
    exact: no rounding error, no NaN, no infinity), with Python's
    [round(x, n)] written out as round-half-to-even on [n] decimals.
    The functions of the [math] module that have no rational closed
    form ([tanh], [sqrt], [**]) are operations of the class [MathLib];
    what a theorem needs to know about them is a hypothesis of that
    theorem.  The [random] module is a stream of draws threaded through
    the code that consumes it.  Exceptions are values of [exn], and a
    function that can raise returns a [result]. *)

From Stdlib Require Import String Ascii.
From Stdlib Require Import QArith Qround Qabs Qminmax Lqa Lia ZArith.
From Stdlib Require Import Bool Arith PeanoNat List Permutation Sorted.
Import ListNotations.

Open Scope Q_scope.

(** ** Python numbers *)

Module Py.

Definition ltb (x y : Q) : bool := negb (Qle_bool y x).
Definition leb (x y : Q) : bool := Qle_bool x y.
Definition eqb (x y : Q) : bool := Qeq_bool x y.

(** [int(x)] on a float: truncation towards zero. *)
Definition int (x : Q) : Z :=
  if ltb x 0 then Qceiling x else Qfloor x.

(** The integer nearest to [x], a tie going to the even neighbour. *)
Definition round_half_even (x : Q) : Z :=
  let f := Qfloor x in
  match Qcompare (x - inject_Z f) (1 # 2) with
  | Lt => f
  | Gt => (f + 1)%Z
  | Eq => if Z.even f then f else (f + 1)%Z
  end.

(** [round(x, ndigits)]. *)
Definition round (x : Q) (ndigits : nat) : Q :=
  Qmake (round_half_even (x * inject_Z (10 ^ Z.of_nat ndigits)))
        (Z.to_pos (10 ^ Z.of_nat ndigits)).

(** The factor [10 ** ndigits] by which [round] scales. *)
Definition scale (n : nat) : Q := inject_Z (10 ^ Z.of_nat n).

(** Exceptions raised by the modelled code.  [OutOfFuel] is not a
    Python exception: a [while] loop is modelled with a bound on its
    number of iterations, and [OutOfFuel] is the outcome of the model
    when the bound is reached; it is shown below not to happen. *)
Inductive exn : Type :=
| ValueError (msg : string)
| TypeError (msg : string)
| IndexError
| KeyError
| ZeroDivisionError
| UnboundLocalError (name : string)
| OutOfFuel.

Definition result (A : Type) : Type := (exn + A)%type.
Definition ret {A : Type} (a : A) : result A := inr a.
Definition raise {A : Type} (e : exn) : result A := inl e.
Definition bind {A B : Type} (m : result A) (k : A -> result B) : result B :=
  match m with
  | inl e => inl e
  | inr a => k a
  end.

(** A dict with string keys and float values, in insertion order;
    [d.get(k, default)]. *)
Definition dict : Type := list (string * Q).

Fixpoint get (d : dict) (k : string) (default : Q) : Q :=
  match d with
  | [] => default
  | (k', v) :: d' => if String.eqb k k' then v else get d' k default
  end.

(** The [math] functions used by the sources. *)
Class MathLib : Type := {
  tanh : Q -> Q;
  sqrt : Q -> Q;
  pow : Q -> Q -> Q
}.

(** What the theorems below assume of [math.tanh]: equal arguments
    give equal values, it vanishes at 0,
    is odd, stays within [-1, 1], and on the non-negative axis lies
    between [x / (1 + x)] and [x]. *)
Record tanh_spec (M : MathLib) : Prop := {
  tanh_comp : forall x y, x == y -> tanh x == tanh y;
  tanh_0 : tanh 0 == 0;
  tanh_odd : forall x, tanh (- x) == - tanh x;
  tanh_range : forall x, -1 <= tanh x <= 1;
  tanh_pos : forall x, 0 <= x -> x / (1 + x) <= tanh x <= x
}.

(** What they assume of [math.sqrt]: on [0, 1] it stays in [0, 1]. *)
Definition sqrt_spec (M : MathLib) : Prop :=
  forall x, 0 <= x <= 1 -> 0 <= sqrt x <= 1.

(** A rational stand-in for the [math] module, meeting both
    specifications; it shows that they can be met and lets the
    definitions below be evaluated on concrete inputs. *)
Definition rational_math : MathLib := {|
  tanh := fun x => x / (1 + Qabs x);
  sqrt := fun x => x * (2 - x);
  pow := fun x _ => x * x
|}.

(** The [random] module: a stream of raw draws, consumed in order. *)
Definition rng : Type := nat -> nat.

Definition next (g : rng) : rng := fun i => g (S i).

(** [random.choice(seq)] on a non-empty sequence: some element of it. *)
Definition choice {A : Type} (g : rng) (seq : list A) (default : A) : A * rng :=
  (nth (g 0%nat mod length seq) seq default, next g).

(** [random.random()]: a multiple of 2^-53 in [0, 1). *)
Definition random (g : rng) : Q * rng :=
  (Qmake (Z.of_nat (g 0%nat) mod 2 ^ 53) (2 ^ 53), next g).

(** [sorted(l, key=key)] and [l.sort(key=key)]: a stable sort. *)
Fixpoint insert_by {A : Type} (key : A -> Q) (x : A) (l : list A) : list A :=
  match l with
  | [] => [x]
  | y :: l' => if leb (key x) (key y) then x :: l else y :: insert_by key x l'
  end.

Definition sort_by {A : Type} (key : A -> Q) (l : list A) : list A :=
  fold_right (insert_by key) [] l.

(** [l[start:stop]] for [start >= 0] and any [stop]. *)
Definition slice {A : Type} (l : list A) (start : nat) (stop : Z) : list A :=
  let len := Z.of_nat (List.length l) in
  let stop := if (stop <? 0)%Z then Z.max (len + stop) 0 else stop in
  firstn (Z.to_nat (stop - Z.of_nat start)) (skipn start l).

(** [range(n)]. *)
Definition range (n : Z) : list nat := seq 0 (Z.to_nat n).

End Py.

Notation "x <- m ;; k" := (Py.bind m (fun x => k))
  (at level 61, m at next level, right associativity).
Notation "' pat <- m ;; k" := (Py.bind m (fun x => match x with pat => k end))
  (at level 61, pat pattern, m at next level, right associativity).

(** ** algo_config.py *)

Module algo_config.

Definition BETA_MIN : Q := 0.1.
Definition BETA_MAX : Q := 1.0.
Definition EASY_MAX : Q := 0.3.
Definition MEDIUM_MAX : Q := 0.6.
Definition TARGET_SUCCESS_RATE_DEFAULT : Q := 0.7.
Definition ADJUSTMENT_RATE_DEFAULT : Q := 0.1.
Definition STABILITY_THRESHOLD_DEFAULT : Q := 0.05.
Definition MOMENTUM_FACTOR_DEFAULT : Q := 0.6.
Definition MAX_BETA_STEP : Q := 0.15.

Definition clamp_beta (beta : Q) : Q :=
  if Py.ltb beta BETA_MIN then BETA_MIN
  else if Py.ltb BETA_MAX beta then BETA_MAX
  else beta.

Definition difficulty_from_beta (beta : Q) : string :=
  if Py.ltb beta EASY_MAX then "Easy"%string
  else if Py.ltb beta MEDIUM_MAX then "Medium"%string
  else "Hard"%string.

End algo_config.

(** ** IRT_Bases/Success.py, Fail.py, Rank.py, Achivements.py and
    RankBases/EXP.py: the tier lookups *)

Module IRT_Bases.
Import Py.

Record tier : Type := { level : string; value : Q; bias : Q }.

Definition MAX_ATTEMPTS : Z := 100.

(** Each entry: [min], [max] and the tier. *)
Definition SUCCESS_TIERS : list (Z * Z * tier) :=
  [ (3, 5, {| level := "Newbie"; value := 0.25; bias := 0.02 |});
    (6, 50, {| level := "Intermediate"; value := 0.60; bias := 0.05 |});
    (51, 100, {| level := "Pro"; value := 0.90; bias := 0.10 |}) ]%Z.

Definition DEFAULT_TIER : tier :=
  {| level := "Beginner"; value := 0.10; bias := 0.00 |}.

(** [next((t for t in tiers if t["min"] <= n <= t["max"]), default)]. *)
Fixpoint find_tier (tiers : list (Z * Z * tier)) (n : Z) (default : tier) : tier :=
  match tiers with
  | [] => default
  | (lo, hi, t) :: rest =>
      if ((lo <=? n) && (n <=? hi))%Z then t else find_tier rest n default
  end.

Definition get_success_rate {M : MathLib} (success_count : Z) : string * Q * Q :=
  let success_count := if (success_count <? 0)%Z then 0%Z else success_count in
  let normalized := Qmin (inject_Z success_count / inject_Z MAX_ATTEMPTS) 1.0 in
  let success_count_equiv := int (normalized * inject_Z MAX_ATTEMPTS) in
  let tier := find_tier SUCCESS_TIERS success_count_equiv DEFAULT_TIER in
  let dynamic_bias := bias tier + sqrt normalized * 0.02 in
  (level tier, round normalized 4, round dynamic_bias 4).

Definition MAX_FAILS : Z := 100.

(** The failure tiers; the field [bias] holds the tier's ["penalty"]. *)
Definition FAIL_TIERS : list (Z * Z * tier) :=
  [ (3, 5, {| level := "Low Failure"; value := 0.30; bias := 0.02 |});
    (6, 50, {| level := "Moderate Failure"; value := 0.60; bias := 0.05 |});
    (51, 100, {| level := "High Failure"; value := 0.90; bias := 0.10 |}) ]%Z.

Definition DEFAULT_FAIL : tier :=
  {| level := "Minimal Failure"; value := 0.10; bias := 0.00 |}.

Definition get_fail_rate {M : MathLib} (fail_count : Z) : string * Q * Q :=
  let fail_count := if (fail_count <? 0)%Z then 0%Z else fail_count in
  let normalized := Qmin (inject_Z fail_count / inject_Z MAX_FAILS) 1.0 in
  let fail_equiv := int (normalized * inject_Z MAX_FAILS) in
  let tier := find_tier FAIL_TIERS fail_equiv DEFAULT_FAIL in
  let dynamic_penalty := bias tier + sqrt normalized * 0.02 in
  (level tier, round normalized 4, round dynamic_penalty 4).

(** RankBases/EXP.py *)
Definition MAX_EXP : Z := 10000.

Record PlayerEXP : Type := { player_name : string; exp : Z }.

Definition get_normalized_exp (exp : Z) : Q :=
  let exp := if (exp <? 0)%Z then 0%Z
             else if (MAX_EXP <? exp)%Z then MAX_EXP else exp in
  inject_Z exp / inject_Z MAX_EXP.

(** IRT_Bases/Rank.py *)
Definition RANK_LEVELS : list string :=
  [ "novice"; "apprentice"; "bronze_coder"; "silver_coder"; "gold_developer";
    "platinum_engineer"; "diamond_hacker"; "master_coder"; "grandmaster_dev";
    "code_overlord" ]%string.

Definition _TOTAL_RANKS : nat := (List.length RANK_LEVELS - 1)%nat.

Definition RANK_POWER : Q := 1.6.

Definition RANK_THRESHOLDS {M : MathLib} : list Q :=
  map (fun i : nat =>
         if (0 <? i)%nat
         then round (pow (inject_Z (Z.of_nat i) / inject_Z (Z.of_nat _TOTAL_RANKS))
                         RANK_POWER) 4
         else 0.0)
      (seq 0 (List.length RANK_LEVELS)).

Definition RANK_BIAS : list Q :=
  [ -0.05; -0.05; -0.03; 0.0; 0.0; 0.03; 0.03; 0.05; 0.06; 0.07 ].

(** [_RANK_INDEX.get(key, 0)]; the names looked up come from
    [RANK_LEVELS], on which [strip().lower().replace(" ", "_")] is the
    identity. *)
Fixpoint _RANK_INDEX_get (levels : list string) (i : nat) (key : string) : nat :=
  match levels with
  | [] => 0%nat
  | name :: rest => if String.eqb key name then i else _RANK_INDEX_get rest (S i) key
  end.

Definition get_rank_value {M : MathLib} (rank_name : string) : Q * Q :=
  let idx := _RANK_INDEX_get RANK_LEVELS 0 rank_name in
  (nth idx RANK_THRESHOLDS 0, nth idx RANK_BIAS 0).

(** The loop [for i in range(len - 1, -1, -1)] over the indices given
    highest first: the first index whose threshold is met, else 0. *)
Fixpoint highest_threshold_met (thresholds : list Q) (indices : list nat)
    (rank_value : Q) : nat :=
  match indices with
  | [] => 0%nat
  | i :: rest =>
      if leb (nth i thresholds 0) rank_value then i
      else highest_threshold_met thresholds rest rank_value
  end.

Definition get_rank_name {M : MathLib} (rank_value : Q) : string :=
  let idx := highest_threshold_met RANK_THRESHOLDS
               (rev (seq 0 (List.length RANK_THRESHOLDS))) rank_value in
  let idx := if (_TOTAL_RANKS <? idx)%nat then _TOTAL_RANKS else idx in
  nth idx RANK_LEVELS ""%string.

Definition get_rank_data {M : MathLib} (user_id : string)
    (player_exp : option PlayerEXP) : string * Q :=
  match player_exp with
  | Some pe =>
      let normalized_exp := get_normalized_exp (exp pe) in
      let rank_name := get_rank_name normalized_exp in
      (rank_name, snd (get_rank_value rank_name))
  | None =>
      let rank_name := nth 0 RANK_LEVELS ""%string in
      (rank_name, snd (get_rank_value rank_name))
  end.

Definition get_rank_from_exp {M : MathLib} (exp : Z) : string * Q :=
  let normalized_exp := get_normalized_exp exp in
  let rank_name := get_rank_name normalized_exp in
  (rank_name, snd (get_rank_value rank_name)).

(** IRT_Bases/Achivements.py *)
Definition get_achievement_score (user_id : string) : Z := 0.

End IRT_Bases.

(** ** IRT_Algo.py *)

Module IRT_Algo.
Import Py IRT_Bases.

Record IRTModel : Type := {
  D : Q;
  decay_rate : Q;
  alpha : Q;
  log_file : string
}.

(** [IRTModel()] with its default arguments. *)
Definition IRTModel_default : IRTModel :=
  {| D := 1.7; decay_rate := 0.01; alpha := 0.3; log_file := "IRT_Logs.json" |}.

Definition _sigmoid {M : MathLib} (x : Q) : Q :=
  if ltb x (-20) then 0.0
  else if ltb 20 x then 1.0
  else 0.5 * (1.0 + tanh (x / 2.0)).

Definition _clamp (value min_value max_value : Q) : Q :=
  Qmax min_value (Qmin max_value value).

(** [_clamp(value)] with the default bounds. *)
Definition _clamp3 (value : Q) : Q := _clamp value (-3.0) 3.0.

Definition compute_confidence (self : IRTModel) (success_rate fail_rate : Q) : Q :=
  let confidence := 1.0 - Qabs (success_rate - fail_rate) in
  round (Qmax 0.0 (Qmin confidence 1.0)) 3.

Definition apply_learning_decay (self : IRTModel) (theta : Q) (sessions_played : Z) : Q :=
  let decayed_theta := theta * (1 - decay_rate self * inject_Z sessions_played) in
  round (_clamp3 decayed_theta) 3.

Definition smooth_value (self : IRTModel) (current previous : Q) : Q :=
  round (alpha self * current + (1 - alpha self) * previous) 3.

Definition compute_probability {M : MathLib} (self : IRTModel) (theta beta : Q) : Q :=
  round (_sigmoid (D self * (theta - beta))) 4.

Definition update_ability (theta : Q) (success_count fail_count : Z)
    (learning_rate : Q) : Q :=
  let total := (success_count + fail_count)%Z in
  if (total =? 0)%Z then theta
  else
    let performance_ratio := inject_Z success_count / inject_Z total in
    let delta := (performance_ratio - 0.5) * learning_rate in
    _clamp3 (theta + delta).

(** The result payload of [compute_full_irt]. *)
Record full_irt : Type := {
  fi_user_id : string;
  fi_rank : string;
  fi_success_level : string;
  fi_fail_level : string;
  fi_probability : Q;
  fi_adjusted_theta : Q;
  fi_confidence_index : Q;
  fi_success_rate : Q;
  fi_fail_rate_value : Q;
  fi_rank_bonus : Q;
  fi_achievement_score : Z;
  fi_fail_penalty : Q;
  fi_sessions_played : Z
}.

(** The successive values of the local [adjusted_theta] of
    [compute_full_irt], one per stage. *)
Record theta_stages : Type := {
  after_update : Q;
  after_bonus : Q;
  after_confidence : Q;
  after_decay : Q;
  after_smoothing : Q
}.

Section compute_full_irt.
Context {M : MathLib}.
Variable self : IRTModel.
Variables (user_id : option string) (theta beta : Q).
Variables (success_count fail_count sessions_played : Z).
Variables (prev_theta : option Q) (player_exp : option PlayerEXP) (exp : option Z).

Let user_id' : string :=
  match user_id with None => "default_user"%string | Some u => u end.
Let theta' : Q := _clamp3 theta.
Let beta' : Q := Qmax 0.1 (Qmin 1.0 beta).
Let success_count' : Z := if (success_count <? 0)%Z then 0%Z else success_count.
Let fail_count' : Z := if (fail_count <? 0)%Z then 0%Z else fail_count.
Let sessions_played' : Z := if (sessions_played <? 1)%Z then 1%Z else sessions_played.

Let rank : string * Q :=
  match player_exp, exp with
  | Some pe, _ => get_rank_data user_id' (Some pe)
  | None, Some e => get_rank_from_exp e
  | None, None => get_rank_data user_id' None
  end.
Let achievement_score : Z := get_achievement_score user_id'.
Let success : string * Q * Q := get_success_rate success_count'.
Let fail : string * Q * Q := get_fail_rate fail_count'.
Let success_rate : Q := snd (fst success).
Let success_bonus : Q := snd success.
Let fail_value : Q := snd (fst fail).
Let fail_penalty : Q := snd fail.
Let confidence : Q := compute_confidence self success_rate fail_value.

Definition full_irt_stages : theta_stages :=
  let adjusted_theta := update_ability theta' success_count' fail_count' 0.05 in
  let s1 := adjusted_theta in
  let adjusted_theta := adjusted_theta + (snd rank + success_bonus - fail_penalty) in
  let adjusted_theta := adjusted_theta + Qmin (inject_Z achievement_score * 0.01) 0.1 in
  let s2 := adjusted_theta in
  let adjusted_theta := adjusted_theta * confidence in
  let s3 := adjusted_theta in
  let adjusted_theta := apply_learning_decay self adjusted_theta sessions_played' in
  let s4 := adjusted_theta in
  let adjusted_theta :=
    match prev_theta with
    | Some prev => _clamp3 (smooth_value self adjusted_theta prev)
    | None => adjusted_theta
    end in
  {| after_update := s1; after_bonus := s2; after_confidence := s3;
     after_decay := s4; after_smoothing := adjusted_theta |}.

Definition compute_full_irt : full_irt :=
  let probability := compute_probability self theta' beta' in
  {| fi_user_id := user_id';
     fi_rank := fst rank;
     fi_success_level := fst (fst success);
     fi_fail_level := fst (fst fail);
     fi_probability := probability;
     fi_adjusted_theta := after_smoothing full_irt_stages;
     fi_confidence_index := confidence;
     fi_success_rate := round success_rate 3;
     fi_fail_rate_value := round fail_value 3;
     fi_rank_bonus := snd rank;
     fi_achievement_score := achievement_score;
     fi_fail_penalty := fail_penalty;
     fi_sessions_played := sessions_played' |}.

End compute_full_irt.

(** The compatibility wrapper [irt_probability]; its result is the dict
    read by the difficulty controller and by the clustering. *)
Definition irt_probability {M : MathLib} (theta beta : Q) (rank_name : string)
    (completed_achievements success_count fail_count : Z) (exp : option Z) : dict :=
  let model := IRTModel_default in
  let theta := _clamp3 theta in
  let beta := Qmax 0.1 (Qmin 1.0 beta) in
  let success_count := if (success_count <? 0)%Z then 0%Z else success_count in
  let fail_count := if (fail_count <? 0)%Z then 0%Z else fail_count in
  let completed_achievements :=
    if (completed_achievements <? 0)%Z then 0%Z else completed_achievements in
  let rank_bonus :=
    match exp with
    | Some e => snd (get_rank_from_exp e)
    | None => snd (get_rank_data "user" None)
    end in
  let achievement_score := inject_Z completed_achievements * 0.01 in
  let '(_, success_rate, success_bonus) := get_success_rate success_count in
  let '(_, fail_value, fail_penalty) := get_fail_rate fail_count in
  let prob_input := D model * (theta - beta) in
  let probability := _sigmoid prob_input in
  let adjusted_theta := update_ability theta success_count fail_count 0.05 in
  let adjusted_theta := adjusted_theta + (rank_bonus + success_bonus - fail_penalty) in
  let adjusted_theta := adjusted_theta + Qmin (achievement_score * 0.01) 0.1 in
  let adjusted_theta := _clamp3 adjusted_theta in
  let confidence := compute_confidence model success_rate fail_value in
  [ ("probability", probability);
    ("adjusted_theta", adjusted_theta);
    ("confidence_index", confidence);
    ("success_rate", success_rate);
    ("fail_rate", fail_value);
    ("rank_bonus", rank_bonus);
    ("achievement_score", achievement_score) ]%string.

End IRT_Algo.

(** ** DDA_Algo.py *)

Module DDA_Algo.
Import Py IRT_Bases algo_config.

Record SuccessMetrics : Type := {
  sm_level : string;
  success_rate : Q;
  consistency : Q;
  sm_bias : Q
}.

Record FailMetrics : Type := {
  fm_level : string;
  fail_rate : Q;
  penalty : Q;
  normalized_fail : Q
}.

Record IRTSnapshot : Type := { probability : Q; theta : Q }.

(** The slots of a [DDASystem]. *)
Record DDASystem : Type := {
  _previous_beta : option Q;
  _momentum : Q;
  _stability_threshold : Q;
  _momentum_factor : Q
}.

(** [DDASystem(stability_threshold, momentum_factor)]. *)
Definition __init__ (stability_threshold momentum_factor : Q) : DDASystem :=
  {| _previous_beta := None;
     _momentum := 0.0;
     _stability_threshold := stability_threshold;
     _momentum_factor := momentum_factor |}.

Definition _fetch_success_metrics {M : MathLib} (success_count : Z) : SuccessMetrics :=
  let '(level, normalized_value, bias) := get_success_rate success_count in
  {| sm_level := level;
     success_rate := round normalized_value 3;
     consistency := round (Qmin 1.0 (normalized_value + bias)) 3;
     sm_bias := bias |}.

Definition _fetch_fail_metrics {M : MathLib} (fail_count : Z) : FailMetrics :=
  let '(fail_level, fail_value, fail_penalty) := get_fail_rate fail_count in
  {| fm_level := fail_level;
     fail_rate := fail_value;
     penalty := fail_penalty;
     normalized_fail := round (Qmin 1.0 (fail_value + fail_penalty)) 3 |}.

Definition _sanitize_beta (beta_old : Q) : Q := clamp_beta beta_old.

Definition _sanitize_counts (success_count fail_count : Z) : Z * Z :=
  (Z.max 0 success_count, Z.max 0 fail_count).

Definition _extract_irt_snapshot (irt_output : dict) : IRTSnapshot :=
  {| probability := get irt_output "probability" 0.5;
     theta := get irt_output "adjusted_theta" 0.0 |}.

Definition _calculate_behavior_weight (success_metrics : SuccessMetrics)
    (fail_metrics : FailMetrics) : Q :=
  (0.6 * success_rate success_metrics)
  + (0.4 * consistency success_metrics)
  - (0.5 * penalty fail_metrics).

Definition _calculate_sensitivity (theta : Q) : Q :=
  let clamped_theta := Qmax (-3.0) (Qmin 3.0 theta) in
  1 - (clamped_theta / 6.0).

Definition _apply_behavior_weight (beta_adjustment behavior_weight : Q) : Q :=
  beta_adjustment * (1 + behavior_weight * 0.3).

Definition _enforce_stability_gate (self : DDASystem)
    (performance_gap beta_adjustment : Q) : Q :=
  if ltb (Qabs performance_gap) (_stability_threshold self) then 0.0
  else beta_adjustment.

(** Updates [self._momentum]; returns the new [self] and the value. *)
Definition _apply_momentum (self : DDASystem) (beta_adjustment : Q) : DDASystem * Q :=
  let momentum :=
    _momentum_factor self * _momentum self
    + (1 - _momentum_factor self) * beta_adjustment in
  ({| _previous_beta := _previous_beta self;
      _momentum := momentum;
      _stability_threshold := _stability_threshold self;
      _momentum_factor := _momentum_factor self |},
   beta_adjustment + momentum * 0.5).

Definition _slow_if_recently_stable (self : DDASystem)
    (beta_old beta_adjustment : Q) : Q :=
  match _previous_beta self with
  | None => beta_adjustment
  | Some previous_beta =>
      let delta := Qabs (beta_old - previous_beta) in
      if ltb delta (_stability_threshold self) then beta_adjustment * 0.4
      else beta_adjustment
  end.

Definition _propose_beta {M : MathLib} (beta_old beta_adjustment : Q) : Q :=
  let proposed := beta_old + tanh beta_adjustment * 0.8 in
  clamp_beta proposed.

Definition _cap_step (beta_old proposed : Q) : Q :=
  if ltb MAX_BETA_STEP (Qabs (proposed - beta_old)) then
    let direction := if ltb beta_old proposed then 1 else -1 in
    clamp_beta (beta_old + direction * MAX_BETA_STEP)
  else clamp_beta proposed.

Definition _preserve_on_perfect_performance (beta_old beta_new : Q)
    (irt_snapshot : IRTSnapshot) : Q :=
  if leb 0.99 (probability irt_snapshot) && ltb beta_new beta_old && leb 0.5 beta_old
  then beta_old
  else beta_new.

(** The dict built by [_build_response]. *)
Record response : Type := {
  beta_new : Q;
  difficulty_label : string;
  actual_performance : Q;
  target_performance : Q;
  adjustment_applied : Q;
  momentum : Q;
  behavior_weight : Q;
  irt_theta : Q;
  r_success_rate : Q;
  r_consistency : Q;
  r_fail_rate : Q;
  fail_penalty : Q;
  success_level : string;
  fail_level : string;
  r_bias : Q;
  stability_threshold : Q
}.

Definition _build_response (self : DDASystem) (beta_old beta_new target_performance
    behavior_weight : Q) (success_metrics : SuccessMetrics)
    (fail_metrics : FailMetrics) (irt_snapshot : IRTSnapshot) : response :=
  let final_adjustment := beta_new - beta_old in
  {| beta_new := round beta_new 3;
     difficulty_label := difficulty_from_beta beta_new;
     actual_performance := round (probability irt_snapshot) 3;
     target_performance := target_performance;
     adjustment_applied := round final_adjustment 3;
     momentum := round (_momentum self) 3;
     behavior_weight := round behavior_weight 3;
     irt_theta := round (theta irt_snapshot) 3;
     r_success_rate := success_rate success_metrics;
     r_consistency := consistency success_metrics;
     r_fail_rate := fail_rate fail_metrics;
     fail_penalty := penalty fail_metrics;
     success_level := sm_level success_metrics;
     fail_level := fm_level fail_metrics;
     r_bias := sm_bias success_metrics;
     stability_threshold := _stability_threshold self |}.

(** The locals of one [adjust_difficulty] call, as the body assigns
    them: [l_gated] is [beta_adjustment] after the stability gate (and
    before momentum), [l_after_momentum] and [l_slowed] are its next
    two values, [l_capped] is [beta_new] after [_cap_step], and
    [l_beta_new] is [beta_new] after the perfect-performance guard, the
    value stored in [self._previous_beta]. *)
Record locals : Type := {
  l_beta_old : Q;
  l_irt_snapshot : IRTSnapshot;
  l_success_metrics : SuccessMetrics;
  l_fail_metrics : FailMetrics;
  l_performance_gap : Q;
  l_behavior_weight : Q;
  l_gated : Q;
  l_self_momentum : DDASystem;
  l_after_momentum : Q;
  l_slowed : Q;
  l_proposed_beta : Q;
  l_capped : Q;
  l_beta_new : Q
}.

Definition adjust_locals {M : MathLib} (self : DDASystem) (beta_old : Q)
    (irt_output : dict) (success_count fail_count : Z)
    (target_performance adjustment_rate : Q) : locals :=
  let beta_old := _sanitize_beta beta_old in
  let '(success_count, fail_count) := _sanitize_counts success_count fail_count in
  let irt_snapshot := _extract_irt_snapshot irt_output in
  let success_metrics := _fetch_success_metrics success_count in
  let fail_metrics := _fetch_fail_metrics fail_count in
  let performance_gap := target_performance - probability irt_snapshot in
  let sensitivity := _calculate_sensitivity (theta irt_snapshot) in
  let beta_adjustment := adjustment_rate * performance_gap * sensitivity in
  let behavior_weight := _calculate_behavior_weight success_metrics fail_metrics in
  let beta_adjustment := _apply_behavior_weight beta_adjustment behavior_weight in
  let beta_adjustment := _enforce_stability_gate self performance_gap beta_adjustment in
  let gated := beta_adjustment in
  let '(self, beta_adjustment) := _apply_momentum self beta_adjustment in
  let after_momentum := beta_adjustment in
  let beta_adjustment := _slow_if_recently_stable self beta_old beta_adjustment in
  let slowed := beta_adjustment in
  let proposed_beta := _propose_beta beta_old beta_adjustment in
  let beta_new := _cap_step beta_old proposed_beta in
  let capped := beta_new in
  let beta_new := _preserve_on_perfect_performance beta_old beta_new irt_snapshot in
  {| l_beta_old := beta_old;
     l_irt_snapshot := irt_snapshot;
     l_success_metrics := success_metrics;
     l_fail_metrics := fail_metrics;
     l_performance_gap := performance_gap;
     l_behavior_weight := behavior_weight;
     l_gated := gated;
     l_self_momentum := self;
     l_after_momentum := after_momentum;
     l_slowed := slowed;
     l_proposed_beta := proposed_beta;
     l_capped := capped;
     l_beta_new := beta_new |}.

(** [self.adjust_difficulty(...)]: the controller after the call (with
    [_previous_beta] set to the unrounded [beta_new]) and the response. *)
Definition adjust_difficulty {M : MathLib} (self : DDASystem) (beta_old : Q)
    (irt_output : dict) (success_count fail_count : Z)
    (target_performance adjustment_rate : Q) : DDASystem * response :=
  let L := adjust_locals self beta_old irt_output success_count fail_count
             target_performance adjustment_rate in
  let self := l_self_momentum L in
  let self :=
    {| _previous_beta := Some (l_beta_new L);
       _momentum := _momentum self;
       _stability_threshold := _stability_threshold self;
       _momentum_factor := _momentum_factor self |} in
  (self,
   _build_response self (l_beta_old L) (l_beta_new L) target_performance
     (l_behavior_weight L) (l_success_metrics L) (l_fail_metrics L)
     (l_irt_snapshot L)).

End DDA_Algo.

(** ** KMeans_Cluster.py *)

Module KMeans_Cluster.
Import Py.

(** A distance that may still be [float('inf')]. *)
Definition lt_inf (x : Q) (bound : option Q) : bool :=
  match bound with
  | None => true
  | Some b => ltb x b
  end.

Definition squared_distance (a b : list Q) : Q :=
  fold_left (fun total xy => let d := fst xy - snd xy in total + d * d)
            (combine a b) 0.0.

(** [sum(l)] on floats. *)
Definition sum (l : list Q) : Q := fold_left Qplus l 0.

(** The rows handled here are those built by [kmeans_from_irt], which
    all have the same number of coordinates, so that every [pt[i]] below
    is within range; [nth] makes the index total. *)
Definition compute_centroid (points : list (list Q)) : list Q :=
  match points with
  | [] => []
  | first :: _ =>
      let count := List.length points in
      let dim := List.length first in
      let centroid :=
        fold_left (fun centroid point =>
                     map (fun i => nth i centroid 0 + nth i point 0) (seq 0 dim))
                  points (repeat 0.0 dim) in
      let inv_count := 1.0 / inject_Z (Z.of_nat count) in
      map (fun i => nth i centroid 0 * inv_count) (seq 0 dim)
  end.

Definition normalize_data (data : list (list Q)) : list (list Q) :=
  match data with
  | [] => data
  | first :: rest =>
      let dims := List.length first in
      let '(mins, maxs) :=
        fold_left (fun '(mins, maxs) pt =>
                     (map (fun i => if ltb (nth i pt 0) (nth i mins 0)
                                    then nth i pt 0 else nth i mins 0) (seq 0 dims),
                      map (fun i => if ltb (nth i maxs 0) (nth i pt 0)
                                    then nth i pt 0 else nth i maxs 0) (seq 0 dims)))
                  rest (first, first) in
      let ranges := map (fun i => nth i maxs 0 - nth i mins 0) (seq 0 dims) in
      map (fun pt =>
             map (fun i => if eqb (nth i ranges 0) 0.0 then 0.0
                           else (nth i pt 0 - nth i mins 0) / nth i ranges 0)
                 (seq 0 dims))
          data
  end.

(** [a == b] on two lists of floats, and [pt in centroids]. *)
Fixpoint list_eqb (a b : list Q) : bool :=
  match a, b with
  | [], [] => true
  | x :: a', y :: b' => eqb x y && list_eqb a' b'
  | _, _ => false
  end.

Definition In_b (pt : list Q) (centroids : list (list Q)) : bool :=
  existsb (list_eqb pt) centroids.

(** The smallest squared distance from [pt] to a centroid. *)
Definition min_sq_to (centroids : list (list Q)) (pt : list Q) : option Q :=
  fold_left (fun min_sq c =>
               let sq_dist := squared_distance pt c in
               if lt_inf sq_dist min_sq then Some sq_dist else min_sq)
            centroids None.

(** The weighted draw: the first index whose cumulative weight reaches
    [r], else ([for ... else]) the last point. *)
Fixpoint pick_cumulative (data : list (list Q)) (min_dist_sq : list Q)
    (r cumulative : Q) (last : list Q) : list Q :=
  match data, min_dist_sq with
  | pt :: data', d :: rest =>
      let cumulative := cumulative + d in
      if leb r cumulative then pt else pick_cumulative data' rest r cumulative last
  | _, _ => last
  end.

(** The [while len(centroids) < k] loop, [todo] being the number of
    centroids still missing, [k - len(centroids)]. *)
Fixpoint seed_loop (todo : nat) (data centroids : list (list Q)) (g : rng)
    : list (list Q) * rng :=
  match todo with
  | O => (centroids, g)
  | S todo' =>
      let min_dist_sq :=
        map (fun pt => match min_sq_to centroids pt with
                       | Some d => d
                       | None => 0
                       end) data in
      let total := sum min_dist_sq in
      if eqb total 0 || ltb total (1 # 10000000000) then
        let remaining := filter (fun pt => negb (In_b pt centroids)) data in
        match remaining with
        | [] => (centroids, g)
        | _ :: _ =>
            let '(c, g) := choice g remaining [] in
            (centroids ++ [c], g)
        end
      else
        let '(u, g) := random g in
        let r := u * total in
        let c := pick_cumulative data min_dist_sq r 0.0 (last data []) in
        seed_loop todo' data (centroids ++ [c]) g
  end.

Definition init_kmeans_plus_plus (data : list (list Q)) (k : Z) (g : rng)
    : list (list Q) * rng :=
  match data with
  | [] => ([], g)
  | _ :: _ =>
      let n := List.length data in
      if (Z.of_nat n <=? k)%Z then (data, g)
      else
        let '(c, g) := choice g data [] in
        seed_loop (Z.to_nat (k - 1)) data [c] g
  end.

(** The nearest centroid of [pt]: the first one at the least distance. *)
Definition nearest_centroid (centroids : list (list Q)) (pt : list Q) : nat :=
  snd (fold_left (fun '(min_dist_sq, nearest) '(idx, centroid) =>
                    let dist_sq := squared_distance pt centroid in
                    if lt_inf dist_sq min_dist_sq then (Some dist_sq, idx)
                    else (min_dist_sq, nearest))
                 (combine (seq 0 (List.length centroids)) centroids)
                 (None, 0%nat)).

(** [clusters[nearest].append(pt)]. *)
Fixpoint append_at (clusters : list (list (list Q))) (nearest : nat) (pt : list Q)
    : result (list (list (list Q))) :=
  match clusters, nearest with
  | [], _ => raise IndexError
  | c :: rest, O => ret ((c ++ [pt]) :: rest)
  | c :: rest, S j => rest' <- append_at rest j pt ;; ret (c :: rest')
  end.

(** The assignment pass of one iteration. *)
Fixpoint assign_points (centroids data_points : list (list Q))
    (assignments : list nat) (clusters : list (list (list Q)))
    : result (list nat * list (list (list Q))) :=
  match data_points with
  | [] => ret (assignments, clusters)
  | pt :: rest =>
      let nearest := nearest_centroid centroids pt in
      clusters <- append_at clusters nearest pt ;;
      assign_points centroids rest (assignments ++ [nearest]) clusters
  end.

(** The rebuilding pass: the mean of a cluster, a random point for an
    empty one. *)
Fixpoint rebuild_centroids (clusters : list (list (list Q)))
    (data_points : list (list Q)) (g : rng) : list (list Q) * rng :=
  match clusters with
  | [] => ([], g)
  | c :: rest =>
      let '(nc, g) :=
        match c with
        | [] => choice g data_points []
        | _ :: _ => (compute_centroid c, g)
        end in
      let '(ncs, g) := rebuild_centroids rest data_points g in
      (nc :: ncs, g)
  end.

(** What one run has in hand when the loop is left; [history] lists,
    latest first, the centroids and the assignments of every iteration
    that was run. *)
Record loop_state : Type := {
  ls_centroids : list (list Q);
  ls_assignments : list nat;
  ls_iteration : Z;
  ls_history : list (list (list Q) * list nat);
  ls_rng : rng
}.

(** [for iteration in range(max_iter)], [todo] iterations remaining. *)
Fixpoint kmeans_loop (todo : nat) (iteration : Z) (k : Z) (tol : Q)
    (data_points centroids : list (list Q))
    (history : list (list (list Q) * list nat)) (assignments : list nat) (g : rng)
    : result loop_state :=
  match todo with
  | O =>
      (* the loop is exhausted: [iteration] is that of the last round *)
      ret {| ls_centroids := centroids; ls_assignments := assignments;
             ls_iteration := (iteration - 1)%Z; ls_history := history;
             ls_rng := g |}
  | S todo' =>
      let clusters := repeat [] (Z.to_nat k) in
      '(assignments, clusters) <- assign_points centroids data_points [] clusters ;;
      let history := (centroids, assignments) :: history in
      let '(new_centroids, g) := rebuild_centroids clusters data_points g in
      let shift_sq :=
        sum (map (fun ab => squared_distance (fst ab) (snd ab))
                 (combine centroids new_centroids)) in
      if ltb shift_sq (tol * tol) then
        ret {| ls_centroids := centroids; ls_assignments := assignments;
               ls_iteration := iteration; ls_history := history; ls_rng := g |}
      else
        let centroids := new_centroids in
        if (5 <? iteration)%Z && ltb shift_sq (tol * tol * 10) then
          ret {| ls_centroids := centroids; ls_assignments := assignments;
                 ls_iteration := iteration; ls_history := history; ls_rng := g |}
        else
          kmeans_loop todo' (iteration + 1)%Z k tol data_points centroids history
                      assignments g
  end.

Record kmeans_result : Type := {
  centroids : list (list Q);
  assignments : list nat;
  cluster_count : Z;
  converged_after : Z
}.

(** The feature vectors read from the IRT rows. *)
Definition feature_rows (irt_data : list dict) : list (list Q) :=
  map (fun item => [ get item "adjusted_theta" 0.0;
                     get item "probability" 0.0;
                     get item "success_rate" 0.0;
                     get item "fail_rate" 0.0 ]) irt_data.

(** The run up to the exit of the loop. *)
Definition kmeans_run (irt_data : list dict) (k max_iter : Z) (tol : Q) (g : rng)
    : result loop_state :=
  let data_points := feature_rows irt_data in
  match data_points with
  | [] => raise (ValueError "IRT data is empty. Cannot perform K-Means clustering.")
  | _ :: _ =>
      let data_points := normalize_data data_points in
      let '(centroids, g) := init_kmeans_plus_plus data_points k g in
      if (max_iter <=? 0)%Z then
        (* the loop body never runs and [iteration] is never bound *)
        raise (UnboundLocalError "iteration")
      else
        kmeans_loop (Z.to_nat max_iter) 0 k tol data_points centroids [] [] g
  end.

Definition kmeans_from_irt (irt_data : list dict) (k max_iter : Z) (tol : Q) (g : rng)
    : result (kmeans_result * rng) :=
  st <- kmeans_run irt_data k max_iter tol g ;;
  ret ({| centroids := ls_centroids st;
          assignments := ls_assignments st;
          cluster_count := k;
          converged_after := (ls_iteration st + 1)%Z |}, ls_rng st).

(** The total within-cluster squared distance of an assignment: the
    sum, over the points, of the squared distance of the point to the
    centroid it is assigned to. *)
Definition within_cluster_distance (data_points centroids : list (list Q))
    (assignments : list nat) : Q :=
  sum (map (fun pa => squared_distance (fst pa) (nth (snd pa) centroids []))
           (combine data_points assignments)).

(** The same quantity summed cluster by cluster, the clusters being
    numbered from [j]. *)
Fixpoint cluster_cost (centroids : list (list Q)) (j : nat)
    (clusters : list (list (list Q))) : Q :=
  match clusters with
  | [] => 0
  | c :: rest =>
      sum (map (fun p => squared_distance p (nth j centroids [])) c)
      + cluster_cost centroids (S j) rest
  end.

(** The same, for each iteration of a run, in the order of the run. *)
Definition distance_trace (data_points : list (list Q)) (st : loop_state) : list Q :=
  map (fun ca => within_cluster_distance data_points (fst ca) (snd ca))
      (rev (ls_history st)).

Definition non_increasing (l : list Q) : Prop :=
  forall i : nat, (S i < List.length l)%nat -> nth (S i) l 0 <= nth i l 0.

End KMeans_Cluster.

(** ** SkillBasedMatchMaking.py *)

Module SkillBasedMatchMaking.
Import Py IRT_Algo DDA_Algo KMeans_Cluster.

Definition normalize (value min_val max_val : Q) : Q :=
  if eqb max_val min_val then 0.5
  else
    let normalized := (value - min_val) / (max_val - min_val) in
    if ltb normalized 0.0 then 0.0
    else if ltb 1.0 normalized then 1.0 else normalized.

Definition adaptive_weights (consistency : Q) : Q * Q :=
  let w_theta := Qmax 0.4 (1.0 - consistency) in
  let w_beta := Qmin 0.6 (consistency + 0.3) in
  let total := w_theta + w_beta in
  (w_theta / total, w_beta / total).

Definition calculate_match_score (theta_a theta_b beta_a beta_b w_theta w_beta : Q)
    : Q :=
  let weighted_gap :=
    (w_theta * Qabs (theta_a - theta_b)) + (w_beta * Qabs (beta_a - beta_b)) in
  round (1.0 - Qmin weighted_gap 1.0) 3.

(** [cluster_map[nearest].append(idx)] on the dict whose keys are
    [0 .. len(centroids) - 1], kept as the list of its values. *)
Fixpoint map_append (cluster_map : list (list nat)) (nearest idx : nat)
    : result (list (list nat)) :=
  match cluster_map, nearest with
  | [], _ => raise KeyError
  | c :: rest, O => ret ((c ++ [idx]) :: rest)
  | c :: rest, S j => rest' <- map_append rest j idx ;; ret (c :: rest')
  end.

Fixpoint assign_loop (centroids : list (list Q)) (points : list (nat * list Q))
    (cluster_map : list (list nat)) : result (list (list nat)) :=
  match points with
  | [] => ret cluster_map
  | (idx, point) :: rest =>
      cluster_map <- map_append cluster_map (nearest_centroid centroids point) idx ;;
      assign_loop centroids rest cluster_map
  end.

Definition assign_clusters (data_points centroids : list (list Q))
    : result (list (list nat)) :=
  assign_loop centroids (combine (seq 0 (List.length data_points)) data_points)
              (repeat [] (List.length centroids)).

(** The module-level [_dda_instance]. *)
Definition _dda_instance : DDASystem := __init__ 0.05 0.6.

(** The dict returned by [find_best_match]; the keys absent from the
    early returns are [None] here. *)
Record best_match : Type := {
  player_index : nat;
  match_index : option nat;
  match_score : Q;
  cluster : option nat;
  adaptive_weights_ : option (Q * Q);
  IRT_Profile : option (Q * Q);
  Consistency : option Q
}.

(** [theta, beta = point]: unpacking a two-element list. *)
Definition unpack2 (point : list Q) : result (Q * Q) :=
  match point with
  | [a; b] => ret (a, b)
  | _ => raise (ValueError "unpack")
  end.

Definition lookup {A : Type} (l : list A) (i : nat) : result A :=
  match nth_error l i with
  | Some a => ret a
  | None => raise IndexError
  end.

(** The scan for the best candidate. *)
Fixpoint best_candidate (data_points : list (list Q)) (candidates : list nat)
    (adjusted_theta adjusted_beta w_theta w_beta : Q)
    (best_match : option nat) (best_score : Q) : result (option nat * Q) :=
  match candidates with
  | [] => ret (best_match, best_score)
  | idx :: rest =>
      point <- lookup data_points idx ;;
      '(c_theta, c_beta) <- unpack2 point ;;
      let score := calculate_match_score adjusted_theta c_theta adjusted_beta c_beta
                     w_theta w_beta in
      if ltb best_score score
      then best_candidate data_points rest adjusted_theta adjusted_beta w_theta
             w_beta (Some idx) score
      else best_candidate data_points rest adjusted_theta adjusted_beta w_theta
             w_beta best_match best_score
  end.

(** [find_best_match], the shared controller being passed in and out:
    the controller after the call, and the result or the exception. *)
Definition find_best_match {M : MathLib} (_dda_instance : DDASystem)
    (player_index : nat) (data_points centroids : list (list Q))
    (rank_name : string) (completed_achievements success_count fail_count : Z)
    : DDASystem * result best_match :=
  if (List.length data_points <? 2)%nat then
    (_dda_instance,
     ret {| player_index := player_index; match_index := None; match_score := 0.0;
            cluster := None; adaptive_weights_ := None; IRT_Profile := None;
            Consistency := None |})
  else
    match (point <- lookup data_points player_index ;; unpack2 point) with
    | inl e => (_dda_instance, inl e)
    | inr (theta, beta_old) =>
        let irt_result :=
          irt_probability theta beta_old rank_name completed_achievements
            success_count fail_count None in
        let '(_dda_instance, dda_result) :=
          adjust_difficulty _dda_instance beta_old irt_result success_count
            fail_count 0.7 0.1 in
        (_dda_instance,
         let adjusted_theta := get irt_result "adjusted_theta" 0 in
         let adjusted_beta := beta_new dda_result in
         clusters <- assign_clusters data_points centroids ;;
         player_point <- lookup data_points player_index ;;
         let player_cluster := nearest_centroid centroids player_point in
         own <- match nth_error clusters player_cluster with
                | Some c => ret c
                | None => raise KeyError
                end ;;
         let candidates := filter (fun idx => negb (idx =? player_index)%nat) own in
         let candidates :=
           match candidates with
           | _ :: _ => candidates
           | [] =>
               let cluster_distances :=
                 filter (fun cd => match nth (fst cd) clusters [] with
                                   | [] => false
                                   | _ :: _ => true
                                   end)
                        (map (fun '(c_idx, centroid) =>
                                (c_idx, squared_distance player_point centroid))
                             (combine (seq 0 (List.length centroids)) centroids)) in
               let cluster_distances := sort_by snd cluster_distances in
               match cluster_distances with
               | [] => candidates
               | (nearest_idx, _) :: _ => nth nearest_idx clusters []
               end
           end in
         match candidates with
         | [] =>
             ret {| player_index := player_index; match_index := None;
                    match_score := 0.0; cluster := Some player_cluster;
                    adaptive_weights_ := None; IRT_Profile := None;
                    Consistency := None |}
         | _ :: _ =>
             let total_attempts := (success_count + fail_count)%Z in
             let consistency :=
               if (0 <? total_attempts)%Z
               then normalize (inject_Z success_count / inject_Z total_attempts) 0.0 1.0
               else 0.5 in
             let '(w_theta, w_beta) := adaptive_weights consistency in
             '(best, best_score) <-
               best_candidate data_points candidates adjusted_theta adjusted_beta
                 w_theta w_beta None (-1.0) ;;
             ret {| player_index := player_index; match_index := best;
                    match_score := round best_score 3;
                    cluster := Some player_cluster;
                    adaptive_weights_ := Some (w_theta, w_beta);
                    IRT_Profile := Some (adjusted_theta, adjusted_beta);
                    Consistency := Some (round consistency 3) |}
         end)
    end.

End SkillBasedMatchMaking.

(** ** Puzzel_Based.py *)

Module Puzzel_Based.
Import Py IRT_Bases IRT_Algo DDA_Algo algo_config.

(** The tuple [input_key]. *)
Record input_key : Type := {
  k_user_id : string;
  k_level_id : string;
  k_theta : Q;
  k_beta_old : Q;
  k_rank_name : string;
  k_completed_achievements : Z;
  k_success_count : Z;
  k_fail_count : Z;
  k_target_performance : Q;
  k_adjustment_rate : Q;
  k_auto_sync : bool;
  k_exp_value : option Z
}.

Definition input_key_eqb (a b : input_key) : bool :=
  String.eqb (k_user_id a) (k_user_id b)
  && String.eqb (k_level_id a) (k_level_id b)
  && eqb (k_theta a) (k_theta b)
  && eqb (k_beta_old a) (k_beta_old b)
  && String.eqb (k_rank_name a) (k_rank_name b)
  && (k_completed_achievements a =? k_completed_achievements b)%Z
  && (k_success_count a =? k_success_count b)%Z
  && (k_fail_count a =? k_fail_count b)%Z
  && eqb (k_target_performance a) (k_target_performance b)
  && eqb (k_adjustment_rate a) (k_adjustment_rate b)
  && Bool.eqb (k_auto_sync a) (k_auto_sync b)
  && match k_exp_value a, k_exp_value b with
     | Some x, Some y => (x =? y)%Z
     | None, None => true
     | _, _ => false
     end.

Record summary : Type := {
  Student_Skill : Q;
  Predicted_Success_Probability : Q;
  Actual_Success_Rate : Q;
  Actual_Fail_Rate : Q;
  Target_Performance : Q;
  New_Beta : Q;
  Next_Puzzle_Difficulty : string;
  Success_Level : string;
  Fail_Level : string
}.

Record combined_result : Type := {
  user_id : string;
  level_id : string;
  IRT_Result : dict;
  DDA_Result : response;
  Summary : summary
}.

(** The module-level variables. *)
Record module_state : Type := {
  _dda_system : DDASystem;
  _last_inputs : option input_key;
  _last_result : option combined_result
}.

(** The module as the import leaves it. *)
Definition fresh_module : module_state :=
  {| _dda_system := __init__ 0.05 0.6; _last_inputs := None; _last_result := None |}.

Definition _compute_rates_cached (success_count fail_count : Z) : Q * Q :=
  let total_attempts := (success_count + fail_count)%Z in
  if (0 <? total_attempts)%Z then
    let inv_total := 1.0 / inject_Z total_attempts in
    (inject_Z success_count * inv_total, inject_Z fail_count * inv_total)
  else (0.5, 0.5).

Definition run_puzzle_adjustment {M : MathLib} (st : module_state)
    (user_id level_id : option string) (theta beta_old : Q) (rank_name : string)
    (completed_achievements success_count fail_count : Z)
    (target_performance adjustment_rate : Q) (auto_sync : bool)
    (player_exp : option PlayerEXP) (exp : option Z)
    : module_state * combined_result :=
  let user_id := match user_id with None => "unknown_user"%string | Some u => u end in
  let level_id := match level_id with None => "unknown_level"%string | Some l => l end in
  let theta := Qmax (-3.0) (Qmin 3.0 theta) in
  let beta_old := clamp_beta beta_old in
  let target_performance := Qmax 0.0 (Qmin 1.0 target_performance) in
  let adjustment_rate := Qmax 0.0 (Qmin 1.0 adjustment_rate) in
  let success_count := if (success_count <? 0)%Z then 0%Z else success_count in
  let fail_count := if (fail_count <? 0)%Z then 0%Z else fail_count in
  let completed_achievements :=
    if (completed_achievements <? 0)%Z then 0%Z else completed_achievements in
  let exp_value :=
    match player_exp, exp with
    | Some pe, _ => Some (IRT_Bases.exp pe)
    | None, Some e => Some (if (e <? 0)%Z then 0%Z else e)
    | None, None => None
    end in
  let input_key :=
    {| k_user_id := user_id; k_level_id := level_id; k_theta := theta;
       k_beta_old := beta_old; k_rank_name := rank_name;
       k_completed_achievements := completed_achievements;
       k_success_count := success_count; k_fail_count := fail_count;
       k_target_performance := target_performance;
       k_adjustment_rate := adjustment_rate; k_auto_sync := auto_sync;
       k_exp_value := exp_value |} in
  let cached :=
    match _last_inputs st, _last_result st with
    | Some key, Some last => if input_key_eqb input_key key then Some last else None
    | _, _ => None
    end in
  match cached with
  | Some last => (st, last)
  | None =>
      let irt_result :=
        irt_probability theta beta_old rank_name completed_achievements
          success_count fail_count exp_value in
      let '(success_rate, fail_rate) :=
        _compute_rates_cached success_count fail_count in
      let '(dda, dda_result) :=
        adjust_difficulty (_dda_system st) beta_old irt_result success_count
          fail_count target_performance adjustment_rate in
      let adjusted_theta := get irt_result "adjusted_theta" theta in
      let probability := get irt_result "probability" 0.5 in
      let beta_new := DDA_Algo.beta_new dda_result in
      let difficulty_label := DDA_Algo.difficulty_label dda_result in
      let dda_success := DDA_Algo.success_level dda_result in
      let dda_fail := DDA_Algo.fail_level dda_result in
      let success_level := if auto_sync then dda_success else "N/A"%string in
      let fail_level := if auto_sync then dda_fail else "N/A"%string in
      let combined_result :=
        {| user_id := user_id;
           level_id := level_id;
           IRT_Result := irt_result;
           DDA_Result := dda_result;
           Summary :=
             {| Student_Skill := round adjusted_theta 3;
                Predicted_Success_Probability := round probability 3;
                Actual_Success_Rate := round success_rate 3;
                Actual_Fail_Rate := round fail_rate 3;
                Target_Performance := target_performance;
                New_Beta := beta_new;
                Next_Puzzle_Difficulty := difficulty_label;
                Success_Level := success_level;
                Fail_Level := fail_level |} |} in
      ({| _dda_system := dda; _last_inputs := Some input_key;
          _last_result := Some combined_result |},
       combined_result)
  end.

End Puzzel_Based.

(** ** Multiplayer_Based.py *)

Module Multiplayer_Based.
Import Py IRT_Algo KMeans_Cluster.

(** A raw player dict; a key that may be absent is an option. *)
Record player : Type := {
  p_user_id : option string;
  p_theta : option Q;
  p_beta : option Q;
  p_success_count : option Z;
  p_fail_count : option Z;
  p_rank_name : option string;
  p_completed_achievements : option Z
}.

(** The pre-computed profile of a player. *)
Record profile : Type := {
  theta : Q;
  beta : Q;
  original_theta : Q;
  success_count : Z;
  fail_count : Z;
  rank_name : string;
  achievements : Z
}.

Definition or_default {A : Type} (o : option A) (d : A) : A :=
  match o with
  | Some a => a
  | None => d
  end.

(** The key under which a clustering is cached: the tuple of the
    [(adjusted_theta, probability)] pairs, standing for its hash. *)
Definition cache_key : Type := list (Q * Q).

Fixpoint cache_key_eqb (a b : cache_key) : bool :=
  match a, b with
  | [], [] => true
  | (x1, y1) :: a', (x2, y2) :: b' => eqb x1 x2 && eqb y1 y2 && cache_key_eqb a' b'
  | _, _ => false
  end.

Record MultiplayerMatchmaker : Type := {
  k_clusters : Z;
  max_iter : Z;
  tolerance : Q;
  _clustering_cache : list (cache_key * kmeans_result)
}.

Definition __init__ (k_clusters max_iter : Z) (tolerance : Q) : MultiplayerMatchmaker :=
  {| k_clusters := k_clusters; max_iter := max_iter; tolerance := tolerance;
     _clustering_cache := [] |}.

(** The body of the loop of [prepare_player_data] for one player.  The
    entry ["_player_info"] of [irt_entry], a nested dict of labels that
    nothing below reads, is left out, and with it [user_id]. *)
Definition prepare_player {M : MathLib} (player : player) : dict * list Q * profile :=
  let theta := or_default (p_theta player) 0.0 in
  let beta := or_default (p_beta player) 0.5 in
  let success_count := or_default (p_success_count player) 0%Z in
  let fail_count := or_default (p_fail_count player) 0%Z in
  let rank_name := or_default (p_rank_name player) "novice"%string in
  let achievements := or_default (p_completed_achievements player) 0%Z in
  let irt_result :=
    irt_probability theta beta rank_name achievements success_count fail_count None in
  let total_attempts := (success_count + fail_count)%Z in
  let '(success_rate, fail_rate) :=
    if (0 <? total_attempts)%Z then
      let inv_total := 1.0 / inject_Z total_attempts in
      (inject_Z success_count * inv_total, inject_Z fail_count * inv_total)
    else (0.5, 0.5) in
  let adjusted_theta := get irt_result "adjusted_theta" theta in
  let player_profile :=
    {| theta := adjusted_theta; beta := beta; original_theta := theta;
       success_count := success_count; fail_count := fail_count;
       rank_name := rank_name; achievements := achievements |} in
  let irt_entry :=
    [ ("adjusted_theta", adjusted_theta);
      ("probability", get irt_result "probability" 0.5);
      ("success_rate", success_rate);
      ("fail_rate", fail_rate) ]%string in
  let data_point := [adjusted_theta; beta] in
  (irt_entry, data_point, player_profile).

Definition prepare_player_data {M : MathLib} (players : list player)
    : list dict * list (list Q) * list profile :=
  let rows := map prepare_player players in
  (map (fun r => fst (fst r)) rows, map (fun r => snd (fst r)) rows, map snd rows).

Fixpoint cache_get (cache : list (cache_key * kmeans_result)) (key : cache_key)
    : option kmeans_result :=
  match cache with
  | [] => None
  | (key', r) :: rest => if cache_key_eqb key key' then Some r else cache_get rest key
  end.

Definition cluster_players (self : MultiplayerMatchmaker) (irt_data : list dict)
    (use_cache : bool) (g : rng) : result (MultiplayerMatchmaker * kmeans_result * rng) :=
  let effective_k := Z.min (k_clusters self) (Z.of_nat (List.length irt_data)) in
  let effective_k := if (effective_k <? 1)%Z then 1%Z else effective_k in
  let cache_key :=
    map (fun d => (get d "adjusted_theta" 0, get d "probability" 0)) irt_data in
  match (if use_cache then cache_get (_clustering_cache self) cache_key else None) with
  | Some cached => ret (self, cached, g)
  | None =>
      '(clustering_result, g) <-
        kmeans_from_irt irt_data effective_k (max_iter self) (tolerance self) g ;;
      let self :=
        if use_cache then
          {| k_clusters := k_clusters self; max_iter := max_iter self;
             tolerance := tolerance self;
             _clustering_cache :=
               (cache_key, clustering_result) :: _clustering_cache self |}
        else self in
      ret (self, clustering_result, g)
  end.

(** [profiles[i]["theta"]]. *)
Definition theta_of (profiles : list profile) (i : nat) : result Q :=
  match nth_error profiles i with
  | Some p => ret (theta p)
  | None => raise IndexError
  end.

Fixpoint thetas_of (profiles : list profile) (group : list nat) : result (list Q) :=
  match group with
  | [] => ret []
  | i :: rest =>
      t <- theta_of profiles i ;;
      ts <- thetas_of profiles rest ;;
      ret (t :: ts)
  end.

(** The variance of the thetas of a group, as both functions compute it. *)
Definition variance_of (profiles : list profile) (group : list nat) : result Q :=
  thetas <- thetas_of profiles group ;;
  match thetas with
  | [] => raise ZeroDivisionError
  | _ :: _ =>
      let len := inject_Z (Z.of_nat (List.length thetas)) in
      let mean_theta := sum thetas / len in
      ret (sum (map (fun t => (t - mean_theta) * (t - mean_theta)) thetas) / len)
  end.

(** The scan over adjacent pairs, [i] running over [range(len - 1)]. *)
Fixpoint best_pair_scan (profiles : list profile) (candidates : list nat)
    (best_pair : list nat) (min_diff : Q) : result (list nat * Q) :=
  match candidates with
  | a :: (b :: _) as rest =>
      ta <- theta_of profiles a ;;
      tb <- theta_of profiles b ;;
      let diff := Qabs (ta - tb) in
      if ltb diff min_diff then best_pair_scan profiles rest [a; b] diff
      else best_pair_scan profiles rest best_pair min_diff
  | _ => ret (best_pair, min_diff)
  end.

(** The scan over the windows, [start] running over the given range. *)
Fixpoint best_window_scan (profiles : list profile) (candidates : list nat)
    (match_size : Z) (starts : list nat) (best_group : option (list nat))
    (best_variance : option Q) : result (option (list nat) * option Q) :=
  match starts with
  | [] => ret (best_group, best_variance)
  | start :: rest =>
      let group := slice candidates start (Z.of_nat start + match_size) in
      variance <- variance_of profiles group ;;
      if lt_inf variance best_variance
      then best_window_scan profiles candidates match_size rest (Some group)
             (Some variance)
      else best_window_scan profiles candidates match_size rest best_group
             best_variance
  end.

Definition _find_best_group_fast (candidates : list nat) (profiles : list profile)
    (match_size : Z) (min_score : Q) : result (option (list nat)) :=
  if (Z.of_nat (List.length candidates) <? match_size)%Z then ret None
  else if (match_size =? 2)%Z then
    match candidates with
    | c0 :: c1 :: _ =>
        t0 <- theta_of profiles c0 ;;
        t1 <- theta_of profiles c1 ;;
        '(best_pair, min_diff) <-
          best_pair_scan profiles candidates [c0; c1] (Qabs (t0 - t1)) ;;
        let score := 1.0 - Qmin min_diff 1.0 in
        if leb min_score score then ret (Some best_pair) else ret None
    | _ => ret None
    end
  else
    '(best_group, best_variance) <-
      best_window_scan profiles candidates match_size
        (range (Z.of_nat (List.length candidates) - match_size + 1)) None None ;;
    match best_group, best_variance with
    | Some ((_ :: _) as group), Some variance =>
        let score := 1.0 - Qmin (variance * 4) 1.0 in
        if leb min_score score then ret (Some group) else ret None
    | _, _ => ret None
    end.

Definition _calculate_group_score (group : list nat) (profiles : list profile)
    : result Q :=
  if (List.length group <? 2)%nat then ret 0.0
  else
    variance <- variance_of profiles group ;;
    ret (round (1.0 - Qmin (variance * 4) 1.0) 3).

(** The value of the ["cluster"] key of a match. *)
Inductive cluster_tag : Type :=
| in_cluster (cluster_id : nat)
| cross_cluster.

(** A match.  [group] is the list of player indices from which
    ["players"] is built; the Python dict does not store it. *)
Record match_ : Type := {
  group : list nat;
  players : list player;
  cluster : cluster_tag;
  match_score : Q;
  match_type : string
}.

Definition mem (i : nat) (l : list nat) : bool := existsb (Nat.eqb i) l.

(** [[players[i] for i in match_group]]. *)
Fixpoint players_at (players : list player) (group : list nat) : result (list player) :=
  match group with
  | [] => ret []
  | i :: rest =>
      p <- match nth_error players i with
           | Some p => ret p
           | None => raise IndexError
           end ;;
      ps <- players_at players rest ;;
      ret (p :: ps)
  end.

(** One [while len(available) >= match_size] loop, run at most [fuel]
    times; the state is the list of matches, the set of matched
    players and the list [available]. *)
Fixpoint match_loop (fuel : nat) (all_players : list player) (profiles : list profile)
    (match_size : Z) (min_match_score : Q) (tag : cluster_tag) (match_type : string)
    (available : list nat) (matches : list match_) (matched_players : list nat)
    : result (list match_ * list nat) :=
  if (Z.of_nat (List.length available) <? match_size)%Z
  then ret (matches, matched_players)
  else
    match fuel with
    | O => raise OutOfFuel
    | S fuel' =>
        match_group <-
          _find_best_group_fast available profiles match_size min_match_score ;;
        match match_group with
        | Some ((_ :: _) as g) =>
            if (Z.of_nat (List.length g) =? match_size)%Z then
              ps <- players_at all_players g ;;
              score <- _calculate_group_score g profiles ;;
              let m := {| group := g; players := ps; cluster := tag;
                          match_score := score; match_type := match_type |} in
              match_loop fuel' all_players profiles match_size min_match_score tag
                match_type (filter (fun i => negb (mem i g)) available)
                (matches ++ [m]) (matched_players ++ g)
            else
              match available with
              | [] => raise IndexError
              | _ :: available' =>
                  match_loop fuel' all_players profiles match_size min_match_score
                    tag match_type available' matches matched_players
              end
        | _ =>
            match available with
            | [] => raise IndexError
            | _ :: available' =>
                match_loop fuel' all_players profiles match_size min_match_score
                  tag match_type available' matches matched_players
            end
        end
    end.

(** [cluster_map.setdefault(cluster_id, []).append(idx)], the dict
    being kept as the list of its items in insertion order. *)
Fixpoint setdefault_append (cluster_map : list (nat * list nat)) (cluster_id idx : nat)
    : list (nat * list nat) :=
  match cluster_map with
  | [] => [(cluster_id, [idx])]
  | (c, members) :: rest =>
      if (c =? cluster_id)%nat then (c, members ++ [idx]) :: rest
      else (c, members) :: setdefault_append rest cluster_id idx
  end.

Definition build_cluster_map (assignments : list nat) : list (nat * list nat) :=
  fold_left (fun m '(idx, cluster_id) => setdefault_append m cluster_id idx)
            (combine (seq 0 (List.length assignments)) assignments) [].

(** [sorted(cluster_map.items())]: the keys are distinct, so the items
    are ordered by key. *)
Definition sorted_items (cluster_map : list (nat * list nat)) : list (nat * list nat) :=
  sort_by (fun item => inject_Z (Z.of_nat (fst item))) cluster_map.

(** [sort(key=lambda i: player_profiles[i]["theta"])]: the keys are
    computed first, one per element. *)
Definition sort_by_theta (profiles : list profile) (indices : list nat)
    : result (list nat) :=
  keyed <- (fix keys (l : list nat) : result (list (nat * Q)) :=
              match l with
              | [] => ret []
              | i :: rest =>
                  t <- theta_of profiles i ;;
                  ks <- keys rest ;;
                  ret ((i, t) :: ks)
              end) indices ;;
  ret (map fst (sort_by snd keyed)).

(** The loop over the clusters. *)
Fixpoint cluster_pass (all_players : list player) (profiles : list profile)
    (match_size : Z) (min_match_score : Q) (items : list (nat * list nat))
    (matches : list match_) (matched_players : list nat)
    : result (list match_ * list nat) :=
  match items with
  | [] => ret (matches, matched_players)
  | (cluster_id, cluster_indices) :: rest =>
      cluster_indices <- sort_by_theta profiles cluster_indices ;;
      let available := filter (fun i => negb (mem i matched_players)) cluster_indices in
      '(matches, matched_players) <-
        match_loop (S (List.length available)) all_players profiles match_size
          min_match_score (in_cluster cluster_id) "optimized_cluster" available
          matches matched_players ;;
      cluster_pass all_players profiles match_size min_match_score rest matches
        matched_players
  end.

Definition find_matches {M : MathLib} (self : MultiplayerMatchmaker)
    (players : list player) (match_size : Z) (allow_cross_cluster : bool)
    (min_match_score : Q) (g : rng)
    : result (MultiplayerMatchmaker * list match_ * rng) :=
  if (Z.of_nat (List.length players) <? match_size)%Z then ret (self, [], g)
  else
    let '(irt_data, data_points, player_profiles) := prepare_player_data players in
    '(self, clustering, g) <- cluster_players self irt_data true g ;;
    let assignments := assignments clustering in
    let cluster_map := build_cluster_map assignments in
    '(matches, matched_players) <-
      cluster_pass players player_profiles match_size min_match_score
        (sorted_items cluster_map) [] [] ;;
    if allow_cross_cluster then
      remaining <-
        sort_by_theta player_profiles
          (filter (fun i => negb (mem i matched_players))
                  (seq 0 (List.length players))) ;;
      '(matches, matched_players) <-
        match_loop (S (List.length remaining)) players player_profiles match_size
          min_match_score cross_cluster "optimized_cross_cluster" remaining
          matches matched_players ;;
      ret (self, matches, g)
    else ret (self, matches, g).

Definition create_matchmaker (k_clusters : Z) : MultiplayerMatchmaker :=
  __init__ k_clusters 100 (1 # 10000).

End Multiplayer_Based.

(** ** algorithms/matchmaking.py: the [find_matches] request of [main] *)

Module matchmaking.
Import Py Multiplayer_Based.

Record find_matches_output : Type := {
  matches : list match_;
  total_matches : nat;
  total_players : nat;
  matched_players : nat
}.

(** The body of the [try] for [function == 'find_matches']: the result
    printed on success, or the exception handed to the [except]
    clause, which reports it and exits with status 1. *)
Definition main_find_matches {M : MathLib} (players : list player) (match_size : Z)
    (allow_cross_cluster : bool) (min_match_score : Q) (k_clusters : Z) (g : rng)
    : result find_matches_output :=
  match players with
  | [] => raise (ValueError "players list cannot be empty")
  | _ :: _ =>
      let matchmaker := create_matchmaker k_clusters in
      '(_, matches, _) <-
        find_matches matchmaker players match_size allow_cross_cluster
          min_match_score g ;;
      ret {| matches := matches;
             total_matches := List.length matches;
             total_players := List.length players;
             matched_players :=
               fold_left Nat.add
                 (map (fun m => List.length (Multiplayer_Based.players m)) matches)
                 0%nat |}
  end.

End matchmaking.

(** ** tests/test_dda.py: the snapshot builder of the test suite *)

Module test_dda.

Definition make_irt (probability theta : Q) : Py.dict :=
  [ ("probability", probability); ("adjusted_theta", theta) ]%string.

End test_dda.

(** ** Inputs of the worked examples *)

Module examples.

(** Two players at ability 0.5 and difficulty 0.5, one centroid. *)
Definition two_players : list (list Q) := [[0.5; 0.5]; [0.5; 0.5]].
Definition one_centroid : list (list Q) := [[0.5; 0.5]].

(** The adaptive weights at consistency 0.5. *)
Definition w_theta : Q :=
  Qmax 0.4 (1.0 - 0.5) / (Qmax 0.4 (1.0 - 0.5) + Qmin 0.6 (0.5 + 0.3)).
Definition w_beta : Q :=
  Qmin 0.6 (0.5 + 0.3) / (Qmax 0.4 (1.0 - 0.5) + Qmin 0.6 (0.5 + 0.3)).

(** A source of draws that always draws 0, and one that counts. *)
Definition zero_rng : Py.rng := fun _ => 0%nat.
Definition counting_rng : Py.rng := fun i => i.

(** Three players with the same features. *)
Definition same_row : Py.dict :=
  [ ("adjusted_theta", 0.5); ("probability", 0.6);
    ("success_rate", 0.5); ("fail_rate", 0.5) ]%string.
Definition identical_rows : list Py.dict := [same_row; same_row; same_row].

(** Five players with different features. *)
Definition row (adjusted_theta probability success_rate fail_rate : Q) : Py.dict :=
  [ ("adjusted_theta", adjusted_theta); ("probability", probability);
    ("success_rate", success_rate); ("fail_rate", fail_rate) ]%string.
Definition mixed_rows : list Py.dict :=
  [ row (-2) 0.1 0.2 0.8; row (-1.5) 0.2 0.3 0.7; row 0 0.5 0.5 0.5;
    row 1.8 0.9 0.9 0.1; row 2 0.8 0.7 0.3 ].

End examples.

(** ** Multiplayer_Based.py: the vocabulary of the statements *)

Module Groups.
Import Py KMeans_Cluster Multiplayer_Based.

(** [g] is a run of consecutive elements of [l]. *)
Definition window {A : Type} (g l : list A) : Prop :=
  exists pre post, l = pre ++ g ++ post.

(** Every index of [l] is an index into [profiles]. *)
Definition valid (profiles : list profile) (l : list nat) : Prop :=
  Forall (fun i => (i < List.length profiles)%nat) l.

(** The player indices of a list of matches, in order. *)
Definition groups (matches : list match_) : list nat :=
  concat (map group matches).

(** A match of [match_size] players taken from [all_players], with a
    score in the unit interval. *)
Definition good_match (all_players : list player) (match_size : Z) (m : match_) : Prop :=
  Z.of_nat (List.length (group m)) = match_size
  /\ players_at all_players (group m) = inr (players m)
  /\ 0 <= match_score m <= 1.

(** A match made inside a cluster holds players of that cluster only. *)
Definition same_cluster (assignments : list nat) (m : match_) : Prop :=
  match cluster m with
  | in_cluster c => Forall (fun i => nth_error assignments i = Some c) (group m)
  | cross_cluster => True
  end.

(** What a run of the matching loop adds: matches carrying the tag of
    the loop, each drawn from the players that were available. *)
Definition added (tag : cluster_tag) (mt : string) (available : list nat)
    (new : list match_) : Prop :=
  Forall (fun m => cluster m = tag /\ match_type m = mt /\ incl (group m) available) new.

(** The items of the cluster map: lists of distinct players, all
    assigned to the cluster under which they are filed. *)
Definition filed (assignments : list nat) (items : list (nat * list nat)) : Prop :=
  forall c members, In (c, members) items ->
    NoDup members /\ Forall (fun i => nth_error assignments i = Some c) members.

(** What the scan over the windows holds after the starts [seen]: the
    window in hand is one of them, and none of them has a smaller
    variance. *)
Definition tightest (profiles : list profile) (cands : list nat) (ms : Z)
    (seen : list nat) (bg : option (list nat)) (bv : option Q) : Prop :=
  match bv with
  | None => bg = None /\ seen = []
  | Some v =>
      exists start,
        bg = Some (slice cands start (Z.of_nat start + ms)) /\ In start seen
        /\ variance_of profiles (slice cands start (Z.of_nat start + ms)) = inr v
        /\ forall s v', In s seen ->
             variance_of profiles (slice cands s (Z.of_nat s + ms)) = inr v' -> v <= v'
  end.

(** The clustering that a call of [find_matches] works with. *)
Definition clustering_of {M : MathLib} (self : MultiplayerMatchmaker)
    (players : list player) (g : rng)
    : result (MultiplayerMatchmaker * kmeans_result * rng) :=
  cluster_players self (fst (fst (prepare_player_data players))) true g.

End Groups.

(** ** Further inputs of the worked examples *)

Module lobby.
Import Py Multiplayer_Based.

Definition mk_player (theta beta : Q) (successes fails : Z) : player :=
  {| p_user_id := None; p_theta := Some theta; p_beta := Some beta;
     p_success_count := Some successes; p_fail_count := Some fails;
     p_rank_name := None; p_completed_achievements := None |}.

(** Four players: two of about the same ability, one weaker, one
    stronger. *)
Definition four_players : list player :=
  [ mk_player 0.2 0.5 3 1; mk_player 0.3 0.5 2 2;
    mk_player (-1) 0.4 1 4; mk_player 1.5 0.7 5 0 ].

(** Their profiles, with the stand-in for the [math] module. *)
Definition four_profiles : list profile :=
  snd (prepare_player_data (M := rational_math) four_players).

End lobby.

Module samples.

(** Three centroids, the last two equal, and a point nearest to them. *)
Definition three_centroids : list (list Q) := [[0; 0]; [1; 1]; [1; 1]].
Definition a_point : list Q := [1; 2].

(** Three points of the plane and a candidate centre. *)
Definition three_points : list (list Q) := [[0; 1]; [1; 3]; [5; 2]].
Definition a_centre : list Q := [2; 1].

(** Two players far apart, each the centre of a cluster, and three
    players of whom the first two share a cluster. *)
Definition far_apart : list (list Q) := [[0; 0.5]; [3; 0.5]].
Definition two_near_one_far : list (list Q) := [[0; 0.5]; [0.2; 0.5]; [3; 0.5]].
Definition two_centres : list (list Q) := [[0; 0.5]; [3; 0.5]].

End samples.

(** ** RankBases/EXP.py: the experience tracker *)

Module RankBases_EXP.
Import Py.

Definition MAX_EXP : Z := 10000.
Definition LESSON_LEVELS : Z := 10.
Definition LESSON_POINTS : Z := 20.
Definition MID_LEVEL_BONUS : Z := 40.
Definition FINAL_LEVEL_BONUS : Z := 50.

(** The slots read and written by the methods below; the two slots of
    the anti-farming check, which they do not touch, are left out. *)
Record PlayerEXP : Type := { player_name : string; exp : Z; level : Z }.

Definition __init__ (player_name : string) : PlayerEXP :=
  {| player_name := player_name; exp := 0; level := 0 |}.

Definition _update_level (self : PlayerEXP) : PlayerEXP :=
  let ratio := inject_Z (exp self) * (10.0 / inject_Z MAX_EXP) in
  {| player_name := player_name self; exp := exp self;
     level := Z.min (int ratio) 10 |}.

Definition gain (self : PlayerEXP) (amount : Z) : PlayerEXP :=
  if (amount <=? 0)%Z then self
  else
    let e := (exp self + amount)%Z in
    let e := if (MAX_EXP <? e)%Z then MAX_EXP else e in
    _update_level {| player_name := player_name self; exp := e; level := level self |}.

Definition lose (self : PlayerEXP) (amount : Z) : PlayerEXP :=
  if (amount <=? 0)%Z then self
  else
    let e := (exp self - amount)%Z in
    let e := if (e <? 0)%Z then 0%Z else e in
    _update_level {| player_name := player_name self; exp := e; level := level self |}.

(** The points of one level of a lesson. *)
Definition level_points (level : Z) : Z :=
  let mid_level := (LESSON_LEVELS / 2)%Z in
  if (level =? mid_level)%Z then MID_LEVEL_BONUS
  else if (level =? LESSON_LEVELS)%Z then FINAL_LEVEL_BONUS
  else LESSON_POINTS.

(** [complete_lesson]: the player after the call and the EXP gained;
    [skipped_levels] is the list given, [None] being the empty one. *)
Definition complete_lesson (self : PlayerEXP) (levels_completed : Z)
    (finished_in_time : bool) (skipped_levels : list Z) : result (PlayerEXP * Z) :=
  if ((levels_completed <? 0) || (LESSON_LEVELS <? levels_completed))%Z then
    raise (ValueError "levels_completed must be between 0 and 10")
  else
    let total_exp_gain :=
      fold_left (fun total level =>
                   if existsb (Z.eqb level) skipped_levels then total
                   else (total + level_points level)%Z)
                (map Z.of_nat (seq 1 (Z.to_nat levels_completed))) 0%Z in
    let total_exp_gain :=
      if finished_in_time then total_exp_gain
      else int (inject_Z total_exp_gain * 1.0) in
    ret (gain self total_exp_gain, total_exp_gain).

(** A call of one of the three methods, and a sequence of calls; a
    call that raises leaves the player as it was. *)
Inductive call : Type :=
| Gain (amount : Z)
| Lose (amount : Z)
| Lesson (levels_completed : Z) (finished_in_time : bool) (skipped_levels : list Z).

Definition apply_call (self : PlayerEXP) (c : call) : PlayerEXP :=
  match c with
  | Gain amount => gain self amount
  | Lose amount => lose self amount
  | Lesson n fin skipped =>
      match complete_lesson self n fin skipped with
      | inr (self', _) => self'
      | inl _ => self
      end
  end.

Definition run (calls : list call) (self : PlayerEXP) : PlayerEXP :=
  fold_left apply_call calls self.

(** What every method keeps. *)
Definition in_range (self : PlayerEXP) : Prop :=
  (0 <= exp self <= MAX_EXP)%Z /\ level self = (exp self / 1000)%Z.

End RankBases_EXP.

(** ** IRT_Bases/Achivements.py: the achievement tracker *)

Module Achivements.
Import Py.

Definition TOTAL_ACHIEVEMENTS : Z := 30.

Definition BIAS_THRESHOLDS : list (Q * Q) :=
  [ (0.25, 0.00); (0.50, 0.02); (0.75, 0.05); (0.90, 0.08); (1.01, 0.12) ].

(** The inner loop that fills [_BIAS_MAP[i]]: the bias of the first
    threshold above the progress, the entry staying 0.0 if there is
    none. *)
Fixpoint first_bias (thresholds : list (Q * Q)) (progress : Q) : Q :=
  match thresholds with
  | [] => 0.0
  | (threshold, bias) :: rest =>
      if ltb progress threshold then bias else first_bias rest progress
  end.

Definition _BIAS_MAP : list Q :=
  map (fun i : nat =>
         first_bias BIAS_THRESHOLDS
           (inject_Z (Z.of_nat i) / inject_Z TOTAL_ACHIEVEMENTS))
      (seq 0 (Z.to_nat (TOTAL_ACHIEVEMENTS + 1))).

Definition get_achievement_value (completed : Z) : Q * Q :=
  let completed :=
    if (completed <? 0)%Z then 0%Z
    else if (TOTAL_ACHIEVEMENTS <? completed)%Z then TOTAL_ACHIEVEMENTS
    else completed in
  let progress := inject_Z completed / inject_Z TOTAL_ACHIEVEMENTS in
  let bias := nth (Z.to_nat completed) _BIAS_MAP 0 in
  (progress, bias).

Record PlayerAchievement : Type := { player_name : string; completed : Z }.

Definition __init__ (player_name : string) : PlayerAchievement :=
  {| player_name := player_name; completed := 0 |}.

Definition add_achievement (self : PlayerAchievement) (count : Z) : PlayerAchievement :=
  let total := (completed self + count)%Z in
  let total :=
    if (TOTAL_ACHIEVEMENTS <? total)%Z then TOTAL_ACHIEVEMENTS
    else if (total <? 0)%Z then 0%Z
    else total in
  {| player_name := player_name self; completed := total |}.

Definition reset (self : PlayerAchievement) : PlayerAchievement :=
  {| player_name := player_name self; completed := 0 |}.

(** [get_status]: the values of the keys ["completed"], ["progress"]
    and ["bias"]. *)
Definition get_status (self : PlayerAchievement) : Z * Q * Q :=
  let '(progress, bias) := get_achievement_value (completed self) in
  (completed self, round (progress * 100) 2, round bias 4).

(** The bias of each band of completed achievements. *)
Definition band_bias (completed : Z) : Q :=
  if (completed <=? 7)%Z then 0.00
  else if (completed <=? 14)%Z then 0.02
  else if (completed <=? 22)%Z then 0.05
  else if (completed <=? 26)%Z then 0.08
  else 0.12.

End Achivements.

(** * Properties *)

(** ** Python numbers *)

Module PyFacts.
Import Py.

Lemma ltb_lt (x y : Q) : ltb x y = true <-> x < y.
Proof.
  unfold ltb. rewrite negb_true_iff, <- not_true_iff_false, Qle_bool_iff.
  split; [apply Qnot_le_lt | apply Qlt_not_le].
Qed.

Lemma ltb_ge (x y : Q) : ltb x y = false <-> y <= x.
Proof.
  unfold ltb. rewrite negb_false_iff, Qle_bool_iff. reflexivity.
Qed.

Lemma leb_le (x y : Q) : leb x y = true <-> x <= y.
Proof. apply Qle_bool_iff. Qed.

Lemma leb_gt (x y : Q) : leb x y = false <-> y < x.
Proof.
  unfold leb. rewrite <- not_true_iff_false, Qle_bool_iff.
  split; [apply Qnot_le_lt | apply Qlt_not_le].
Qed.

(** Case analysis on a comparison, leaving its meaning in the context. *)
Ltac case_ltb x y :=
  let H := fresh "Hlt" in
  destruct (ltb x y) eqn:H; [apply ltb_lt in H | apply ltb_ge in H].
Ltac case_leb x y :=
  let H := fresh "Hle" in
  destruct (leb x y) eqn:H; [apply leb_le in H | apply leb_gt in H].

Lemma Qabs_le_iff (x b : Q) : Qabs x <= b <-> - b <= x <= b.
Proof. apply Qabs_Qle_condition. Qed.

Lemma Qabs_lt_iff (x b : Q) : Qabs x < b <-> - b < x < b.
Proof.
  split.
  - intros H. split.
    + destruct (Qlt_le_dec (- b) x) as [|Hc]; [assumption|].
      exfalso. assert (Hx : x <= 0) by (pose proof (Qabs_nonneg x); lra).
      rewrite (Qabs_neg _ Hx) in H. lra.
    + pose proof (Qle_Qabs x). lra.
  - intros [H1 H2]. apply Qabs_case; intros; lra.
Qed.

Lemma Qabs_gt_cases (x b : Q) : b < Qabs x -> x < - b \/ b < x.
Proof.
  intros H. destruct (Qlt_le_dec b x) as [|H1]; [now right|].
  destruct (Qlt_le_dec x (- b)) as [|H2]; [now left|].
  exfalso. assert (Qabs x <= b) by (apply Qabs_le_iff; lra). lra.
Qed.

(** *** [round_half_even] *)

Lemma round_half_even_comp (x y : Q) :
  x == y -> round_half_even x = round_half_even y.
Proof.
  intros H. unfold round_half_even.
  rewrite (Qfloor_comp _ _ H).
  assert (Hc : Qcompare (x - inject_Z (Qfloor y)) (1 # 2)
               = Qcompare (y - inject_Z (Qfloor y)) (1 # 2)).
  { apply Qcompare_comp; [rewrite H|]; reflexivity. }
  rewrite Hc. reflexivity.
Qed.

Lemma floor_bounds (x : Q) :
  inject_Z (Qfloor x) <= x < inject_Z (Qfloor x) + 1.
Proof.
  split; [apply Qfloor_le|].
  pose proof (Qlt_floor x) as H.
  rewrite inject_Z_plus in H. exact H.
Qed.

Lemma round_half_even_error (x : Q) :
  x - (1 # 2) <= inject_Z (round_half_even x) <= x + (1 # 2).
Proof.
  unfold round_half_even. pose proof (floor_bounds x) as [Hl Hu].
  destruct (Qcompare (x - inject_Z (Qfloor x)) (1 # 2)) eqn:Hc.
  - apply Qeq_alt in Hc.
    destruct (Z.even (Qfloor x)); [|rewrite inject_Z_plus];
      change (inject_Z 1) with 1; lra.
  - apply Qlt_alt in Hc. lra.
  - apply Qgt_alt in Hc. rewrite inject_Z_plus.
    change (inject_Z 1) with 1. lra.
Qed.

Lemma round_half_even_mono (x y : Q) :
  x <= y -> (round_half_even x <= round_half_even y)%Z.
Proof.
  intros Hxy.
  destruct (Z_le_gt_dec (round_half_even x) (round_half_even y)) as [|Hgt];
    [assumption|exfalso].
  pose proof (round_half_even_error x) as [_ Hx].
  pose proof (round_half_even_error y) as [Hy _].
  assert (Hz : (round_half_even y + 1 <= round_half_even x)%Z) by lia.
  rewrite Zle_Qle, inject_Z_plus in Hz. change (inject_Z 1) with 1 in Hz.
  assert (Heq : x == y) by lra.
  apply round_half_even_comp in Heq. lia.
Qed.

Lemma round_half_even_Z (k : Z) : round_half_even (inject_Z k) = k.
Proof.
  unfold round_half_even. rewrite Qfloor_Z.
  assert (H : Qcompare (inject_Z k - inject_Z k) (1 # 2) = Lt).
  { apply Qlt_alt. setoid_replace (inject_Z k - inject_Z k) with 0 by ring.
    reflexivity. }
  rewrite H. reflexivity.
Qed.

(** *** [round] *)

Lemma scale_pos (n : nat) : 0 < scale n.
Proof.
  unfold scale. change 0 with (inject_Z 0). rewrite <- Zlt_Qlt.
  apply Z.pow_pos_nonneg; lia.
Qed.

Lemma round_scale (x : Q) (n : nat) :
  round x n * scale n == inject_Z (round_half_even (x * scale n)).
Proof.
  unfold round, scale.
  assert (Hp : (0 < 10 ^ Z.of_nat n)%Z) by (apply Z.pow_pos_nonneg; lia).
  set (r := round_half_even _). set (p := (10 ^ Z.of_nat n)%Z) in *.
  unfold Qeq, Qmult, inject_Z. simpl.
  rewrite Pos.mul_1_r, Z2Pos.id by assumption. ring.
Qed.

Lemma round_error (x : Q) (n : nat) :
  Qabs (round x n - x) * scale n <= 1 # 2.
Proof.
  pose proof (scale_pos n) as Hs.
  pose proof (round_half_even_error (x * scale n)) as [Hl Hu].
  rewrite <- round_scale in Hl, Hu.
  apply Qabs_case; intros _; nra.
Qed.

Lemma round_mono (x y : Q) (n : nat) : x <= y -> round x n <= round y n.
Proof.
  intros Hxy. pose proof (scale_pos n) as Hs.
  assert (H : round x n * scale n <= round y n * scale n).
  { rewrite !round_scale, <- Zle_Qle. apply round_half_even_mono. nra. }
  nra.
Qed.

(** A bound with at most [n] decimals survives the rounding. *)
Lemma round_ge (x : Q) (n : nat) (k : Z) :
  inject_Z k <= x * scale n -> inject_Z k <= round x n * scale n.
Proof.
  intros H. rewrite round_scale, <- Zle_Qle, <- (round_half_even_Z k).
  apply round_half_even_mono. exact H.
Qed.

Lemma round_le (x : Q) (n : nat) (k : Z) :
  x * scale n <= inject_Z k -> round x n * scale n <= inject_Z k.
Proof.
  intros H. rewrite round_scale, <- Zle_Qle, <- (round_half_even_Z k).
  apply round_half_even_mono. exact H.
Qed.

(** The same bounds for a decimal fraction [a] of at most [n] decimals. *)
Lemma round_lower (x a : Q) (n : nat) (k : Z) :
  a * scale n == inject_Z k -> a <= x -> a <= round x n.
Proof.
  intros Ha H. pose proof (scale_pos n) as Hs.
  assert (Hk : inject_Z k <= x * scale n) by (rewrite <- Ha; nra).
  apply round_ge in Hk. rewrite <- Ha in Hk. nra.
Qed.

Lemma round_upper (x a : Q) (n : nat) (k : Z) :
  a * scale n == inject_Z k -> x <= a -> round x n <= a.
Proof.
  intros Ha H. pose proof (scale_pos n) as Hs.
  assert (Hk : x * scale n <= inject_Z k) by (rewrite <- Ha; nra).
  apply round_le in Hk. rewrite <- Ha in Hk. nra.
Qed.

(** Solves [a * scale n == inject_Z k] for closed [a], [n] and [k]. *)
Ltac decimal := vm_compute; reflexivity.

Lemma round_comp (x y : Q) (n : nat) : x == y -> round x n == round y n.
Proof.
  intros H. unfold round.
  rewrite (round_half_even_comp (x * inject_Z (10 ^ Z.of_nat n))
             (y * inject_Z (10 ^ Z.of_nat n))); [reflexivity|].
  rewrite H. reflexivity.
Qed.

Lemma round3_error (x : Q) : Qabs (round x 3 - x) <= 0.0005.
Proof.
  pose proof (round_error x 3) as H. change (scale 3) with 1000 in H.
  pose proof (Qabs_nonneg (round x 3 - x)). lra.
Qed.

End PyFacts.

(** ** The rational stand-in meets the specifications *)

Module MathFacts.
Import Py PyFacts.

Lemma rational_math_tanh : tanh_spec rational_math.
Proof.
  split; cbn [tanh sqrt rational_math].
  - intros x y H. rewrite H. reflexivity.
  - reflexivity.
  - intros x. rewrite Qabs_opp. unfold Qdiv. ring.
  - intros x. pose proof (Qabs_nonneg x) as Ha. pose proof (Qle_Qabs x) as Hx.
    pose proof (Qle_Qabs (- x)) as Hn. rewrite Qabs_opp in Hn.
    assert (Hp : 0 < 1 + Qabs x) by lra.
    split.
    + apply Qle_shift_div_l; [assumption|lra].
    + apply Qle_shift_div_r; [assumption|lra].
  - intros x Hx. rewrite (Qabs_pos x Hx).
    assert (Hp : 0 < 1 + x) by lra.
    split; [apply Qle_refl|].
    apply Qle_shift_div_r; [assumption|nra].
Qed.

Lemma tanh_lower {M : MathLib} (HM : tanh_spec M) (x lo : Q) :
  0 <= lo -> lo <= x -> lo / (1 + lo) <= tanh x.
Proof.
  intros H0 Hx. destruct (tanh_pos M HM x) as [Hl _]; [lra|].
  apply Qle_trans with (x / (1 + x)); [|exact Hl].
  apply Qle_shift_div_l; [lra|].
  unfold Qdiv. rewrite <- Qmult_assoc, (Qmult_comm (/ _)), Qmult_assoc.
  apply Qle_shift_div_r; [lra|]. nra.
Qed.

Lemma tanh_upper {M : MathLib} (HM : tanh_spec M) (x hi : Q) :
  0 <= x -> x <= hi -> tanh x <= hi.
Proof.
  intros H0 Hx. destruct (tanh_pos M HM x H0) as [_ Hu]. lra.
Qed.

Lemma tanh_nonneg {M : MathLib} (HM : tanh_spec M) (x : Q) : 0 <= x -> 0 <= tanh x.
Proof.
  intros H0. pose proof (tanh_lower HM x 0 (Qle_refl 0) H0) as H.
  assert (E : 0 / (1 + 0) == 0) by reflexivity. rewrite E in H. exact H.
Qed.

(** On the negative axis, by oddness. *)
Lemma tanh_neg {M : MathLib} (HM : tanh_spec M) (x : Q) : tanh x == - tanh (- x).
Proof.
  rewrite <- (tanh_odd M HM). apply (tanh_comp M HM). ring.
Qed.

Lemma rational_math_sqrt : sqrt_spec rational_math.
Proof. intros x [H0 H1]. cbn [sqrt rational_math]. split; nra. Qed.

End MathFacts.

(** ** The difficulty controller *)

Module DDAFacts.
Import Py PyFacts MathFacts algo_config DDA_Algo.

Lemma clamp_beta_range (beta : Q) : 0.1 <= clamp_beta beta <= 1.0.
Proof.
  unfold clamp_beta, BETA_MIN, BETA_MAX.
  case_ltb beta 0.1; [lra|]. case_ltb 1.0 beta; lra.
Qed.

Lemma clamp_beta_id (beta : Q) : 0.1 <= beta <= 1.0 -> clamp_beta beta = beta.
Proof.
  intros [Hl Hu]. unfold clamp_beta, BETA_MIN, BETA_MAX.
  case_ltb beta 0.1; [lra|]. case_ltb 1.0 beta; [lra|reflexivity].
Qed.



Lemma _preserve_cases (beta_old beta_new : Q) (s : IRTSnapshot) :
  _preserve_on_perfect_performance beta_old beta_new s = beta_old
  \/ _preserve_on_perfect_performance beta_old beta_new s = beta_new.
Proof.
  unfold _preserve_on_perfect_performance.
  destruct (_ && _); [now left|now right].
Qed.

Section adjust.
Context {M : MathLib}.
Variables (self : DDASystem) (beta_old : Q) (irt_output : dict).
Variables (success_count fail_count : Z) (target_performance adjustment_rate : Q).

Let L := adjust_locals self beta_old irt_output success_count fail_count
           target_performance adjustment_rate.
Let out := adjust_difficulty self beta_old irt_output success_count fail_count
             target_performance adjustment_rate.

Lemma l_beta_old_eq : l_beta_old L = clamp_beta beta_old.
Proof. reflexivity. Qed.

Lemma l_beta_old_range : 0.1 <= l_beta_old L <= 1.0.
Proof. rewrite l_beta_old_eq. apply clamp_beta_range. Qed.



Lemma l_gated_eq :
  l_gated L
  = _enforce_stability_gate self (l_performance_gap L)
      (_apply_behavior_weight
         (adjustment_rate * l_performance_gap L
          * _calculate_sensitivity (theta (l_irt_snapshot L)))
         (l_behavior_weight L)).
Proof. reflexivity. Qed.

Lemma l_performance_gap_eq :
  l_performance_gap L = target_performance - get irt_output "probability" 0.5.
Proof. reflexivity. Qed.

Lemma l_after_momentum_eq :
  l_self_momentum L = fst (_apply_momentum self (l_gated L))
  /\ l_after_momentum L = snd (_apply_momentum self (l_gated L)).
Proof. split; reflexivity. Qed.

Lemma l_slowed_eq :
  l_slowed L = _slow_if_recently_stable (l_self_momentum L) (l_beta_old L)
                 (l_after_momentum L).
Proof. reflexivity. Qed.

Lemma l_proposed_beta_eq :
  l_proposed_beta L = _propose_beta (l_beta_old L) (l_slowed L).
Proof. reflexivity. Qed.


Lemma out_momentum : _momentum (fst out) = _momentum (l_self_momentum L).
Proof. reflexivity. Qed.

Lemma out_beta_new : beta_new (snd out) = round (l_beta_new L) 3.
Proof. reflexivity. Qed.

Lemma out_adjustment_applied :
  adjustment_applied (snd out) = round (l_beta_new L - l_beta_old L) 3.
Proof. reflexivity. Qed.


End adjust.

(** *** The behaviour metrics stay in small intervals *)

Lemma round4_unit (x : Q) : 0 <= x <= 1 -> 0 <= round x 4 <= 1.
Proof.
  intros [H0 H1]. split.
  - apply (round_lower x 0 4 0); [decimal|exact H0].
  - apply (round_upper x 1 4 10000); [decimal|exact H1].
Qed.

Lemma round3_unit (x : Q) : 0 <= x <= 1 -> 0 <= round x 3 <= 1.
Proof.
  intros [H0 H1]. split.
  - apply (round_lower x 0 3 0); [decimal|exact H0].
  - apply (round_upper x 1 3 1000); [decimal|exact H1].
Qed.

Lemma normalized_unit (count : Z) :
  0 <= Qmin (inject_Z (if (count <? 0)%Z then 0%Z else count) / inject_Z 100) 1.0 <= 1.
Proof.
  set (c := if (count <? 0)%Z then 0%Z else count).
  assert (Hc : 0 <= inject_Z c).
  { change 0 with (inject_Z 0). rewrite <- Zle_Qle. subst c.
    destruct (Z.ltb_spec count 0); lia. }
  assert (Hd : 0 <= inject_Z c / inject_Z 100).
  { apply Qle_shift_div_l; [reflexivity|]. lra. }
  split.
  - apply Q.min_glb; [exact Hd|lra].
  - pose proof (Q.le_min_r (inject_Z c / inject_Z 100) 1.0). lra.
Qed.

Lemma find_tier_bias (tiers : list (Z * Z * IRT_Bases.tier)) (n : Z)
    (default : IRT_Bases.tier) (lo hi : Q) :
  Forall (fun t => lo <= IRT_Bases.bias (snd t) <= hi) tiers ->
  lo <= IRT_Bases.bias default <= hi ->
  lo <= IRT_Bases.bias (IRT_Bases.find_tier tiers n default) <= hi.
Proof.
  intros Hall Hd. induction Hall as [|[[a b] t] rest Ht _ IH]; simpl.
  - exact Hd.
  - destruct (_ && _); [exact Ht|exact IH].
Qed.

Lemma success_tier_bias (n : Z) :
  0 <= IRT_Bases.bias
         (IRT_Bases.find_tier IRT_Bases.SUCCESS_TIERS n IRT_Bases.DEFAULT_TIER) <= 0.1.
Proof.
  apply find_tier_bias; [|simpl; lra].
  repeat constructor; simpl; lra.
Qed.

Lemma fail_tier_bias (n : Z) :
  0 <= IRT_Bases.bias
         (IRT_Bases.find_tier IRT_Bases.FAIL_TIERS n IRT_Bases.DEFAULT_FAIL) <= 0.1.
Proof.
  apply find_tier_bias; [|simpl; lra].
  repeat constructor; simpl; lra.
Qed.

Lemma round4_bonus (x : Q) : 0 <= x <= 0.12 -> 0 <= round x 4 <= 0.12.
Proof.
  intros [H0 H1]. split.
  - apply (round_lower x 0 4 0); [decimal|exact H0].
  - apply (round_upper x 0.12 4 1200); [decimal|exact H1].
Qed.

Lemma get_success_rate_bounds {M : MathLib} (count : Z) :
  sqrt_spec M ->
  0 <= snd (fst (IRT_Bases.get_success_rate count)) <= 1
  /\ 0 <= snd (IRT_Bases.get_success_rate count) <= 0.12.
Proof.
  intros Hs. unfold IRT_Bases.get_success_rate, IRT_Bases.MAX_ATTEMPTS. cbn [fst snd].
  pose proof (normalized_unit count) as Hn.
  set (n := Qmin _ _) in *.
  split; [apply round4_unit; exact Hn|].
  apply round4_bonus.
  pose proof (Hs n Hn) as Hq.
  pose proof (success_tier_bias (int (n * inject_Z 100))) as Hb.
  set (b := IRT_Bases.bias _) in *. split; nra.
Qed.

Lemma get_fail_rate_bounds {M : MathLib} (count : Z) :
  sqrt_spec M ->
  0 <= snd (fst (IRT_Bases.get_fail_rate count)) <= 1
  /\ 0 <= snd (IRT_Bases.get_fail_rate count) <= 0.12.
Proof.
  intros Hs. unfold IRT_Bases.get_fail_rate, IRT_Bases.MAX_FAILS. cbn [fst snd].
  pose proof (normalized_unit count) as Hn.
  set (n := Qmin _ _) in *.
  split; [apply round4_unit; exact Hn|].
  apply round4_bonus.
  pose proof (Hs n Hn) as Hq.
  pose proof (fail_tier_bias (int (n * inject_Z 100))) as Hb.
  set (b := IRT_Bases.bias _) in *. split; nra.
Qed.

Lemma success_metrics_bounds {M : MathLib} (count : Z) :
  sqrt_spec M ->
  0 <= success_rate (_fetch_success_metrics count) <= 1
  /\ 0 <= consistency (_fetch_success_metrics count) <= 1.
Proof.
  intros Hs. unfold _fetch_success_metrics.
  pose proof (get_success_rate_bounds count Hs) as [Hv Hb].
  destruct (IRT_Bases.get_success_rate count) as [[lv nv] b].
  cbn [fst snd success_rate consistency] in *.
  split; [apply round3_unit; exact Hv|].
  apply round3_unit. split.
  - apply Q.min_glb; lra.
  - pose proof (Q.le_min_l 1.0 (nv + b)). lra.
Qed.

Lemma fail_metrics_bounds {M : MathLib} (count : Z) :
  sqrt_spec M -> 0 <= penalty (_fetch_fail_metrics count) <= 0.12.
Proof.
  intros Hs. unfold _fetch_fail_metrics.
  pose proof (get_fail_rate_bounds count Hs) as [Hv Hb].
  destruct (IRT_Bases.get_fail_rate count) as [[lv nv] b].
  cbn [fst snd penalty] in *. exact Hb.
Qed.

Lemma behavior_weight_bounds {M : MathLib} (success_count fail_count : Z) :
  sqrt_spec M ->
  -0.06 <= _calculate_behavior_weight (_fetch_success_metrics success_count)
             (_fetch_fail_metrics fail_count) <= 1.
Proof.
  intros Hs. unfold _calculate_behavior_weight.
  pose proof (success_metrics_bounds success_count Hs) as [Hr Hc].
  pose proof (fail_metrics_bounds fail_count Hs) as Hp.
  split; lra.
Qed.

(** *** One step of the controller, by the size of the adjustment *)

(** A controller as [__init__] leaves it has no momentum and no
    previous beta. *)
Lemma fresh_momentum {M : MathLib} (stability momentum_factor : Q) (beta_old : Q)
    (irt_output : dict) (success_count fail_count : Z)
    (target_performance adjustment_rate : Q) :
  let L := adjust_locals (__init__ stability momentum_factor) beta_old irt_output
             success_count fail_count target_performance adjustment_rate in
  l_slowed L == l_gated L * (1 + (1 - momentum_factor) * 0.5)
  /\ _momentum (l_self_momentum L) == (1 - momentum_factor) * l_gated L.
Proof.
  intros L.
  assert (E : l_slowed L
              = l_gated L + (momentum_factor * 0.0
                             + (1 - momentum_factor) * l_gated L) * 0.5)
    by reflexivity.
  assert (E' : _momentum (l_self_momentum L)
               = momentum_factor * 0.0 + (1 - momentum_factor) * l_gated L)
    by reflexivity.
  rewrite E, E'. split; ring.
Qed.

Section step.
Context {M : MathLib} (HM : tanh_spec M).
Variables (self : DDASystem) (beta_old : Q) (irt_output : dict).
Variables (success_count fail_count : Z) (target_performance adjustment_rate : Q).

Let L := adjust_locals self beta_old irt_output success_count fail_count
           target_performance adjustment_rate.

Let Ho : 0.1 <= l_beta_old L <= 1.0 :=
  l_beta_old_range self beta_old irt_output success_count fail_count
    target_performance adjustment_rate.

Ltac open_capped :=
  change (l_capped L)
    with (_cap_step (l_beta_old L) (_propose_beta (l_beta_old L) (l_slowed L)));
  unfold _propose_beta; cbv zeta.


(** The guard does not apply: the capped difficulty is kept. *)
Lemma guard_off :
  probability (l_irt_snapshot L) < 0.99 \/ l_beta_old L <= l_capped L
  \/ l_beta_old L < 0.5 ->
  l_beta_new L = l_capped L.
Proof.
  intros H.
  change (l_beta_new L)
    with (_preserve_on_perfect_performance (l_beta_old L) (l_capped L)
            (l_irt_snapshot L)).
  unfold _preserve_on_perfect_performance.
  case_leb 0.99 (probability (l_irt_snapshot L)); [|reflexivity].
  case_ltb (l_capped L) (l_beta_old L); [|reflexivity].
  case_leb 0.5 (l_beta_old L); [|reflexivity].
  exfalso. destruct H as [H|[H|H]]; lra.
Qed.

(** A small non-negative adjustment raises the difficulty, uncapped. *)
Lemma capped_up_small (lo hi : Q) :
  0 <= lo -> lo <= l_slowed L <= hi -> hi * 0.8 <= 0.15 ->
  l_beta_old L + hi * 0.8 <= 1.0 ->
  l_beta_old L + lo / (1 + lo) * 0.8 <= l_capped L <= l_beta_old L + hi * 0.8.
Proof.
  intros H0 [Hl Hh] Hcap Htop.
  pose proof (tanh_lower HM _ lo H0 Hl) as Tl.
  pose proof (tanh_upper HM (l_slowed L) hi (Qle_trans _ _ _ H0 Hl) Hh) as Tu.
  assert (T0 : 0 <= lo / (1 + lo)) by (apply Qle_shift_div_l; lra).
  open_capped.
  set (old := l_beta_old L) in *. set (t := tanh (l_slowed L)) in *.
  rewrite (clamp_beta_id (old + t * 0.8)) by lra.
  unfold _cap_step, MAX_BETA_STEP.
  case_ltb 0.15 (Qabs (old + t * 0.8 - old)).
  { exfalso. apply Qabs_gt_cases in Hlt. lra. }
  rewrite (clamp_beta_id (old + t * 0.8)) by lra. lra.
Qed.

(** A small non-positive adjustment lowers it, uncapped. *)
Lemma capped_down_small (lo hi : Q) :
  0 <= lo -> - hi <= l_slowed L <= - lo -> hi * 0.8 <= 0.15 ->
  0.1 <= l_beta_old L - hi * 0.8 ->
  l_beta_old L - hi * 0.8 <= l_capped L <= l_beta_old L - lo / (1 + lo) * 0.8.
Proof.
  intros H0 [Hh Hl] Hcap Hbot.
  assert (Hl' : lo <= - l_slowed L) by lra.
  assert (Hh' : - l_slowed L <= hi) by lra.
  pose proof (tanh_lower HM _ lo H0 Hl') as Tl.
  pose proof (tanh_upper HM (- l_slowed L) hi (Qle_trans _ _ _ H0 Hl') Hh') as Tu.
  pose proof (tanh_neg HM (l_slowed L)) as Tn.
  assert (T0 : 0 <= lo / (1 + lo)) by (apply Qle_shift_div_l; lra).
  open_capped.
  set (old := l_beta_old L) in *. set (t := tanh (l_slowed L)) in *.
  rewrite (clamp_beta_id (old + t * 0.8)) by lra.
  unfold _cap_step, MAX_BETA_STEP.
  case_ltb 0.15 (Qabs (old + t * 0.8 - old)).
  { exfalso. apply Qabs_gt_cases in Hlt. lra. }
  rewrite (clamp_beta_id (old + t * 0.8)) by lra. lra.
Qed.


End step.


(** A call at the difficulty that the previous call left: the
    adjustment is slowed. *)
Lemma slowed_when_stable {M : MathLib} (self : DDASystem) (beta_old : Q)
    (irt_output : dict) (success_count fail_count : Z)
    (target_performance adjustment_rate : Q) (previous : Q) :
  let L := adjust_locals self beta_old irt_output success_count fail_count
             target_performance adjustment_rate in
  _previous_beta self = Some previous ->
  Qabs (l_beta_old L - previous) < _stability_threshold self ->
  l_slowed L
  = (l_gated L + (_momentum_factor self * _momentum self
                  + (1 - _momentum_factor self) * l_gated L) * 0.5) * 0.4.
Proof.
  intros L Hp Hd.
  change (l_slowed L)
    with (_slow_if_recently_stable (fst (_apply_momentum self (l_gated L)))
            (l_beta_old L) (snd (_apply_momentum self (l_gated L)))).
  unfold _slow_if_recently_stable, _apply_momentum. cbn [fst snd _previous_beta].
  rewrite Hp. cbn [_stability_threshold].
  apply ltb_lt in Hd. rewrite Hd. reflexivity.
Qed.

(** The gate left open: the adjustment that enters the momentum. *)
Lemma gate_open {M : MathLib} (self : DDASystem) (beta_old : Q) (irt_output : dict)
    (success_count fail_count : Z) (target_performance adjustment_rate : Q) :
  let L := adjust_locals self beta_old irt_output success_count fail_count
             target_performance adjustment_rate in
  _stability_threshold self <= Qabs (l_performance_gap L) ->
  l_gated L
  = adjustment_rate * l_performance_gap L
    * _calculate_sensitivity (theta (l_irt_snapshot L))
    * (1 + l_behavior_weight L * 0.3).
Proof.
  intros L H. unfold L. rewrite l_gated_eq. fold L.
  unfold _enforce_stability_gate.
  case_ltb (Qabs (l_performance_gap L)) (_stability_threshold self); [lra|].
  reflexivity.
Qed.







(** C8.  When the performance gap is strictly inside the stability
    threshold, the adjustment that enters the momentum is exactly 0:
    the new controller state and difficulty do not depend on the rate,
    on the ability of the snapshot or on the success and failure
    counts, the momentum only decays, and with no momentum carried
    over the difficulty does not move. *)
Theorem stability_gate_zeroes_adjustment {M : MathLib} (self : DDASystem)
    (beta_old : Q) (irt_output : dict) (success_count fail_count : Z)
    (target_performance adjustment_rate : Q) :
  let L := adjust_locals self beta_old irt_output success_count fail_count
             target_performance adjustment_rate in
  let out := adjust_difficulty self beta_old irt_output success_count fail_count
               target_performance adjustment_rate in
  Qabs (target_performance - probability (_extract_irt_snapshot irt_output))
    < _stability_threshold self ->
  l_gated L = 0.0
  /\ _momentum (fst out) == _momentum_factor self * _momentum self
  /\ l_after_momentum L == _momentum (fst out) * 0.5
  /\ (forall (adjustment_rate' theta' : Q) (success_count' fail_count' : Z),
        let out' := adjust_difficulty self beta_old
                      [("probability", probability (_extract_irt_snapshot irt_output));
                       ("adjusted_theta", theta')]%string
                      success_count' fail_count' target_performance
                      adjustment_rate' in
        fst out' = fst out /\ beta_new (snd out') = beta_new (snd out))
  /\ (tanh_spec M -> _momentum self == 0 ->
      l_beta_new L == _sanitize_beta beta_old).
Proof.
  intros L out Hgate.
  assert (Hz : l_gated L = 0.0).
  { unfold L. rewrite l_gated_eq. fold L. unfold _enforce_stability_gate.
    change (l_performance_gap L)
      with (target_performance - probability (_extract_irt_snapshot irt_output)).
    apply ltb_lt in Hgate. rewrite Hgate. reflexivity. }
  assert (Hm : _momentum (fst out)
               = _momentum_factor self * _momentum self
                 + (1 - _momentum_factor self) * l_gated L) by reflexivity.
  assert (Ha : l_after_momentum L = l_gated L + _momentum (fst out) * 0.5)
    by reflexivity.
  split; [exact Hz|]. split; [rewrite Hm, Hz; ring|].
  split; [rewrite Ha, Hz; ring|]. split.
  - intros rate' theta' sc' fc' out'.
    set (L' := adjust_locals self beta_old
                 [("probability", probability (_extract_irt_snapshot irt_output));
                  ("adjusted_theta", theta')]%string sc' fc' target_performance rate').
    assert (Hz' : l_gated L' = 0.0).
    { unfold L'. rewrite l_gated_eq. fold L'. unfold _enforce_stability_gate.
      change (l_performance_gap L')
        with (target_performance - probability (_extract_irt_snapshot irt_output)).
      apply ltb_lt in Hgate. rewrite Hgate. reflexivity. }
    assert (Hs : l_slowed L' = l_slowed L).
    { change (l_slowed L')
        with (_slow_if_recently_stable (fst (_apply_momentum self (l_gated L')))
                (clamp_beta beta_old) (snd (_apply_momentum self (l_gated L')))).
      change (l_slowed L)
        with (_slow_if_recently_stable (fst (_apply_momentum self (l_gated L)))
                (clamp_beta beta_old) (snd (_apply_momentum self (l_gated L)))).
      rewrite Hz, Hz'. reflexivity. }
    assert (Hn : l_beta_new L' = l_beta_new L).
    { change (l_beta_new L')
        with (_preserve_on_perfect_performance (clamp_beta beta_old)
                (_cap_step (clamp_beta beta_old)
                   (_propose_beta (clamp_beta beta_old) (l_slowed L')))
                (_extract_irt_snapshot
                   [("probability", probability (_extract_irt_snapshot irt_output));
                    ("adjusted_theta", theta')]%string)).
      change (l_beta_new L)
        with (_preserve_on_perfect_performance (clamp_beta beta_old)
                (_cap_step (clamp_beta beta_old)
                   (_propose_beta (clamp_beta beta_old) (l_slowed L)))
                (_extract_irt_snapshot irt_output)).
      rewrite Hs. reflexivity. }
    split.
    + change (fst out')
        with {| _previous_beta := Some (l_beta_new L');
                _momentum := _momentum_factor self * _momentum self
                             + (1 - _momentum_factor self) * l_gated L';
                _stability_threshold := _stability_threshold self;
                _momentum_factor := _momentum_factor self |}.
      change (fst out)
        with {| _previous_beta := Some (l_beta_new L);
                _momentum := _momentum_factor self * _momentum self
                             + (1 - _momentum_factor self) * l_gated L;
                _stability_threshold := _stability_threshold self;
                _momentum_factor := _momentum_factor self |}.
      rewrite Hn, Hz, Hz'. reflexivity.
    + change (beta_new (snd out')) with (round (l_beta_new L') 3).
      change (beta_new (snd out)) with (round (l_beta_new L) 3).
      rewrite Hn. reflexivity.
  - intros HT Hm0.
    pose proof (clamp_beta_range beta_old) as Ho.
    assert (Hs0 : l_slowed L == 0).
    { unfold L. rewrite l_slowed_eq. fold L. unfold _slow_if_recently_stable.
      assert (Ha0 : l_after_momentum L == 0).
      { rewrite Ha, Hm, Hz, Hm0. ring. }
      destruct (_previous_beta (l_self_momentum L)); [|exact Ha0].
      destruct (ltb _ _); [rewrite Ha0; ring|exact Ha0]. }
    pose proof (tanh_comp M HT _ _ Hs0) as Ht. rewrite (tanh_0 M HT) in Ht.
    assert (Hcap : l_capped L = clamp_beta beta_old + tanh (l_slowed L) * 0.8).
    { change (l_capped L)
        with (_cap_step (clamp_beta beta_old)
                (_propose_beta (clamp_beta beta_old) (l_slowed L))).
      unfold _propose_beta. cbv zeta.
      set (old := clamp_beta beta_old) in *. set (t := tanh (l_slowed L)) in *.
      rewrite (clamp_beta_id (old + t * 0.8)) by lra.
      unfold _cap_step, MAX_BETA_STEP.
      case_ltb 0.15 (Qabs (old + t * 0.8 - old)).
      { exfalso. apply Qabs_gt_cases in Hlt. lra. }
      apply clamp_beta_id. lra. }
    unfold _sanitize_beta.
    change (l_beta_new L)
      with (_preserve_on_perfect_performance (clamp_beta beta_old) (l_capped L)
              (l_irt_snapshot L)).
    destruct (_preserve_cases (clamp_beta beta_old) (l_capped L) (l_irt_snapshot L))
      as [E|E]; rewrite E; [reflexivity|].
    rewrite Hcap, Ht. ring.
Qed.

(** A near-target snapshot (probability 0.68 against a target of 0.7)
    on a controller that carries momentum. *)
Lemma stability_gate_zeroes_adjustment_witness :
  let self := {| _previous_beta := Some 0.5; _momentum := 0.02;
                 _stability_threshold := 0.05; _momentum_factor := 0.6 |} in
  let L := adjust_locals (M := rational_math) self 0.5 (test_dda.make_irt 0.68 0.0)
             3 2 0.7 0.1 in
  let out := adjust_difficulty (M := rational_math) self 0.5
               (test_dda.make_irt 0.68 0.0) 3 2 0.7 0.1 in
  l_gated L = 0.0 /\ _momentum (fst out) == 0.6 * 0.02.
Proof.
  intros self L out.
  destruct (stability_gate_zeroes_adjustment (M := rational_math) self 0.5
              (test_dda.make_irt 0.68 0.0) 3 2 0.7 0.1) as (H1 & H2 & _).
  - vm_compute. reflexivity.
  - split; [exact H1|exact H2].
Defined.

End DDAFacts.

(** ** The probability model *)

Module IRTFacts.
Import Py PyFacts MathFacts IRT_Bases IRT_Algo.

Lemma _clamp_range (value lo hi : Q) : lo <= hi -> lo <= _clamp value lo hi <= hi.
Proof.
  intros H. unfold _clamp. split.
  - apply Q.le_max_l.
  - apply Q.max_lub; [exact H|apply Q.le_min_l].
Qed.

Lemma _clamp3_range (value : Q) : -3 <= _clamp3 value <= 3.
Proof.
  unfold _clamp3. pose proof (_clamp_range value (-3.0) 3.0). lra.
Qed.

Lemma _clamp3_bounds (v lo hi : Q) :
  -3 <= lo -> hi <= 3 -> lo <= v <= hi -> lo <= _clamp3 v <= hi.
Proof.
  intros Hlo Hhi [Hl Hu]. unfold _clamp3, _clamp. split.
  - apply Qle_trans with (Qmin 3.0 v); [apply Q.min_glb; lra|apply Q.le_max_r].
  - apply Q.max_lub; [lra|].
    apply Qle_trans with v; [apply Q.le_min_r|exact Hu].
Qed.

Lemma _sigmoid_range {M : MathLib} (x : Q) :
  tanh_spec M -> 0 <= _sigmoid x <= 1.
Proof.
  intros HT. unfold _sigmoid.
  case_ltb x (-20); [lra|]. case_ltb 20 x; [lra|].
  pose proof (tanh_range M HT (x / 2.0)). lra.
Qed.

Lemma round3_clamped (x : Q) : -3 <= x <= 3 -> -3 <= round x 3 <= 3.
Proof.
  intros [Hl Hu]. split.
  - apply (round_lower x (-3) 3 (-3000)); [decimal|exact Hl].
  - apply (round_upper x 3 3 3000); [decimal|exact Hu].
Qed.

Section stages.
Context {M : MathLib}.
Variable self : IRTModel.
Variables (user_id : option string) (theta : Q).
Variables (success_count fail_count sessions_played : Z).
Variables (prev_theta : option Q) (player_exp : option PlayerEXP) (exp : option Z).

Let s := full_irt_stages self user_id theta success_count fail_count
           sessions_played prev_theta player_exp exp.

Lemma after_update_range : -3 <= after_update s <= 3.
Proof.
  subst s. unfold full_irt_stages. cbn [after_update].
  unfold update_ability. destruct (_ =? 0)%Z; apply _clamp3_range.
Qed.

Lemma after_decay_range : -3 <= after_decay s <= 3.
Proof.
  subst s. unfold full_irt_stages. cbn [after_decay].
  unfold apply_learning_decay. apply round3_clamped, _clamp3_range.
Qed.

Lemma after_smoothing_range : -3 <= after_smoothing s <= 3.
Proof.
  pose proof after_decay_range as Hd.
  subst s. unfold full_irt_stages in *. cbn [after_smoothing after_decay] in *.
  destruct prev_theta; [apply _clamp3_range|exact Hd].
Qed.

End stages.

(** C7 (as amended).  For every input of [compute_full_irt], out of
    range or not, the returned probability is in [0, 1] and the
    returned [adjusted_theta] in [-3, 3]; the ability is clamped to
    [-3, 3] after the update from the counts, after the decay and
    after the smoothing. *)
Theorem full_irt_snapshot_in_range {M : MathLib} (self : IRTModel)
    (user_id : option string) (theta beta : Q)
    (success_count fail_count sessions_played : Z)
    (prev_theta : option Q) (player_exp : option PlayerEXP) (exp : option Z) :
  tanh_spec M ->
  let r := compute_full_irt self user_id theta beta success_count fail_count
             sessions_played prev_theta player_exp exp in
  let s := full_irt_stages self user_id theta success_count fail_count
             sessions_played prev_theta player_exp exp in
  0 <= fi_probability r <= 1
  /\ -3 <= fi_adjusted_theta r <= 3
  /\ -3 <= after_update s <= 3
  /\ -3 <= after_decay s <= 3
  /\ fi_adjusted_theta r = after_smoothing s.
Proof.
  intros HT r s. split; [|split; [|split; [|split]]].
  - subst r. unfold compute_full_irt. cbn [fi_probability].
    unfold compute_probability.
    pose proof (_sigmoid_range
                  (D self * (_clamp3 theta - Qmax 0.1 (Qmin 1.0 beta))) HT) as [H0 H1].
    split.
    + apply (round_lower _ 0 4 0); [decimal|exact H0].
    + apply (round_upper _ 1 4 10000); [decimal|exact H1].
  - apply after_smoothing_range.
  - apply after_update_range.
  - apply after_decay_range.
  - reflexivity.
Qed.

(** An out-of-range input: ability 7.5, difficulty -2, negative counts,
    no session, and a previous ability of 40. *)
Lemma full_irt_snapshot_in_range_witness :
  let r := compute_full_irt (M := rational_math) IRTModel_default None 7.5 (-2)
             (-4) (-1) 0 (Some 40) None None in
  0 <= fi_probability r <= 1 /\ -3 <= fi_adjusted_theta r <= 3.
Proof.
  destruct (full_irt_snapshot_in_range (M := rational_math) IRTModel_default None
              7.5 (-2) (-4) (-1) 0 (Some 40) None None rational_math_tanh)
    as (H1 & H2 & _).
  split; [exact H1|exact H2].
Defined.

(** The input of the counterexample to C7, for any [math] library
    meeting the specification of [sqrt]: ability 3 with 100 successes
    and no failure.  The rank, success and failure terms take the
    ability above 3 and nothing clamps it before the confidence stage
    multiplies it. *)
Lemma bonus_stage_example {M : MathLib} :
  sqrt_spec M ->
  3 < after_bonus (full_irt_stages IRTModel_default None 3 100 0 1 None None None).
Proof.
  intros HS. unfold full_irt_stages. cbn [after_bonus].
  assert (Hf : snd (get_fail_rate 0) <= 0.02).
  { unfold get_fail_rate. cbn [snd].
    apply (round_upper _ 0.02 4 200); [decimal|].
    pose proof (DDAFacts.normalized_unit 0) as Hn.
    change (inject_Z 100) with (inject_Z MAX_FAILS) in Hn.
    pose proof (HS _ Hn) as Hq.
    change (bias (find_tier FAIL_TIERS _ DEFAULT_FAIL)) with 0.00. lra. }
  assert (Hb : 0.1 <= snd (get_success_rate 100)).
  { unfold get_success_rate. cbn [snd].
    apply (round_lower _ 0.1 4 1000); [decimal|].
    pose proof (DDAFacts.normalized_unit 100) as Hn.
    change (inject_Z 100) with (inject_Z MAX_ATTEMPTS) in Hn.
    pose proof (HS _ Hn) as Hq.
    change (bias (find_tier SUCCESS_TIERS _ DEFAULT_TIER)) with 0.10. lra. }
  change (if (100 <? 0)%Z then 0%Z else 100%Z) with 100%Z.
  change (if (0 <? 0)%Z then 0%Z else 0%Z) with 0%Z.
  set (sb := snd (get_success_rate 100)) in *.
  set (fp := snd (get_fail_rate 0)) in *.
  change (update_ability (_clamp3 3) 100 0 0.05) with (_clamp3 (_clamp3 3 + (inject_Z 100 / inject_Z (100 + 0) - 0.5) * 0.05)).
  assert (Hu : _clamp3 (_clamp3 3 + (inject_Z 100 / inject_Z (100 + 0) - 0.5) * 0.05) == 3)
    by (vm_compute; reflexivity).
  rewrite Hu.
  change (snd (get_rank_data "default_user" None)) with (-0.05).
  change (Qmin (inject_Z (get_achievement_score "default_user") * 0.01) 0.1) with (0 * 0.01).
  lra.
Qed.

(** C7, counterexample.  Not every stage clamps: with ability 3 and
    100 successes the value handed to the confidence stage exceeds 3. *)
Lemma bonus_stage_is_not_clamped :
  ~ (forall M : MathLib, tanh_spec M -> sqrt_spec M ->
     forall (self : IRTModel) (user_id : option string) (theta : Q)
            (success_count fail_count sessions_played : Z)
            (prev_theta : option Q) (player_exp : option PlayerEXP) (exp : option Z),
       let s := full_irt_stages self user_id theta success_count fail_count
                  sessions_played prev_theta player_exp exp in
       -3 <= after_update s <= 3 /\ -3 <= after_bonus s <= 3
       /\ -3 <= after_confidence s <= 3 /\ -3 <= after_decay s <= 3
       /\ -3 <= after_smoothing s <= 3).
Proof.
  intros H.
  specialize (H rational_math rational_math_tanh rational_math_sqrt
                IRTModel_default None 3 100%Z 0%Z 1%Z None None None).
  destruct H as (_ & [_ Hb] & _).
  pose proof (bonus_stage_example rational_math_sqrt) as Hx. lra.
Qed.

End IRTFacts.

(** ** The end-to-end examples *)

Module PuzzleFacts.
Import Py PyFacts MathFacts algo_config IRT_Algo DDA_Algo DDAFacts IRTFacts Puzzel_Based.

Lemma sensitivity_bounds (theta : Q) : 0.5 <= _calculate_sensitivity theta <= 1.5.
Proof.
  unfold _calculate_sensitivity. cbv zeta.
  pose proof (Q.le_max_l (-3.0) (Qmin 3.0 theta)) as Hl.
  assert (Hu : Qmax (-3.0) (Qmin 3.0 theta) <= 3.0).
  { apply Q.max_lub; [lra|apply Q.le_min_l]. }
  set (c := Qmax _ _) in *.
  setoid_replace (c / 6.0) with (c * (1 # 6)) by field.
  lra.
Qed.

(** The probability of the model below the midpoint. *)
Lemma _sigmoid_negative {M : MathLib} (HT : tanh_spec M) (x a : Q) :
  0 <= a <= 10 -> x == - (2 * a) ->
  0.5 * (1 - a) <= _sigmoid x <= 0.5 * (1 - a / (1 + a)).
Proof.
  intros [Ha0 Ha1] Hx. unfold _sigmoid.
  case_ltb x (-20); [lra|]. case_ltb 20 x; [lra|].
  assert (E : x / 2.0 == - a) by (rewrite Hx; field).
  pose proof (tanh_comp M HT _ _ E) as Ht. rewrite (tanh_odd M HT) in Ht.
  pose proof (tanh_lower HT a a Ha0 (Qle_refl a)) as Tl.
  pose proof (tanh_upper HT a a Ha0 (Qle_refl a)) as Tu.
  set (c := a / (1 + a)) in *. lra.
Qed.

Section snapshot.
Context {M : MathLib} (HT : tanh_spec M) (HS : sqrt_spec M).
Variable p : Q.

(** Under-performance on a fresh controller at difficulty 0.5. *)
Lemma under_performance_raises :
  0.16 <= p <= 0.24 ->
  0.54 <= beta_new (snd (adjust_difficulty (__init__ 0.05 0.6) 0.5
                           (test_dda.make_irt p 0.0) 0 5 0.7 0.1)).
Proof.
  intros [Hp0 Hp1]. rewrite out_beta_new.
  pose proof (fresh_momentum 0.05 0.6 0.5 (test_dda.make_irt p 0.0) 0 5 0.7 0.1)
    as [Hslow _].
  pose proof (gate_open (__init__ 0.05 0.6) 0.5 (test_dda.make_irt p 0.0)
                0 5 0.7 0.1) as Hg.
  pose proof (behavior_weight_bounds 0 5 HS) as Hw.
  pose proof (capped_up_small HT (__init__ 0.05 0.6) 0.5
                (test_dda.make_irt p 0.0) 0 5 0.7 0.1 0.054 0.085) as Hstep.
  pose proof (guard_off (__init__ 0.05 0.6) 0.5
                (test_dda.make_irt p 0.0) 0 5 0.7 0.1) as Hguard.
  cbv zeta in Hslow, Hg, Hstep. set (L := adjust_locals _ _ _ _ _ _ _) in *.
  change (_calculate_behavior_weight _ _) with (l_behavior_weight L) in Hw.
  change (l_performance_gap L) with (0.7 - p) in Hg.
  change (theta (l_irt_snapshot L)) with 0.0 in Hg.
  change (_calculate_sensitivity 0.0) with (1 - Qmax (-3.0) (Qmin 3.0 0.0) / 6.0) in Hg.
  change (Qmax (-3.0) (Qmin 3.0 0.0)) with 0.0 in Hg.
  change (_stability_threshold (__init__ 0.05 0.6)) with 0.05 in Hg.
  assert (Hgv : l_gated L == 0.1 * (0.7 - p) * (1 + l_behavior_weight L * 0.3)).
  { rewrite Hg.
    - setoid_replace (0.0 / 6.0) with 0 by reflexivity. ring.
    - rewrite Qabs_pos; lra. }
  change (l_beta_old L) with 0.5 in Hstep, Hguard.
  set (w := l_behavior_weight L) in *.
  assert (Hc0 : 0.04 <= 0.054 / (1 + 0.054) * 0.8) by (vm_compute; discriminate).
  set (c := 0.054 / (1 + 0.054) * 0.8) in *.
  assert (Hs : 0.054 <= l_slowed L <= 0.085) by (rewrite Hslow, Hgv; split; nra).
  destruct Hstep as [Hlo _]; [lra|exact Hs|lra|lra|].
  rewrite Hguard by (right; left; lra).
  apply (round_lower _ 0.54 3 540); [decimal|lra].
Qed.

(** Over-performance on a fresh controller at difficulty 0.5. *)
Lemma over_performance_lowers :
  0.76 <= p <= 0.84 ->
  beta_new (snd (adjust_difficulty (__init__ 0.05 0.6) 0.5
                   (test_dda.make_irt p 0.0) 5 0 0.7 0.1)) <= 0.495.
Proof.
  intros [Hp0 Hp1]. rewrite out_beta_new.
  pose proof (fresh_momentum 0.05 0.6 0.5 (test_dda.make_irt p 0.0) 5 0 0.7 0.1)
    as [Hslow _].
  pose proof (gate_open (__init__ 0.05 0.6) 0.5 (test_dda.make_irt p 0.0)
                5 0 0.7 0.1) as Hg.
  pose proof (behavior_weight_bounds 5 0 HS) as Hw.
  pose proof (capped_down_small HT (__init__ 0.05 0.6) 0.5
                (test_dda.make_irt p 0.0) 5 0 0.7 0.1 0.007 0.022) as Hstep.
  pose proof (guard_off (__init__ 0.05 0.6) 0.5
                (test_dda.make_irt p 0.0) 5 0 0.7 0.1) as Hguard.
  cbv zeta in Hslow, Hg, Hstep. set (L := adjust_locals _ _ _ _ _ _ _) in *.
  change (_calculate_behavior_weight _ _) with (l_behavior_weight L) in Hw.
  change (l_performance_gap L) with (0.7 - p) in Hg.
  change (theta (l_irt_snapshot L)) with 0.0 in Hg.
  change (_calculate_sensitivity 0.0) with (1 - Qmax (-3.0) (Qmin 3.0 0.0) / 6.0) in Hg.
  change (Qmax (-3.0) (Qmin 3.0 0.0)) with 0.0 in Hg.
  change (_stability_threshold (__init__ 0.05 0.6)) with 0.05 in Hg.
  assert (Hgv : l_gated L == 0.1 * (0.7 - p) * (1 + l_behavior_weight L * 0.3)).
  { rewrite Hg.
    - setoid_replace (0.0 / 6.0) with 0 by reflexivity. ring.
    - rewrite Qabs_neg; lra. }
  change (l_beta_old L) with 0.5 in Hstep, Hguard.
  change (probability (l_irt_snapshot L)) with p in Hguard.
  set (w := l_behavior_weight L) in *.
  assert (Hc0 : 0.005 <= 0.007 / (1 + 0.007) * 0.8) by (vm_compute; discriminate).
  set (c := 0.007 / (1 + 0.007) * 0.8) in *.
  assert (Hs : - 0.022 <= l_slowed L <= - 0.007) by (rewrite Hslow, Hgv; split; nra).
  destruct Hstep as [_ Hhi]; [lra|exact Hs|lra|lra|].
  rewrite Hguard by (left; lra).
  apply (round_upper _ 0.495 3 495); [decimal|lra].
Qed.

End snapshot.

(** C3 (as amended).  On a freshly constructed controller, with
    difficulty 0.5, target 0.7 and rate 0.1, and a snapshot of ability
    0.0: when the snapshot carries a probability of about 0.2 (within
    0.04), with 0 successes and 5 failures, one call returns a
    difficulty above 0.5; when it carries a probability of about 0.8,
    with 5 successes and 0 failures, one call returns a difficulty
    below 0.5.  The probability is an input of the call: the model
    itself gives the same probability whatever the counts. *)
Theorem snapshot_example_moves_difficulty {M : MathLib} (p_low p_high : Q) :
  tanh_spec M -> sqrt_spec M ->
  Qabs (p_low - 0.2) <= 0.04 -> Qabs (p_high - 0.8) <= 0.04 ->
  0.5 < beta_new (snd (adjust_difficulty (__init__ 0.05 0.6) 0.5
                         (test_dda.make_irt p_low 0.0) 0 5 0.7 0.1))
  /\ beta_new (snd (adjust_difficulty (__init__ 0.05 0.6) 0.5
                      (test_dda.make_irt p_high 0.0) 5 0 0.7 0.1)) < 0.5
  /\ (forall (theta beta : Q) (rank_name : string) (achievements : Z)
             (success_count fail_count success_count' fail_count' : Z),
        get (irt_probability theta beta rank_name achievements success_count
               fail_count None) "probability" 0.5
        = get (irt_probability theta beta rank_name achievements success_count'
                 fail_count' None) "probability" 0.5).
Proof.
  intros HT HS Hl Hh. apply Qabs_le_iff in Hl. apply Qabs_le_iff in Hh.
  split; [|split].
  - pose proof (under_performance_raises HT HS p_low) as H.
    assert (Hr : 0.16 <= p_low <= 0.24) by lra. specialize (H Hr). lra.
  - pose proof (over_performance_lowers HT HS p_high) as H.
    assert (Hr : 0.76 <= p_high <= 0.84) by lra. specialize (H Hr). lra.
  - reflexivity.
Qed.

(** The two runs at probabilities 0.2 and 0.8. *)
Lemma snapshot_example_moves_difficulty_witness :
  0.5 < beta_new (snd (adjust_difficulty (M := rational_math) (__init__ 0.05 0.6) 0.5
                         (test_dda.make_irt 0.2 0.0) 0 5 0.7 0.1))
  /\ beta_new (snd (adjust_difficulty (M := rational_math) (__init__ 0.05 0.6) 0.5
                      (test_dda.make_irt 0.8 0.0) 5 0 0.7 0.1)) < 0.5.
Proof.
  destruct (snapshot_example_moves_difficulty (M := rational_math) 0.2 0.8
              rational_math_tanh rational_math_sqrt) as (H1 & H2 & _).
  - vm_compute. discriminate.
  - vm_compute. discriminate.
  - split; [exact H1|exact H2].
Defined.

(** The run of the counterexample to C3, for any [math] library
    meeting the specifications: the whole pipeline on ability 0.0 and
    difficulty 0.5 with 5 successes and no failure.  The model gives a
    probability of about 0.3 (it does not look at the counts), which is
    below the target, and the difficulty goes up. *)
Lemma end_to_end_example {M : MathLib} :
  tanh_spec M -> sqrt_spec M ->
  let over := snd (run_puzzle_adjustment fresh_module None None 0.0 0.5 "novice"
                     0 5 0 0.7 0.1 true None None) in
  0.28 <= get (IRT_Result over) "probability" 0.5 <= 0.36
  /\ 0.51 <= New_Beta (Summary over).
Proof.
  intros HT HS over.
  set (irt := irt_probability 0.0 0.5 "novice" 0 5 0 None).
  assert (HP : 0.28 <= get irt "probability" 0.5 <= 0.36).
  { change (get irt "probability" 0.5) with (_sigmoid (1.7 * (0.0 - 0.5))).
    pose proof (_sigmoid_negative HT (1.7 * (0.0 - 0.5)) 0.425) as H.
    assert (Hc : 0.29 <= 0.425 / (1 + 0.425)) by (vm_compute; discriminate).
    set (c := 0.425 / (1 + 0.425)) in *.
    destruct H as [H1 H2]; [lra|reflexivity|]. lra. }
  split; [exact HP|].
  change (New_Beta (Summary over))
    with (beta_new (snd (adjust_difficulty (__init__ 0.05 0.6) 0.5 irt 5 0 0.7 0.1))).
  rewrite out_beta_new.
  pose proof (fresh_momentum 0.05 0.6 0.5 irt 5 0 0.7 0.1) as [Hslow _].
  pose proof (gate_open (__init__ 0.05 0.6) 0.5 irt 5 0 0.7 0.1) as Hg.
  pose proof (behavior_weight_bounds 5 0 HS) as Hw.
  pose proof (capped_up_small HT (__init__ 0.05 0.6) 0.5 irt 5 0 0.7 0.1 0.019 0.1)
    as Hstep.
  pose proof (guard_off (__init__ 0.05 0.6) 0.5 irt 5 0 0.7 0.1) as Hguard.
  cbv zeta in Hslow, Hg, Hstep. set (L := adjust_locals _ _ _ _ _ _ _) in *.
  change (_calculate_behavior_weight _ _) with (l_behavior_weight L) in Hw.
  change (l_performance_gap L) with (0.7 - get irt "probability" 0.5) in Hg.
  change (_stability_threshold (__init__ 0.05 0.6)) with 0.05 in Hg.
  pose proof (sensitivity_bounds (theta (l_irt_snapshot L))) as Hsens.
  set (P := get irt "probability" 0.5) in *.
  set (s := _calculate_sensitivity _) in *.
  set (w := l_behavior_weight L) in *.
  rewrite Hg in Hslow by (rewrite Qabs_pos; lra).
  change (l_beta_old L) with 0.5 in Hstep, Hguard.
  assert (Hc0 : 0.0149 <= 0.019 / (1 + 0.019) * 0.8) by (vm_compute; discriminate).
  set (c := 0.019 / (1 + 0.019) * 0.8) in *.
  assert (H1 : 0.034 <= 0.1 * (0.7 - P) <= 0.042) by lra.
  set (g1 := 0.1 * (0.7 - P)) in *.
  assert (H2 : 0.017 <= g1 * s <= 0.063) by (split; nra).
  set (g2 := g1 * s) in *.
  assert (H3 : 0.0166 <= g2 * (1 + w * 0.3) <= 0.082) by (split; nra).
  set (g3 := g2 * (1 + w * 0.3)) in *.
  assert (Hs : 0.019 <= l_slowed L <= 0.1) by (rewrite Hslow; split; lra).
  destruct Hstep as [Hlo _]; [lra|exact Hs|lra|lra|].
  rewrite Hguard by (right; left; lra).
  apply (round_lower _ 0.51 3 510); [decimal|lra].
Qed.

(** C3, counterexample.  Run end to end with ability 0.0 and
    difficulty 0.5, the model does not give a probability near 0.8 for
    5 successes and no failure, and the difficulty returned is not
    below 0.5. *)
Lemma end_to_end_example_fails :
  ~ (forall M : MathLib, tanh_spec M -> sqrt_spec M ->
     let under := snd (run_puzzle_adjustment fresh_module None None 0.0 0.5 "novice"
                         0 0 5 0.7 0.1 true None None) in
     let over := snd (run_puzzle_adjustment fresh_module None None 0.0 0.5 "novice"
                        0 5 0 0.7 0.1 true None None) in
     (Qabs (get (IRT_Result under) "probability" 0.5 - 0.2) <= 0.05
      /\ 0.5 < New_Beta (Summary under))
     /\ (Qabs (get (IRT_Result over) "probability" 0.5 - 0.8) <= 0.05
         /\ New_Beta (Summary over) < 0.5)).
Proof.
  intros H.
  specialize (H rational_math rational_math_tanh rational_math_sqrt).
  destruct H as [_ [_ H]].
  pose proof (end_to_end_example rational_math_tanh rational_math_sqrt) as [_ Hx].
  cbv zeta in Hx. lra.
Qed.

End PuzzleFacts.

(** ** Skill-based matching and the shared controller *)

Module SBMMFacts.
Import Py PyFacts MathFacts algo_config IRT_Algo DDA_Algo DDAFacts IRTFacts.
Import PuzzleFacts SkillBasedMatchMaking examples.

Lemma calculate_match_score_nonneg (ta tb ba bb wt wb : Q) :
  0 <= calculate_match_score ta tb ba bb wt wb.
Proof.
  unfold calculate_match_score. cbv zeta.
  apply (round_lower _ 0 3 0); [decimal|].
  pose proof (Q.le_min_r (wt * Qabs (ta - tb) + wb * Qabs (ba - bb)) 1.0). lra.
Qed.

(** The call for the first of the two players, whatever the state of
    the shared controller: what it returns in terms of the
    controller's response. *)
Lemma find_best_match_two_players {M : MathLib} (dda : DDASystem) :
  let irt := irt_probability 0.5 0.5 "novice" 0 0 0 None in
  let out := adjust_difficulty dda 0.5 irt 0 0 0.7 0.1 in
  let adjusted_theta := get irt "adjusted_theta" 0 in
  let adjusted_beta := beta_new (snd out) in
  find_best_match dda 0 two_players one_centroid "novice" 0 0 0
  = (fst out,
     inr {| player_index := 0;
            match_index := Some 1%nat;
            match_score :=
              round (calculate_match_score adjusted_theta 0.5 adjusted_beta 0.5
                       w_theta w_beta) 3;
            cluster := Some 0%nat;
            adaptive_weights_ := Some (w_theta, w_beta);
            IRT_Profile := Some (adjusted_theta, adjusted_beta);
            Consistency := Some (round 0.5 3) |}).
Proof.
  intros irt out adjusted_theta adjusted_beta.
  unfold find_best_match.
  change (List.length two_players <? 2)%nat with false. cbv iota.
  change (point <- lookup two_players 0;; unpack2 point) with (@inr exn _ (0.5, 0.5)).
  cbv iota beta. fold irt.
  change (adjust_difficulty dda 0.5 irt 0 0 0.7 0.1) with out.
  rewrite (surjective_pairing out). f_equal.
  change (assign_clusters two_players one_centroid) with (@inr exn _ [[0%nat; 1%nat]]).
  change (lookup two_players 0) with (@inr exn _ [0.5; 0.5]).
  cbv beta iota delta [bind ret].
  change (KMeans_Cluster.nearest_centroid one_centroid [0.5; 0.5]) with 0%nat.
  cbv beta iota delta [nth_error filter Nat.eqb negb].
  change ((0 <? 0 + 0)%Z) with false. cbv iota.
  unfold adaptive_weights. cbv zeta. fold w_theta w_beta.
  cbn [best_candidate].
  change (lookup two_players 1) with (@inr exn _ [0.5; 0.5]).
  cbv beta iota delta [bind ret unpack2].
  fold adjusted_theta. fold adjusted_beta.
  pose proof (calculate_match_score_nonneg adjusted_theta 0.5 adjusted_beta 0.5
                w_theta w_beta) as H0.
  assert (Hlt : ltb (-1.0) (calculate_match_score adjusted_theta 0.5 adjusted_beta 0.5
                              w_theta w_beta) = true) by (apply ltb_lt; lra).
  rewrite Hlt. reflexivity.
Qed.

(** The snapshot of that player, for any [math] library meeting the
    specifications: the probability is one half, the ability is
    between 0.33 and 0.57. *)
Lemma two_players_snapshot {M : MathLib} :
  tanh_spec M -> sqrt_spec M ->
  let irt := irt_probability 0.5 0.5 "novice" 0 0 0 None in
  get irt "probability" 0.5 == 0.5
  /\ 0.33 <= get irt "adjusted_theta" 0 <= 0.57.
Proof.
  intros HT HS irt. split.
  - change (get irt "probability" 0.5) with (_sigmoid (1.7 * (0.5 - 0.5))).
    unfold _sigmoid.
    change (ltb (1.7 * (0.5 - 0.5)) (-20)) with false.
    change (ltb 20 (1.7 * (0.5 - 0.5))) with false. cbv iota.
    assert (E : 1.7 * (0.5 - 0.5) / 2.0 == 0) by reflexivity.
    rewrite (tanh_comp M HT _ _ E), (tanh_0 M HT). reflexivity.
  - pose proof (get_success_rate_bounds 0 HS) as [_ Hs].
    pose proof (get_fail_rate_bounds 0 HS) as [_ Hf].
    change (get irt "adjusted_theta" 0)
      with (_clamp3 (0.5 + (-0.05 + snd (IRT_Bases.get_success_rate 0)
                            - snd (IRT_Bases.get_fail_rate 0))
                     + Qmin (inject_Z 0 * 0.01 * 0.01) 0.1)).
    change (Qmin (inject_Z 0 * 0.01 * 0.01) 0.1) with (inject_Z 0 * 0.01 * 0.01).
    apply _clamp3_bounds; [lra|lra|].
    change (inject_Z 0) with 0. lra.
Qed.

(** The ability of that snapshot as the controller reads it, whatever
    the default of the lookup. *)
Lemma two_players_ability {M : MathLib} (default : Q) :
  sqrt_spec M ->
  let irt := irt_probability 0.5 0.5 "novice" 0 0 0 None in
  0.33 <= get irt "adjusted_theta" default <= 0.57.
Proof.
  intros HS irt.
  pose proof (get_success_rate_bounds 0 HS) as [_ Hs].
  pose proof (get_fail_rate_bounds 0 HS) as [_ Hf].
  change (get irt "adjusted_theta" default)
    with (_clamp3 (0.5 + (-0.05 + snd (IRT_Bases.get_success_rate 0)
                          - snd (IRT_Bases.get_fail_rate 0))
                   + Qmin (inject_Z 0 * 0.01 * 0.01) 0.1)).
  change (Qmin (inject_Z 0 * 0.01 * 0.01) 0.1) with (inject_Z 0 * 0.01 * 0.01).
  apply _clamp3_bounds; [lra|lra|].
  change (inject_Z 0) with 0. lra.
Qed.

(** The sensitivity for an ability between 0.33 and 0.57. *)
Lemma sensitivity_mid_ability (t : Q) :
  0.33 <= t <= 0.57 -> 0.905 <= _calculate_sensitivity t <= 0.945.
Proof.
  intros Ht. unfold _calculate_sensitivity. cbv zeta.
  assert (Hc : 0.33 <= Qmax (-3.0) (Qmin 3.0 t) <= 0.57).
  { split.
    - apply Qle_trans with (Qmin 3.0 t); [apply Q.min_glb; lra|apply Q.le_max_r].
    - apply Q.max_lub; [lra|].
      apply Qle_trans with t; [apply Q.le_min_r|lra]. }
  set (c := Qmax _ _) in *. clearbody c.
  setoid_replace (c / 6.0) with (c * (1 # 6)) by field. lra.
Qed.

Section two_calls.
Context {M : MathLib} (HT : tanh_spec M) (HS : sqrt_spec M).

Let irt := irt_probability 0.5 0.5 "novice" 0 0 0 None.
Let out1 := adjust_difficulty _dda_instance 0.5 irt 0 0 0.7 0.1.
Let out2 := adjust_difficulty (fst out1) 0.5 irt 0 0 0.7 0.1.
Let L1 := adjust_locals _dda_instance 0.5 irt 0 0 0.7 0.1.
Let L2 := adjust_locals (fst out1) 0.5 irt 0 0 0.7 0.1.

(** The adjustment before momentum, the same in both calls. *)
Lemma two_calls_gated :
  l_gated L2 = l_gated L1 /\ 0.0177 <= l_gated L1 <= 0.0246.
Proof.
  destruct (two_players_snapshot HT HS) as [HP HTh]. fold irt in HP, HTh.
  pose proof (gate_open _dda_instance 0.5 irt 0 0 0.7 0.1) as Hg1.
  pose proof (gate_open (fst out1) 0.5 irt 0 0 0.7 0.1) as Hg2.
  pose proof (behavior_weight_bounds 0 0 HS) as Hw.
  cbv zeta in Hg1, Hg2. fold L1 in Hg1. fold L2 in Hg2.
  change (_calculate_behavior_weight _ _) with (l_behavior_weight L1) in Hw.
  change (l_behavior_weight L2) with (l_behavior_weight L1) in Hg2.
  change (l_performance_gap L2) with (l_performance_gap L1) in Hg2.
  change (theta (l_irt_snapshot L2)) with (theta (l_irt_snapshot L1)) in Hg2.
  change (_stability_threshold (fst out1)) with 0.05 in Hg2.
  change (_stability_threshold _dda_instance) with 0.05 in Hg1.
  change (l_performance_gap L1) with (0.7 - get irt "probability" 0.5) in Hg1, Hg2.
  assert (Hgap : 0.05 <= Qabs (0.7 - get irt "probability" 0.5)).
  { rewrite HP. vm_compute. discriminate. }
  specialize (Hg1 Hgap). specialize (Hg2 Hgap).
  split; [rewrite Hg1, Hg2; reflexivity|].
  rewrite Hg1.
  assert (Hs : 0.905 <= _calculate_sensitivity (theta (l_irt_snapshot L1)) <= 0.945).
  { change (theta (l_irt_snapshot L1)) with (get irt "adjusted_theta" 0.0).
    apply sensitivity_mid_ability, (two_players_ability 0.0 HS). }
  set (s := _calculate_sensitivity _) in *. set (w := l_behavior_weight L1) in *.
  rewrite HP.
  assert (H1 : 0.0181 <= 0.1 * (0.7 - 0.5) * s <= 0.0189) by lra.
  set (g := 0.1 * (0.7 - 0.5) * s) in *. split; nra.
Qed.

(** The first call raises the difficulty to at least 0.5166. *)
Lemma first_call_beta :
  0.5166 <= l_beta_new L1 <= 0.524 /\ _previous_beta (fst out1) = Some (l_beta_new L1)
  /\ _momentum (fst out1) == 0.4 * l_gated L1.
Proof.
  destruct two_calls_gated as [_ HG].
  pose proof (fresh_momentum 0.05 0.6 0.5 irt 0 0 0.7 0.1) as [Hslow Hmom].
  pose proof (capped_up_small HT _dda_instance 0.5 irt 0 0 0.7 0.1 0.0212 0.03)
    as Hstep.
  pose proof (guard_off _dda_instance 0.5 irt 0 0 0.7 0.1) as Hguard.
  cbv zeta in Hslow, Hmom, Hstep. fold _dda_instance in Hslow, Hmom.
  fold L1 in Hslow, Hmom, Hstep, Hguard.
  change (l_beta_old L1) with 0.5 in Hstep, Hguard.
  assert (Hc0 : 0.0166 <= 0.0212 / (1 + 0.0212) * 0.8) by (vm_compute; discriminate).
  set (c := 0.0212 / (1 + 0.0212) * 0.8) in *.
  assert (Hs : 0.0212 <= l_slowed L1 <= 0.03) by (rewrite Hslow; split; lra).
  destruct Hstep as [Hlo Hhi]; [lra|exact Hs|lra|lra|].
  assert (Hg : l_beta_new L1 = l_capped L1) by (apply Hguard; right; left; lra).
  rewrite Hg. split; [lra|]. split; [rewrite <- Hg; reflexivity|].
  change (_momentum (fst out1)) with (_momentum (l_self_momentum L1)).
  rewrite Hmom. ring.
Qed.

(** The second call, with the momentum and the previous beta that the
    first one left, raises it to at most 0.5104. *)
Lemma second_call_beta : 0.5 <= l_beta_new L2 <= 0.5104.
Proof.
  destruct two_calls_gated as [HG2 HG].
  destruct first_call_beta as (Hb1 & Hprev & Hmom).
  pose proof (slowed_when_stable (fst out1) 0.5 irt 0 0 0.7 0.1 (l_beta_new L1))
    as Hslow.
  pose proof (capped_up_small HT (fst out1) 0.5 irt 0 0 0.7 0.1 0 0.013) as Hstep.
  pose proof (guard_off (fst out1) 0.5 irt 0 0 0.7 0.1) as Hguard.
  cbv zeta in Hslow, Hstep. fold L2 in Hslow, Hstep, Hguard.
  change (l_beta_old L2) with 0.5 in Hslow, Hstep, Hguard.
  change (_stability_threshold (fst out1)) with 0.05 in Hslow.
  change (_momentum_factor (fst out1)) with 0.6 in Hslow.
  assert (Hd : Qabs (0.5 - l_beta_new L1) < 0.05) by (apply Qabs_lt_iff; lra).
  specialize (Hslow Hprev Hd). rewrite HG2 in Hslow.
  assert (Hs : 0 <= l_slowed L2 <= 0.013).
  { rewrite Hslow, Hmom. split; lra. }
  assert (Hc0 : 0 / (1 + 0) * 0.8 == 0) by reflexivity.
  destruct Hstep as [Hlo Hhi]; [lra|exact Hs|lra|lra|].
  rewrite Hc0 in Hlo.
  assert (Hg : l_beta_new L2 = l_capped L2) by (apply Hguard; right; left; lra).
  rewrite Hg. split; lra.
Qed.

End two_calls.

(** C10.  [find_best_match] is not a function of its arguments alone:
    it reads and updates the module-level controller, whose momentum
    and previous beta persist.  Two calls with the same arguments on a
    fresh module (for the first of two players at ability and
    difficulty 0.5, with one centroid) return different betas in
    [IRT_Profile] and different match scores. *)
Theorem find_best_match_depends_on_history {M : MathLib} :
  tanh_spec M -> sqrt_spec M ->
  let first := find_best_match _dda_instance 0 two_players one_centroid
                 "novice" 0 0 0 in
  let second := find_best_match (fst first) 0 two_players one_centroid
                  "novice" 0 0 0 in
  exists (r1 r2 : best_match) (theta1 beta1 theta2 beta2 : Q),
    snd first = inr r1 /\ snd second = inr r2
    /\ IRT_Profile r1 = Some (theta1, beta1) /\ IRT_Profile r2 = Some (theta2, beta2)
    /\ ~ beta1 == beta2
    /\ ~ match_score r1 == match_score r2.
Proof.
  intros HT HS.
  pose proof (find_best_match_two_players _dda_instance) as E1.
  cbv zeta in E1.
  set (irt := irt_probability 0.5 0.5 "novice" 0 0 0 None) in *.
  set (out1 := adjust_difficulty _dda_instance 0.5 irt 0 0 0.7 0.1) in *.
  pose proof (find_best_match_two_players (fst out1)) as E2.
  cbv zeta in E2. fold irt in E2.
  set (out2 := adjust_difficulty (fst out1) 0.5 irt 0 0 0.7 0.1) in *.
  set (th := get irt "adjusted_theta" 0) in *.
  cbv zeta. rewrite E1. cbn [fst snd]. rewrite E2. cbn [fst snd].
  eexists. eexists. exists th, (beta_new (snd out1)), th, (beta_new (snd out2)).
  split; [reflexivity|]. split; [reflexivity|]. cbn [IRT_Profile match_score].
  split; [reflexivity|]. split; [reflexivity|].
  destruct (first_call_beta HT HS) as ([Hb1 Hb1'] & _).
  destruct (second_call_beta HT HS) as [Hb2' Hb2].
  fold irt in Hb1, Hb1', Hb2, Hb2'. fold out1 in Hb2, Hb2'.
  assert (B1 : 0.516 <= beta_new (snd out1) <= 0.524).
  { unfold out1. rewrite out_beta_new. split.
    - apply (round_lower _ 0.516 3 516); [decimal|lra].
    - apply (round_upper _ 0.524 3 524); [decimal|lra]. }
  assert (B2 : 0.5 <= beta_new (snd out2) <= 0.511).
  { unfold out2. rewrite out_beta_new. split.
    - apply (round_lower _ 0.5 3 500); [decimal|lra].
    - apply (round_upper _ 0.511 3 511); [decimal|lra]. }
  split; [intros E; lra|].
  set (b1 := beta_new (snd out1)) in *. set (b2 := beta_new (snd out2)) in *.
  destruct (two_players_snapshot HT HS) as [_ HTh]. fold irt th in HTh.
  unfold calculate_match_score. cbv zeta.
  assert (Wt : w_theta == 5 # 11) by (vm_compute; reflexivity).
  assert (Wb : w_beta == 6 # 11) by (vm_compute; reflexivity).
  assert (Ta : 0 <= Qabs (th - 0.5) <= 0.17).
  { split; [apply Qabs_nonneg|apply Qabs_le_iff; lra]. }
  assert (A1 : Qabs (b1 - 0.5) == b1 - 0.5) by (apply Qabs_pos; lra).
  assert (A2 : Qabs (b2 - 0.5) == b2 - 0.5) by (apply Qabs_pos; lra).
  set (g1 := w_theta * Qabs (th - 0.5) + w_beta * Qabs (b1 - 0.5)).
  set (g2 := w_theta * Qabs (th - 0.5) + w_beta * Qabs (b2 - 0.5)).
  assert (G1 : g1 == (5 # 11) * Qabs (th - 0.5) + (6 # 11) * (b1 - 0.5)).
  { unfold g1. rewrite Wt, Wb, A1. reflexivity. }
  assert (G2 : g2 == (5 # 11) * Qabs (th - 0.5) + (6 # 11) * (b2 - 0.5)).
  { unfold g2. rewrite Wt, Wb, A2. reflexivity. }
  assert (M1 : Qmin g1 1.0 == g1) by (apply Q.min_l; lra).
  assert (M2 : Qmin g2 1.0 == g2) by (apply Q.min_l; lra).
  pose proof (round3_error (1.0 - Qmin g1 1.0)) as R1.
  pose proof (round3_error (1.0 - Qmin g2 1.0)) as R2.
  pose proof (round3_error (round (1.0 - Qmin g1 1.0) 3)) as R1'.
  pose proof (round3_error (round (1.0 - Qmin g2 1.0) 3)) as R2'.
  apply Qabs_le_iff in R1, R2, R1', R2'.
  rewrite M1 in R1 at 2. rewrite M2 in R2 at 2.
  intros E. lra.
Qed.

(** The two calls with the rational stand-in. *)
Lemma find_best_match_depends_on_history_witness :
  let first := find_best_match (M := rational_math) _dda_instance 0 two_players
                 one_centroid "novice" 0 0 0 in
  let second := find_best_match (M := rational_math) (fst first) 0 two_players
                  one_centroid "novice" 0 0 0 in
  exists (r1 r2 : best_match) (theta1 beta1 theta2 beta2 : Q),
    snd first = inr r1 /\ snd second = inr r2
    /\ IRT_Profile r1 = Some (theta1, beta1) /\ IRT_Profile r2 = Some (theta2, beta2)
    /\ ~ beta1 == beta2
    /\ ~ match_score r1 == match_score r2.
Proof.
  exact (find_best_match_depends_on_history (M := rational_math)
           rational_math_tanh rational_math_sqrt).
Defined.

End SBMMFacts.

(** ** Input errors of the exposed operations *)

Module ServiceFacts.
Import Py KMeans_Cluster Multiplayer_Based matchmaking.

Lemma find_matches_too_few {M : MathLib} (self : MultiplayerMatchmaker)
    (players : list player) (match_size : Z) (allow_cross_cluster : bool)
    (min_match_score : Q) (g : rng) :
  (Z.of_nat (List.length players) < match_size)%Z ->
  find_matches self players match_size allow_cross_cluster min_match_score g
  = inr (self, [], g).
Proof.
  intros H. unfold find_matches.
  apply Z.ltb_lt in H. rewrite H. reflexivity.
Qed.

(** C9.  The [find_matches] request of the service raises [ValueError]
    on an empty player list; on a non-empty list with fewer players
    than [match_size] it returns an empty match list and no error (as
    does the matchmaker's [find_matches] itself); and
    [kmeans_from_irt] raises [ValueError] on an empty batch. *)
Theorem empty_and_short_inputs {M : MathLib} :
  (forall (match_size : Z) (allow_cross_cluster : bool) (min_match_score : Q)
          (k_clusters : Z) (g : rng),
     main_find_matches [] match_size allow_cross_cluster min_match_score k_clusters g
     = inl (ValueError "players list cannot be empty"))
  /\ (forall (players : list player) (match_size : Z) (allow_cross_cluster : bool)
             (min_match_score : Q) (k_clusters : Z) (g : rng),
        players <> [] ->
        (Z.of_nat (List.length players) < match_size)%Z ->
        main_find_matches players match_size allow_cross_cluster min_match_score
          k_clusters g
        = inr {| matches := []; total_matches := 0;
                 total_players := List.length players; matched_players := 0 |}
        /\ find_matches (create_matchmaker k_clusters) players match_size
             allow_cross_cluster min_match_score g
           = inr (create_matchmaker k_clusters, [], g))
  /\ (forall (k max_iter : Z) (tol : Q) (g : rng),
        kmeans_from_irt [] k max_iter tol g
        = inl (ValueError "IRT data is empty. Cannot perform K-Means clustering.")).
Proof.
  split; [|split].
  - reflexivity.
  - intros players match_size allow min_score k g Hne Hlt.
    pose proof (find_matches_too_few (create_matchmaker k) players match_size allow
                  min_score g Hlt) as E.
    split; [|exact E].
    unfold main_find_matches. destruct players as [|p ps]; [contradiction|].
    rewrite E. reflexivity.
  - reflexivity.
Qed.

End ServiceFacts.

(** ** Clustering *)

Module KMeansFacts.
Import Py PyFacts KMeans_Cluster examples.

(** *** Sums of floats *)

Lemma fold_left_Qplus (l : list Q) (a : Q) :
  fold_left Qplus l a == a + fold_left Qplus l 0.
Proof.
  revert a. induction l as [|x l IH]; intros a; simpl.
  - ring.
  - rewrite (IH (a + x)), (IH (0 + x)). ring.
Qed.

Lemma sum_nil : sum [] == 0.
Proof. reflexivity. Qed.

Lemma sum_cons (x : Q) (l : list Q) : sum (x :: l) == x + sum l.
Proof.
  unfold sum. simpl. rewrite fold_left_Qplus. ring.
Qed.

Lemma sum_app (l1 l2 : list Q) : sum (l1 ++ l2) == sum l1 + sum l2.
Proof.
  induction l1 as [|x l1 IH]; simpl.
  - rewrite sum_nil. ring.
  - rewrite !sum_cons, IH. ring.
Qed.

Lemma sum_map_ext {A : Type} (f g : A -> Q) (l : list A) :
  (forall x, In x l -> f x == g x) -> sum (map f l) == sum (map g l).
Proof.
  induction l as [|x l IH]; intros H; simpl.
  - reflexivity.
  - rewrite !sum_cons, (H x (or_introl eq_refl)), IH; [reflexivity|].
    intros y Hy. apply H. now right.
Qed.

Lemma sum_map_le {A : Type} (f g : A -> Q) (l : list A) :
  (forall x, In x l -> f x <= g x) -> sum (map f l) <= sum (map g l).
Proof.
  induction l as [|x l IH]; intros H; simpl.
  - apply Qle_refl.
  - rewrite !sum_cons.
    pose proof (H x (or_introl eq_refl)).
    assert (sum (map f l) <= sum (map g l)) by (apply IH; intros y Hy; apply H; now right).
    lra.
Qed.

Lemma sum_map_nonneg {A : Type} (f : A -> Q) (l : list A) :
  (forall x, In x l -> 0 <= f x) -> 0 <= sum (map f l).
Proof.
  induction l as [|x l IH]; intros H; simpl.
  - apply Qle_refl.
  - rewrite sum_cons.
    pose proof (H x (or_introl eq_refl)).
    assert (0 <= sum (map f l)) by (apply IH; intros y Hy; apply H; now right).
    lra.
Qed.

Lemma sum_map_plus {A : Type} (f g : A -> Q) (l : list A) :
  sum (map (fun x => f x + g x) l) == sum (map f l) + sum (map g l).
Proof.
  induction l as [|x l IH]; simpl.
  - rewrite !sum_nil. ring.
  - rewrite !sum_cons, IH. ring.
Qed.

Lemma sum_map_zero {A : Type} (l : list A) : sum (map (fun _ => 0) l) == 0.
Proof.
  induction l as [|x l IH]; simpl.
  - reflexivity.
  - rewrite sum_cons, IH. ring.
Qed.

(** Two nested sums can be exchanged. *)
Lemma sum_exchange {A B : Type} (F : A -> B -> Q) (la : list A) (lb : list B) :
  sum (map (fun a => sum (map (fun b => F a b) lb)) la)
  == sum (map (fun b => sum (map (fun a => F a b) la)) lb).
Proof.
  induction la as [|a la IH]; simpl.
  - rewrite sum_nil. symmetry. apply sum_map_zero.
  - rewrite sum_cons, IH.
    rewrite <- sum_map_plus. apply sum_map_ext. intros b _.
    rewrite sum_cons. reflexivity.
Qed.

(** *** Squared distances *)

Lemma square_nonneg (z : Q) : 0 <= z * z.
Proof.
  destruct (Qlt_le_dec z 0) as [H|H].
  - setoid_replace (z * z) with ((- z) * (- z)) by ring.
    apply Qmult_le_0_compat; lra.
  - apply Qmult_le_0_compat; assumption.
Qed.

Lemma fold_left_sq (l : list (Q * Q)) (a : Q) :
  fold_left (fun total xy => let d := fst xy - snd xy in total + d * d) l a
  == a + fold_left (fun total xy => let d := fst xy - snd xy in total + d * d) l 0.
Proof.
  revert a. induction l as [|x l IH]; intros a; simpl.
  - ring.
  - rewrite (IH (a + _)), (IH (0 + _)). ring.
Qed.

Lemma squared_distance_nil_l (b : list Q) : squared_distance [] b == 0.
Proof. reflexivity. Qed.

Lemma squared_distance_nil_r (a : list Q) : squared_distance a [] == 0.
Proof. destruct a; reflexivity. Qed.

Lemma squared_distance_cons (x y : Q) (a b : list Q) :
  squared_distance (x :: a) (y :: b) == (x - y) * (x - y) + squared_distance a b.
Proof.
  unfold squared_distance. simpl.
  rewrite fold_left_sq, (fold_left_sq (combine a b) 0.0). ring.
Qed.

Lemma squared_distance_nonneg (a b : list Q) : 0 <= squared_distance a b.
Proof.
  revert b. induction a as [|x a IH]; intros b.
  - rewrite squared_distance_nil_l. apply Qle_refl.
  - destruct b as [|y b].
    + rewrite squared_distance_nil_r. apply Qle_refl.
    + rewrite squared_distance_cons. specialize (IH b).
      pose proof (square_nonneg (x - y)). lra.
Qed.

(** The distance as a sum over the coordinates. *)
Lemma squared_distance_coordinates (a b : list Q) (d : nat) :
  List.length a = d -> List.length b = d ->
  squared_distance a b
  == sum (map (fun i => (nth i a 0 - nth i b 0) * (nth i a 0 - nth i b 0)) (seq 0 d)).
Proof.
  revert b d. induction a as [|x a IH]; intros b d Ha Hb.
  - simpl in Ha. subst d. reflexivity.
  - destruct b as [|y b]; [simpl in *; congruence|].
    destruct d as [|d]; [discriminate|].
    simpl in Ha, Hb. injection Ha as Ha. injection Hb as Hb.
    rewrite squared_distance_cons, (IH b d Ha Hb).
    cbn [seq map]. rewrite sum_cons, <- seq_shift, map_map. reflexivity.
Qed.

(** *** The mean minimises the sum of squared distances *)

Lemma sum_sq_expand (xs : list Q) (c : Q) :
  sum (map (fun x => (x - c) * (x - c)) xs)
  == sum (map (fun x => x * x) xs) - 2 * c * sum xs
     + inject_Z (Z.of_nat (List.length xs)) * (c * c).
Proof.
  induction xs as [|x xs IH].
  - simpl. rewrite !sum_nil. change (inject_Z (Z.of_nat 0)) with 0. ring.
  - cbn [map List.length]. rewrite !sum_cons, IH, Nat2Z.inj_succ.
    unfold Z.succ. rewrite inject_Z_plus. change (inject_Z 1) with 1. ring.
Qed.

Lemma length_pos_inject {A : Type} (l : list A) :
  l <> [] -> 0 < inject_Z (Z.of_nat (List.length l)).
Proof.
  intros H. change 0 with (inject_Z 0). rewrite <- Zlt_Qlt.
  destruct l; [contradiction|simpl; lia].
Qed.

Lemma mean_minimizes_scalar (xs : list Q) (c : Q) :
  xs <> [] ->
  let mu := sum xs * (1.0 / inject_Z (Z.of_nat (List.length xs))) in
  sum (map (fun x => (x - mu) * (x - mu)) xs)
  <= sum (map (fun x => (x - c) * (x - c)) xs).
Proof.
  intros Hne mu. pose proof (length_pos_inject xs Hne) as Hn.
  rewrite !sum_sq_expand.
  set (n := inject_Z _) in *. set (A := sum (map _ xs)).
  assert (HS : sum xs == n * mu).
  { unfold mu. field. lra. }
  rewrite HS.
  pose proof (square_nonneg (c - mu)) as Hsq.
  assert (Hp : 0 <= n * ((c - mu) * (c - mu))) by (apply Qmult_le_0_compat; lra).
  setoid_replace (A - 2 * c * (n * mu) + n * (c * c))
    with (A - 2 * mu * (n * mu) + n * (mu * mu) + n * ((c - mu) * (c - mu))) by ring.
  lra.
Qed.

Lemma nth_map_seq (f : nat -> Q) (d i : nat) :
  (i < d)%nat -> nth i (map f (seq 0 d)) 0 = f i.
Proof.
  intros H.
  rewrite (nth_indep _ 0 (f 0%nat)) by (rewrite length_map, length_seq; exact H).
  rewrite map_nth, seq_nth by exact H. reflexivity.
Qed.

Lemma centroid_sum_nth (ps : list (list Q)) (acc : list Q) (d i : nat) :
  (i < d)%nat ->
  nth i (fold_left (fun centroid point =>
                      map (fun i => nth i centroid 0 + nth i point 0) (seq 0 d))
                   ps acc) 0
  == nth i acc 0 + sum (map (fun p => nth i p 0) ps).
Proof.
  intros Hi. revert acc. induction ps as [|p ps IH]; intros acc.
  - simpl. rewrite sum_nil. ring.
  - cbn [fold_left map]. rewrite IH, sum_cons, nth_map_seq by exact Hi. ring.
Qed.

Lemma nth_repeat_zero (d i : nat) : nth i (repeat 0.0 d) 0 == 0.
Proof.
  revert i. induction d as [|d IH]; intros [|i]; simpl; try reflexivity. apply IH.
Qed.

Lemma compute_centroid_length (first : list Q) (rest : list (list Q)) :
  List.length (compute_centroid (first :: rest)) = List.length first.
Proof.
  unfold compute_centroid. rewrite length_map, length_seq. reflexivity.
Qed.

Lemma compute_centroid_nth (ps : list (list Q)) (d i : nat) :
  ps <> [] -> List.length (hd [] ps) = d -> (i < d)%nat ->
  nth i (compute_centroid ps) 0
  == sum (map (fun p => nth i p 0) ps)
     * (1.0 / inject_Z (Z.of_nat (List.length ps))).
Proof.
  intros Hne Hd Hi. destruct ps as [|first rest]; [contradiction|].
  cbn [hd] in Hd. unfold compute_centroid. rewrite Hd.
  rewrite nth_map_seq by exact Hi.
  rewrite centroid_sum_nth by exact Hi.
  rewrite nth_repeat_zero. ring.
Qed.

Lemma mean_minimizes (ps : list (list Q)) (c : list Q) (d : nat) :
  ps <> [] -> (forall p, In p ps -> List.length p = d) -> List.length c = d ->
  sum (map (fun p => squared_distance p (compute_centroid ps)) ps)
  <= sum (map (fun p => squared_distance p c) ps).
Proof.
  intros Hne Hps Hc.
  assert (Hm : List.length (compute_centroid ps) = d).
  { destruct ps as [|first rest]; [contradiction|].
    rewrite compute_centroid_length. apply Hps. now left. }
  rewrite (sum_map_ext _ (fun p => sum (map (fun i =>
             (nth i p 0 - nth i (compute_centroid ps) 0)
             * (nth i p 0 - nth i (compute_centroid ps) 0)) (seq 0 d))) ps)
    by (intros p Hp; apply squared_distance_coordinates; [apply Hps; exact Hp|exact Hm]).
  rewrite (sum_map_ext (fun p => squared_distance p c)
             (fun p => sum (map (fun i => (nth i p 0 - nth i c 0)
                                          * (nth i p 0 - nth i c 0)) (seq 0 d))) ps)
    by (intros p Hp; apply squared_distance_coordinates; [apply Hps; exact Hp|exact Hc]).
  rewrite (sum_exchange (fun p i => (nth i p 0 - nth i (compute_centroid ps) 0)
                                    * (nth i p 0 - nth i (compute_centroid ps) 0))).
  rewrite (sum_exchange (fun p i => (nth i p 0 - nth i c 0) * (nth i p 0 - nth i c 0))).
  apply sum_map_le. intros i Hi. apply in_seq in Hi.
  assert (Hd : List.length (hd [] ps) = d).
  { destruct ps as [|first rest]; [contradiction|]. apply Hps. now left. }
  pose proof (compute_centroid_nth ps d i Hne Hd ltac:(lia)) as Hmu.
  pose proof (mean_minimizes_scalar (map (fun p => nth i p 0) ps) (nth i c 0)) as Hs.
  assert (Hne' : map (fun p => nth i p 0) ps <> [])
    by (destruct ps; [contradiction|discriminate]).
  specialize (Hs Hne'). cbv zeta in Hs. rewrite length_map in Hs.
  rewrite (map_map (fun p => nth i p 0)
             (fun x => (x - nth i c 0) * (x - nth i c 0))) in Hs.
  rewrite (map_map (fun p => nth i p 0)) in Hs.
  eapply Qle_trans; [|apply Hs].
  apply Qle_lteq. right. apply sum_map_ext. intros p _. rewrite Hmu. reflexivity.
Qed.

(** *** The nearest centroid *)

Section nearest.
Variables (centroids : list (list Q)) (pt : list Q).

Let step : option Q * nat -> nat * list Q -> option Q * nat :=
  fun '(min_dist_sq, nearest) '(idx, centroid) =>
    let dist_sq := squared_distance pt centroid in
    if lt_inf dist_sq min_dist_sq then (Some dist_sq, idx)
    else (min_dist_sq, nearest).

(** What the scan knows after the first [s] centroids. *)
Let scanned (st : option Q * nat) (s : nat) : Prop :=
  match fst st with
  | None => s = 0%nat /\ snd st = 0%nat
  | Some d =>
      (snd st < s)%nat
      /\ d = squared_distance pt (nth (snd st) centroids [])
      /\ forall j, (j < s)%nat -> d <= squared_distance pt (nth j centroids [])
  end.

Lemma scan_invariant (l : list (list Q)) (s : nat) (st : option Q * nat) :
  (forall i, (i < List.length l)%nat -> nth (s + i) centroids [] = nth i l []) ->
  scanned st s ->
  scanned (fold_left step (combine (seq s (List.length l)) l) st) (s + List.length l).
Proof.
  revert s st. induction l as [|c l IH]; intros s st Hl Hst.
  - simpl. rewrite Nat.add_0_r. exact Hst.
  - cbn [List.length seq combine fold_left].
    replace (s + S (List.length l))%nat with (S s + List.length l)%nat by lia.
    apply IH.
    + intros i Hi. specialize (Hl (S i) ltac:(simpl; lia)).
      replace (S s + i)%nat with (s + S i)%nat by lia. exact Hl.
    + assert (Hc : nth s centroids [] = c).
      { specialize (Hl 0%nat ltac:(simpl; lia)). rewrite Nat.add_0_r in Hl. exact Hl. }
      destruct st as [m n]. unfold scanned in Hst |- *. cbn [fst snd] in Hst.
      unfold step. cbv zeta. destruct m as [d|]; cbn [lt_inf].
      * destruct Hst as (Hn & Hd & Hmin).
        case_ltb (squared_distance pt c) d; cbn [fst snd].
        -- split; [lia|]. split; [rewrite Hc; reflexivity|].
           intros j Hj. destruct (Nat.eq_dec j s) as [->|Hne].
           ++ rewrite Hc. apply Qle_refl.
           ++ specialize (Hmin j ltac:(lia)). lra.
        -- split; [lia|]. split; [exact Hd|].
           intros j Hj. destruct (Nat.eq_dec j s) as [->|Hne].
           ++ rewrite Hc. exact Hlt.
           ++ apply Hmin. lia.
      * destruct Hst as [-> ->]. cbn [fst snd].
        split; [lia|]. split; [rewrite Hc; reflexivity|].
        intros j Hj. assert (j = 0%nat) by lia. subst j. rewrite Hc. apply Qle_refl.
Qed.

Lemma nearest_centroid_spec :
  centroids <> [] ->
  (nearest_centroid centroids pt < List.length centroids)%nat
  /\ forall j, (j < List.length centroids)%nat ->
       squared_distance pt (nth (nearest_centroid centroids pt) centroids [])
       <= squared_distance pt (nth j centroids []).
Proof.
  intros Hne.
  pose proof (scan_invariant centroids 0 (None, 0%nat)) as H.
  cbn [Nat.add] in H. specialize (H (fun i _ => eq_refl)).
  specialize (H (conj eq_refl eq_refl)).
  unfold nearest_centroid. fold step.
  set (r := fold_left step _ _) in *.
  unfold scanned in H. destruct (fst r) as [d|].
  - destruct H as (Hn & Hd & Hmin). split; [exact Hn|].
    intros j Hj. rewrite <- Hd. apply Hmin. exact Hj.
  - destruct H as [H _]. destruct centroids; [contradiction|discriminate].
Qed.

End nearest.

(** *** The assignment pass *)

Lemma append_at_ok (clusters : list (list (list Q))) (j : nat) (pt : list Q) :
  (j < List.length clusters)%nat ->
  exists clusters', append_at clusters j pt = inr clusters'.
Proof.
  revert j. induction clusters as [|c rest IH]; intros j Hj; [simpl in Hj; lia|].
  destruct j as [|j]; simpl.
  - eexists. reflexivity.
  - destruct (IH j ltac:(simpl in Hj; lia)) as [r E]. rewrite E. simpl.
    eexists. reflexivity.
Qed.

Lemma append_at_inr (clusters clusters' : list (list (list Q))) (j : nat)
    (pt : list Q) (cs : list (list Q)) (s : nat) :
  append_at clusters j pt = inr clusters' ->
  (j < List.length clusters)%nat
  /\ List.length clusters' = List.length clusters
  /\ cluster_cost cs s clusters'
     == cluster_cost cs s clusters + squared_distance pt (nth (s + j) cs [])
  /\ forall i p, In p (nth i clusters' []) ->
       In p (nth i clusters []) \/ (p = pt /\ i = j).
Proof.
  revert clusters' j s. induction clusters as [|c rest IH]; intros cl' j s E.
  - simpl in E. discriminate.
  - destruct j as [|j]; simpl in E.
    + injection E as <-. split; [simpl; lia|]. split; [reflexivity|]. split.
      * cbn [cluster_cost]. rewrite map_app, sum_app. cbn [map].
        rewrite sum_cons, sum_nil, Nat.add_0_r. ring.
      * intros [|i] p Hp; cbn [nth] in *; [|now left].
        apply in_app_or in Hp. destruct Hp as [Hp|[<-|[]]]; [now left|now right].
    + destruct (append_at rest j pt) as [e|r] eqn:Er; [discriminate|].
      simpl in E. injection E as <-.
      destruct (IH r j (S s) Er) as (Hj & Hlen & Hcost & Hmem).
      split; [simpl; lia|]. split; [simpl; lia|]. split.
      * cbn [cluster_cost]. rewrite Hcost.
        replace (S s + j)%nat with (s + S j)%nat by lia. ring.
      * intros [|i] p Hp; cbn [nth] in *; [now left|].
        destruct (Hmem i p Hp) as [H|[H1 H2]]; [now left|right; split; congruence].
Qed.

Lemma cluster_cost_empty (cs : list (list Q)) (s n : nat) :
  cluster_cost cs s (repeat [] n) == 0.
Proof.
  revert s. induction n as [|n IH]; intros s; simpl.
  - reflexivity.
  - rewrite IH, sum_nil. ring.
Qed.

Lemma nth_repeat_nil {A : Type} (n i : nat) : nth i (repeat (@nil A) n) [] = [].
Proof.
  revert i. induction n as [|n IH]; intros [|i]; simpl; try reflexivity. apply IH.
Qed.

Lemma within_cluster_distance_map (data cs : list (list Q)) (f : list Q -> nat) :
  within_cluster_distance data cs (map f data)
  == sum (map (fun p => squared_distance p (nth (f p) cs [])) data).
Proof.
  unfold within_cluster_distance. induction data as [|p data IH]; simpl.
  - reflexivity.
  - rewrite !sum_cons, IH. reflexivity.
Qed.

(** When the pass succeeds, every point went to its nearest centroid,
    and the clusters hold the points by assignment. *)
Lemma assign_points_inr (centroids data : list (list Q)) (assignments a : list nat)
    (clusters cl : list (list (list Q))) (cs : list (list Q)) :
  assign_points centroids data assignments clusters = inr (a, cl) ->
  a = assignments ++ map (nearest_centroid centroids) data
  /\ List.length cl = List.length clusters
  /\ (forall p, In p data -> (nearest_centroid centroids p < List.length clusters)%nat)
  /\ cluster_cost cs 0 cl
     == cluster_cost cs 0 clusters
        + within_cluster_distance data cs (map (nearest_centroid centroids) data)
  /\ forall i p, In p (nth i cl []) ->
       In p (nth i clusters []) \/ (In p data /\ nearest_centroid centroids p = i).
Proof.
  revert assignments clusters. induction data as [|pt data IH];
    intros assignments clusters E.
  - simpl in E. injection E as <- <-. rewrite app_nil_r.
    split; [reflexivity|]. split; [reflexivity|]. split; [intros p []|]. split.
    + unfold within_cluster_distance. simpl. rewrite sum_nil. ring.
    + intros i p Hp. now left.
  - cbn [assign_points] in E.
    destruct (append_at clusters (nearest_centroid centroids pt) pt) as [e|cl1] eqn:Ea;
      [discriminate|].
    cbn [bind] in E.
    destruct (append_at_inr _ _ _ _ cs 0 Ea) as (Hj & Hlen & Hcost & Hmem).
    destruct (IH _ _ E) as (Ha & Hlen' & Hn & Hcost' & Hmem').
    split; [rewrite Ha, <- app_assoc; reflexivity|].
    split; [congruence|]. split.
    + intros p [<-|Hp]; [exact Hj|]. rewrite <- Hlen. apply Hn. exact Hp.
    + split.
      * rewrite Hcost', Hcost. cbn [map Nat.add].
        unfold within_cluster_distance. cbn [combine map fst snd].
        rewrite sum_cons. ring.
      * intros i p Hp. destruct (Hmem' i p Hp) as [H|[H1 H2]].
        -- destruct (Hmem i p H) as [H'|[-> ->]]; [now left|].
           right. split; [now left|reflexivity].
        -- right. split; [now right|exact H2].
Qed.

Lemma assign_points_ok (centroids data : list (list Q)) (assignments : list nat)
    (clusters : list (list (list Q))) :
  (forall p, In p data -> (nearest_centroid centroids p < List.length clusters)%nat) ->
  exists cl, assign_points centroids data assignments clusters
             = inr (assignments ++ map (nearest_centroid centroids) data, cl).
Proof.
  revert assignments clusters. induction data as [|pt data IH];
    intros assignments clusters H.
  - simpl. rewrite app_nil_r. eexists. reflexivity.
  - cbn [assign_points].
    destruct (append_at_ok clusters (nearest_centroid centroids pt) pt) as [cl1 E].
    { apply H. now left. }
    rewrite E. cbn [bind].
    destruct (append_at_inr _ _ _ _ [] 0 E) as (_ & Hlen & _).
    destruct (IH (assignments ++ [nearest_centroid centroids pt]) cl1) as [cl E'].
    { intros p Hp. rewrite Hlen. apply H. now right. }
    rewrite E'. cbn [map]. rewrite <- app_assoc. eexists. reflexivity.
Qed.

(** *** The rebuilding pass *)

Lemma choice_In {A : Type} (g : rng) (l : list A) (default : A) :
  l <> [] -> In (fst (choice g l default)) l.
Proof.
  intros H. unfold choice. cbn [fst]. apply nth_In.
  apply Nat.mod_upper_bound. destruct l; [contradiction|discriminate].
Qed.

Lemma rebuild_centroids_length (clusters : list (list (list Q)))
    (data : list (list Q)) (g : rng) :
  List.length (fst (rebuild_centroids clusters data g)) = List.length clusters.
Proof.
  revert g. induction clusters as [|c rest IH]; intros g; [reflexivity|].
  cbn [rebuild_centroids].
  destruct (match c with [] => choice g data [] | _ :: _ => (compute_centroid c, g) end)
    as [nc g1].
  specialize (IH g1). destruct (rebuild_centroids rest data g1) as [ncs g2].
  simpl in *. congruence.
Qed.

(** Every rebuilt centroid has the dimension of the data. *)
Lemma rebuild_centroids_dim (clusters : list (list (list Q)))
    (data : list (list Q)) (g : rng) (d : nat) :
  data <> [] -> (forall p, In p data -> List.length p = d) ->
  (forall i p, In p (nth i clusters []) -> List.length p = d) ->
  forall c, In c (fst (rebuild_centroids clusters data g)) -> List.length c = d.
Proof.
  intros Hne Hdata. revert g. induction clusters as [|c rest IH]; intros g Hcl nc Hin.
  - destruct Hin.
  - cbn [rebuild_centroids] in Hin.
    destruct c as [|p c'].
    + pose proof (choice_In g data [] Hne) as Hch.
      destruct (choice g data []) as [nc1 g1]. cbn [fst] in Hch.
      specialize (IH g1 (fun i p Hp => Hcl (S i) p Hp)).
      destruct (rebuild_centroids rest data g1) as [ncs g2]. cbn [fst] in *.
      destruct Hin as [<-|Hin]; [apply Hdata; exact Hch|apply IH; exact Hin].
    + specialize (IH g (fun i p Hp => Hcl (S i) p Hp)).
      destruct (rebuild_centroids rest data g) as [ncs g2]. cbn [fst] in *.
      destruct Hin as [<-|Hin]; [|apply IH; exact Hin].
      rewrite compute_centroid_length. apply (Hcl 0%nat). now left.
Qed.

(** Rebuilding does not increase the cost of the clusters. *)
Lemma rebuild_centroids_cost (cs data : list (list Q)) (d : nat)
    (clusters : list (list (list Q))) (g : rng) (pre : list (list Q)) :
  (forall i p, In p (nth i clusters []) ->
     List.length p = d /\ List.length (nth (List.length pre + i) cs []) = d) ->
  cluster_cost (pre ++ fst (rebuild_centroids clusters data g)) (List.length pre) clusters
  <= cluster_cost cs (List.length pre) clusters.
Proof.
  revert g pre. induction clusters as [|c rest IH]; intros g pre H.
  - simpl. apply Qle_refl.
  - cbn [rebuild_centroids cluster_cost].
    assert (Hrest : forall nc g1,
              cluster_cost (pre ++ nc :: fst (rebuild_centroids rest data g1))
                (S (List.length pre)) rest
              <= cluster_cost cs (S (List.length pre)) rest).
    { intros nc g1. specialize (IH g1 (pre ++ [nc])).
      rewrite <- app_assoc, length_app in IH. cbn [List.length app] in IH.
      rewrite Nat.add_1_r in IH. apply IH.
      intros i p Hp. specialize (H (S i) p Hp).
      replace (S (List.length pre) + i)%nat with (List.length pre + S i)%nat by lia.
      exact H. }
    destruct c as [|p c'].
    + destruct (choice g data []) as [nc g1]. specialize (Hrest nc g1).
      destruct (rebuild_centroids rest data g1) as [ncs g2]. cbn [fst map] in *.
      rewrite !sum_nil. lra.
    + specialize (Hrest (compute_centroid (p :: c')) g).
      destruct (rebuild_centroids rest data g) as [ncs g2]. cbn [fst] in *.
      rewrite nth_middle.
      assert (Hm : sum (map (fun q => squared_distance q (compute_centroid (p :: c')))
                            (p :: c'))
                   <= sum (map (fun q => squared_distance q
                                           (nth (List.length pre) cs [])) (p :: c'))).
      { apply (mean_minimizes (p :: c') _ d); [discriminate| |].
        - intros q Hq. apply (H 0%nat q Hq).
        - destruct (H 0%nat p (or_introl eq_refl)) as [_ Hc].
          rewrite Nat.add_0_r in Hc. exact Hc. }
      lra.
Qed.

(** *** One iteration does not increase the distance *)

Lemma iteration_decreases (cs data : list (list Q)) (d k : nat) (a : list nat)
    (cl : list (list (list Q))) (g : rng) :
  cs <> [] -> (forall c, In c cs -> List.length c = d) ->
  (forall p, In p data -> List.length p = d) ->
  assign_points cs data [] (repeat [] k) = inr (a, cl) ->
  let cs' := fst (rebuild_centroids cl data g) in
  within_cluster_distance data cs' (map (nearest_centroid cs') data)
  <= within_cluster_distance data cs a.
Proof.
  intros Hne Hcs Hdata E cs'.
  destruct (assign_points_inr cs data [] a (repeat [] k) cl cs E)
    as (Ha & Hlen & Hn & Hcost & Hmem).
  destruct (assign_points_inr cs data [] a (repeat [] k) cl cs' E)
    as (_ & _ & _ & Hcost' & _).
  cbn [app] in Ha. rewrite repeat_length in Hlen, Hn.
  rewrite cluster_cost_empty in Hcost, Hcost'.
  assert (Hlen' : List.length cs' = k)
    by (unfold cs'; rewrite rebuild_centroids_length; exact Hlen).
  assert (Hmem' : forall i p, In p (nth i cl []) ->
                    In p data /\ nearest_centroid cs p = i).
  { intros i p Hp. destruct (Hmem i p Hp) as [H|H]; [|exact H].
    rewrite nth_repeat_nil in H. destruct H. }
  apply Qle_trans with (within_cluster_distance data cs' a).
  - rewrite Ha, !within_cluster_distance_map. apply sum_map_le. intros p Hp.
    destruct data as [|p0 data']; [destruct Hp|].
    assert (Hne' : cs' <> []).
    { intros E0. rewrite E0 in Hlen'. simpl in Hlen'.
      specialize (Hn p0 (or_introl eq_refl)). lia. }
    apply (nearest_centroid_spec cs' p Hne'). rewrite Hlen'. apply Hn. exact Hp.
  - rewrite Ha at 1. rewrite Ha.
    setoid_replace (within_cluster_distance data cs' (map (nearest_centroid cs) data))
      with (cluster_cost cs' 0 cl) by (rewrite Hcost'; ring).
    setoid_replace (within_cluster_distance data cs (map (nearest_centroid cs) data))
      with (cluster_cost cs 0 cl) by (rewrite Hcost; ring).
    apply (rebuild_centroids_cost cs data d cl g []).
    intros i p Hp. cbn [List.length Nat.add].
    destruct (Hmem' i p Hp) as [Hin Hi]. split; [apply Hdata; exact Hin|].
    apply Hcs. apply nth_In. rewrite <- Hi. apply nearest_centroid_spec. exact Hne.
Qed.

(** *** Normalisation and seeding *)

Lemma feature_rows_dim (irt_data : list dict) :
  forall p, In p (feature_rows irt_data) -> List.length p = 4%nat.
Proof.
  intros p Hp. unfold feature_rows in Hp. apply in_map_iff in Hp.
  destruct Hp as (item & <- & _). reflexivity.
Qed.

Lemma normalize_data_length (data : list (list Q)) :
  List.length (normalize_data data) = List.length data.
Proof.
  destruct data as [|first rest]; [reflexivity|].
  unfold normalize_data. destruct (fold_left _ rest (first, first)) as [mins maxs].
  apply length_map.
Qed.

Lemma normalize_data_dim (first : list Q) (rest : list (list Q)) :
  forall p, In p (normalize_data (first :: rest)) ->
            List.length p = List.length first.
Proof.
  intros p Hp. unfold normalize_data in Hp.
  destruct (fold_left _ rest (first, first)) as [mins maxs].
  apply in_map_iff in Hp. destruct Hp as (pt & <- & _).
  rewrite length_map, length_seq. reflexivity.
Qed.

Lemma pick_cumulative_In (data : list (list Q)) (weights : list Q) (r cumulative : Q)
    (last : list Q) :
  In (pick_cumulative data weights r cumulative last) data
  \/ pick_cumulative data weights r cumulative last = last.
Proof.
  revert weights cumulative. induction data as [|pt data IH]; intros weights cumulative.
  - now right.
  - destruct weights as [|w weights]; [now right|]. cbn [pick_cumulative].
    destruct (leb r (cumulative + w)); [left; now left|].
    destruct (IH weights (cumulative + w)) as [H|H]; [left; now right|now right].
Qed.

Lemma last_In {A : Type} (l : list A) (default : A) : l <> [] -> In (last l default) l.
Proof.
  induction l as [|x l IH]; intros H; [contradiction|].
  destruct l as [|y l]; [now left|]. right. apply IH. discriminate.
Qed.

Lemma seed_loop_spec (todo : nat) (data centroids : list (list Q)) (g : rng) :
  data <> [] -> (forall c, In c centroids -> In c data) ->
  let r := fst (seed_loop todo data centroids g) in
  (forall c, In c r -> In c data)
  /\ (List.length centroids <= List.length r <= List.length centroids + todo)%nat.
Proof.
  intros Hne. revert centroids g. induction todo as [|todo IH]; intros centroids g Hin.
  - simpl. split; [exact Hin|lia].
  - cbn [seed_loop]. cbv zeta.
    destruct (eqb _ 0 || ltb _ _).
    + destruct (filter _ data) as [|x remaining] eqn:Ef.
      * cbn [fst]. split; [exact Hin|lia].
      * pose proof (choice_In g (x :: remaining) [] ltac:(discriminate)) as Hch.
        destruct (choice g (x :: remaining) []) as [c g1]. cbn [fst] in *.
        rewrite <- Ef in Hch. apply filter_In in Hch. split.
        -- intros c' Hc'. apply in_app_or in Hc'.
           destruct Hc' as [Hc'|[<-|[]]]; [apply Hin; exact Hc'|apply Hch].
        -- rewrite length_app. simpl. lia.
    + destruct (random g) as [u g1].
      set (c := pick_cumulative _ _ _ _ _).
      assert (Hc : In c data).
      { destruct (pick_cumulative_In data
                    (map (fun pt => match min_sq_to centroids pt with
                                    | Some d => d | None => 0 end) data)
                    (u * sum (map (fun pt => match min_sq_to centroids pt with
                                             | Some d => d | None => 0 end) data))
                    0.0 (last data [])) as [H|H]; [exact H|].
        unfold c. rewrite H. apply last_In. exact Hne. }
      specialize (IH (centroids ++ [c]) g1).
      destruct IH as [H1 H2].
      { intros c' Hc'. apply in_app_or in Hc'.
        destruct Hc' as [Hc'|[<-|[]]]; [apply Hin; exact Hc'|exact Hc]. }
      split; [exact H1|]. rewrite length_app in H2. simpl in H2. lia.
Qed.

Lemma init_kmeans_plus_plus_spec (data : list (list Q)) (k : Z) (g : rng) :
  data <> [] ->
  let cs := fst (init_kmeans_plus_plus data k g) in
  cs <> [] /\ (forall c, In c cs -> In c data)
  /\ ((1 <= k)%Z -> (List.length cs <= Z.to_nat k)%nat).
Proof.
  intros Hne. unfold init_kmeans_plus_plus.
  destruct data as [|p data']; [contradiction|].
  set (data := p :: data') in *.
  destruct (Z.leb_spec (Z.of_nat (List.length data)) k) as [Hk|Hk].
  - cbn [fst]. split; [exact Hne|]. split; [auto|]. intros _. lia.
  - pose proof (choice_In g data [] Hne) as Hch.
    destruct (choice g data []) as [c g1]. cbn [fst] in Hch.
    destruct (seed_loop_spec (Z.to_nat (k - 1)) data [c] g1 Hne) as [H1 H2].
    { intros c' [<-|[]]. exact Hch. }
    simpl in H2. split.
    + intros E. rewrite E in H2. simpl in H2. lia.
    + split; [exact H1|]. intros Hk1. lia.
Qed.

(** *** The loop *)

Section loop.
Variables (data : list (list Q)) (d : nat) (k : Z) (tol : Q).
Hypothesis data_nonempty : data <> [].
Hypothesis data_dim : forall p, In p data -> List.length p = d.

(** A later iteration is at most as far as an earlier one. *)
Let later (x y : list (list Q) * list nat) : Prop :=
  within_cluster_distance data (fst x) (snd x)
  <= within_cluster_distance data (fst y) (snd y).

(** The centroids in hand are usable, and assigning to them will not
    be further than the latest iteration of the history. *)
Let ready (cs : list (list Q)) (history : list (list (list Q) * list nat)) : Prop :=
  cs <> [] /\ (forall c, In c cs -> List.length c = d)
  /\ Sorted later history
  /\ HdRel later (cs, map (nearest_centroid cs) data) history.

Lemma kmeans_loop_history (todo : nat) (iteration : Z) (cs : list (list Q))
    (history : list (list (list Q) * list nat)) (assignments : list nat) (g : rng)
    (st : loop_state) :
  ready cs history ->
  kmeans_loop todo iteration k tol data cs history assignments g = inr st ->
  Sorted later (ls_history st).
Proof.
  revert iteration cs history assignments g.
  induction todo as [|todo IH]; intros iteration cs history assignments g Hr E.
  - simpl in E. injection E as <-. apply Hr.
  - destruct Hr as (Hne & Hdim & Hsorted & Hhd).
    cbn [kmeans_loop] in E.
    destruct (assign_points cs data [] (repeat [] (Z.to_nat k))) as [e|[a cl]] eqn:Ea;
      [discriminate|].
    cbn [bind] in E.
    destruct (assign_points_inr cs data [] a _ cl [] Ea) as (Ha & _).
    cbn [app] in Ha.
    assert (Hs' : Sorted later ((cs, a) :: history)).
    { constructor; [exact Hsorted|]. rewrite Ha. exact Hhd. }
    pose proof (iteration_decreases cs data d (Z.to_nat k) a cl g Hne Hdim data_dim Ea)
      as Hstep.
    cbv zeta in Hstep.
    pose proof (rebuild_centroids_length cl data g) as Hlen.
    pose proof (rebuild_centroids_dim cl data g d data_nonempty data_dim) as Hd'.
    destruct (rebuild_centroids cl data g) as [cs' g1]. cbn [fst] in *.
    destruct (ltb _ (tol * tol)).
    { injection E as <-. exact Hs'. }
    destruct ((5 <? iteration)%Z && ltb _ _).
    { injection E as <-. exact Hs'. }
    eapply IH; [|exact E].
    destruct (assign_points_inr cs data [] a _ cl [] Ea) as (_ & Hl & Hn & _ & Hmem).
    rewrite repeat_length in Hl, Hn.
    split; [|split; [|split]].
    + intros E0. rewrite E0 in Hlen. simpl in Hlen.
      destruct data as [|p0 data']; [contradiction|].
      specialize (Hn p0 (or_introl eq_refl)). lia.
    + apply Hd'. intros i p Hp. destruct (Hmem i p Hp) as [H|[H _]].
      * rewrite nth_repeat_nil in H. destruct H.
      * apply data_dim. exact H.
    + exact Hs'.
    + constructor. exact Hstep.
Qed.

End loop.

(** The loop returns, with centroids and assignments of the right
    sizes. *)
Lemma kmeans_loop_returns (data : list (list Q)) (k : Z) (tol : Q) (todo : nat)
    (iteration : Z) (cs : list (list Q))
    (history : list (list (list Q) * list nat)) (assignments : list nat) (g : rng) :
  data <> [] -> cs <> [] -> (List.length cs <= Z.to_nat k)%nat ->
  (0 <= iteration)%Z ->
  ((1 <= iteration)%Z ->
   List.length cs = Z.to_nat k /\ List.length assignments = List.length data
   /\ Forall (fun a => (a < List.length cs)%nat) assignments) ->
  (todo = 0%nat -> (1 <= iteration)%Z) ->
  exists st,
    kmeans_loop todo iteration k tol data cs history assignments g = inr st
    /\ (1 <= List.length (ls_centroids st) <= Z.to_nat k)%nat
    /\ List.length (ls_assignments st) = List.length data
    /\ Forall (fun a => (a < List.length (ls_centroids st))%nat) (ls_assignments st)
    /\ (ls_iteration st <> 0%Z -> List.length (ls_centroids st) = Z.to_nat k).
Proof.
  intros Hdata. revert iteration cs history assignments g.
  induction todo as [|todo IH];
    intros iteration cs history assignments g Hne Hle Hit Hinv Htodo.
  - specialize (Htodo eq_refl). destruct (Hinv Htodo) as (Hk & Hlen & Hall).
    eexists. split; [reflexivity|]. cbn [ls_centroids ls_assignments ls_iteration].
    assert (List.length cs <> 0)%nat by (destruct cs; [contradiction|discriminate]).
    repeat split; try assumption; lia.
  - cbn [kmeans_loop].
    assert (Hn : forall p, In p data ->
                   (nearest_centroid cs p < List.length (repeat (@nil (list Q))
                                                           (Z.to_nat k)))%nat).
    { intros p _. rewrite repeat_length.
      pose proof (proj1 (nearest_centroid_spec cs p Hne)). lia. }
    destruct (assign_points_ok cs data [] _ Hn) as [cl Ea].
    rewrite Ea. cbn [bind app].
    destruct (assign_points_inr cs data [] _ _ cl [] Ea) as (_ & Hl & _).
    rewrite repeat_length in Hl.
    pose proof (rebuild_centroids_length cl data g) as Hlen'.
    destruct (rebuild_centroids cl data g) as [cs' g1]. cbn [fst] in Hlen'.
    assert (Hcs : (List.length cs <> 0)%nat)
      by (destruct cs; [contradiction|discriminate]).
    assert (Hall : Forall (fun a => (a < List.length cs)%nat)
                     (map (nearest_centroid cs) data)).
    { apply Forall_forall. intros a Ha. apply in_map_iff in Ha.
      destruct Ha as (p & <- & _). apply nearest_centroid_spec. exact Hne. }
    assert (Hall' : Forall (fun a => (a < List.length cs')%nat)
                      (map (nearest_centroid cs) data)).
    { eapply Forall_impl; [|exact Hall]. cbv beta. intros a Ha. lia. }
    destruct (ltb _ (tol * tol)).
    { eexists. split; [reflexivity|].
      cbn [ls_centroids ls_assignments ls_iteration].
      split; [lia|]. split; [apply length_map|]. split; [exact Hall|].
      intros Hi. apply Hinv. lia. }
    destruct ((5 <? iteration)%Z && ltb _ _).
    { eexists. split; [reflexivity|].
      cbn [ls_centroids ls_assignments ls_iteration].
      split; [lia|]. split; [apply length_map|]. split; [exact Hall'|]. lia. }
    apply IH.
    + intros E0. rewrite E0 in Hlen'. simpl in Hlen'. lia.
    + lia.
    + lia.
    + intros _. split; [lia|]. split; [apply length_map|exact Hall'].
    + intros _. lia.
Qed.

(** The history, latest first, read in the order of the run. *)
Lemma Sorted_rev_non_increasing (data : list (list Q))
    (history : list (list (list Q) * list nat)) :
  Sorted (fun x y => within_cluster_distance data (fst x) (snd x)
                     <= within_cluster_distance data (fst y) (snd y)) history ->
  non_increasing
    (map (fun ca => within_cluster_distance data (fst ca) (snd ca)) (rev history)).
Proof.
  intros Hs. set (w := fun ca : list (list Q) * list nat =>
                         within_cluster_distance data (fst ca) (snd ca)).
  assert (Hadj : forall i, (S i < List.length history)%nat ->
                   nth i (map w history) 0 <= nth (S i) (map w history) 0).
  { induction Hs as [|x l Hs IH Hhd]; intros i Hi; [simpl in Hi; lia|].
    destruct i as [|i].
    - destruct l as [|y l]; [simpl in Hi; lia|].
      inversion Hhd; subst. simpl. assumption.
    - cbn [map nth]. apply IH. simpl in Hi. lia. }
  intros i Hi. rewrite length_map, length_rev in Hi.
  rewrite map_rev.
  rewrite !(rev_nth (map w history)) by (rewrite length_map; lia).
  rewrite length_map.
  replace (List.length history - S i)%nat with (S (List.length history - S (S i)))%nat
    by lia.
  apply Hadj. lia.
Qed.

(** C6.  Within one run that returns, the total within-cluster squared
    distance of the iterations, each measured on the centroids the
    iteration assigned to, never increases from one iteration to the
    next. *)
Theorem within_cluster_distance_non_increasing (irt_data : list dict)
    (k max_iter : Z) (tol : Q) (g : rng) (st : loop_state) :
  kmeans_run irt_data k max_iter tol g = inr st ->
  non_increasing (distance_trace (normalize_data (feature_rows irt_data)) st).
Proof.
  intros E. unfold kmeans_run in E.
  pose proof (feature_rows_dim irt_data) as Hrows.
  destruct (feature_rows irt_data) as [|first rest] eqn:Ef; [discriminate|].
  set (data := normalize_data (first :: rest)) in *.
  assert (Hne : data <> []).
  { intros E0. pose proof (normalize_data_length (first :: rest)) as Hl.
    fold data in Hl. rewrite E0 in Hl. discriminate. }
  assert (Hdim : forall p, In p data -> List.length p = 4%nat).
  { intros p Hp. rewrite (normalize_data_dim first rest p Hp).
    apply Hrows. now left. }
  destruct (init_kmeans_plus_plus_spec data k g Hne) as (Hc1 & Hc2 & _).
  destruct (init_kmeans_plus_plus data k g) as [cs g1]. cbn [fst] in *.
  destruct (max_iter <=? 0)%Z; [discriminate|].
  unfold distance_trace. apply Sorted_rev_non_increasing.
  eapply (kmeans_loop_history data 4 k tol Hne Hdim); [|exact E].
  split; [exact Hc1|]. split; [|split; constructor].
  intros c Hc. apply Hdim, Hc2, Hc.
Qed.

(** A run of three iterations on five players, for two clusters. *)
Lemma within_cluster_distance_non_increasing_witness :
  exists st : loop_state,
    kmeans_run mixed_rows 2 100 (1 # 10000) counting_rng = inr st
    /\ non_increasing (distance_trace (normalize_data (feature_rows mixed_rows)) st).
Proof.
  destruct (kmeans_run mixed_rows 2 100 (1 # 10000) counting_rng) as [e|st] eqn:E.
  - vm_compute in E. discriminate.
  - exists st. split; [reflexivity|].
    exact (within_cluster_distance_non_increasing mixed_rows 2 100 (1 # 10000)
             counting_rng st E).
Defined.

(** C2 (as amended).  For every non-empty list of IRT records, every
    [k >= 1] (in particular [1 <= k <= populationSize]) and at least
    one iteration allowed, [kmeans_from_irt] returns: at least one and
    at most [k] centroids, exactly [k] of them unless the run stopped
    in its first iteration; and an assignments list with one entry per
    input point, each the index of a returned centroid. *)
Theorem kmeans_returns_centroids_and_assignments (irt_data : list dict)
    (k max_iter : Z) (tol : Q) (g : rng) :
  irt_data <> [] -> (1 <= k)%Z -> (1 <= max_iter)%Z ->
  exists (r : kmeans_result) (g' : rng),
    kmeans_from_irt irt_data k max_iter tol g = inr (r, g')
    /\ (1 <= List.length (centroids r) <= Z.to_nat k)%nat
    /\ (converged_after r <> 1%Z -> List.length (centroids r) = Z.to_nat k)
    /\ List.length (assignments r) = List.length irt_data
    /\ Forall (fun a => (a < List.length (centroids r))%nat) (assignments r)
    /\ cluster_count r = k.
Proof.
  intros Hne Hk Hm. unfold kmeans_from_irt, kmeans_run.
  assert (Hrows : List.length (feature_rows irt_data) = List.length irt_data)
    by apply length_map.
  destruct (feature_rows irt_data) as [|first rest] eqn:Ef.
  { destruct irt_data; [contradiction|discriminate]. }
  set (data := normalize_data (first :: rest)) in *.
  assert (Hlen : List.length data = List.length irt_data).
  { unfold data. rewrite normalize_data_length. exact Hrows. }
  assert (Hdata : data <> []).
  { intros E0. rewrite E0 in Hlen. destruct irt_data; [contradiction|discriminate]. }
  destruct (init_kmeans_plus_plus_spec data k g Hdata) as (Hc1 & _ & Hc3).
  destruct (init_kmeans_plus_plus data k g) as [cs g1]. cbn [fst] in *.
  destruct (Z.leb_spec max_iter 0) as [|_]; [lia|].
  destruct (kmeans_loop_returns data k tol (Z.to_nat max_iter) 0 cs [] [] g1
              Hdata Hc1 (Hc3 Hk) ltac:(lia) ltac:(lia) ltac:(lia))
    as (st & E & H1 & H2 & H3 & H4).
  rewrite E. cbn [bind]. eexists. eexists. split; [reflexivity|].
  cbn [centroids assignments cluster_count converged_after].
  split; [exact H1|]. split; [intros Hc; apply H4; lia|].
  split; [congruence|]. split; [exact H3|reflexivity].
Qed.

(** Five players and three clusters. *)
Lemma kmeans_returns_centroids_and_assignments_witness :
  exists (r : kmeans_result) (g' : rng),
    kmeans_from_irt mixed_rows 3 100 (1 # 10000) zero_rng = inr (r, g')
    /\ (1 <= List.length (centroids r) <= Z.to_nat 3)%nat
    /\ (converged_after r <> 1%Z -> List.length (centroids r) = Z.to_nat 3)
    /\ List.length (assignments r) = List.length mixed_rows
    /\ Forall (fun a => (a < List.length (centroids r))%nat) (assignments r)
    /\ cluster_count r = 3%Z.
Proof.
  apply (kmeans_returns_centroids_and_assignments mixed_rows 3 100 (1 # 10000)
           zero_rng).
  - discriminate.
  - lia.
  - lia.
Defined.

(** C2, counterexample.  Three players with the same features and
    [k = 2]: the seeding stops with one centroid, the first iteration
    finds nothing to move, and one centroid is returned. *)
Lemma kmeans_can_return_fewer_centroids :
  ~ (forall (irt_data : list dict) (k max_iter : Z) (tol : Q) (g : rng)
            (r : kmeans_result) (g' : rng),
       irt_data <> [] -> (1 <= k <= Z.of_nat (List.length irt_data))%Z ->
       kmeans_from_irt irt_data k max_iter tol g = inr (r, g') ->
       List.length (centroids r) = Z.to_nat k).
Proof.
  intros H.
  destruct (kmeans_from_irt identical_rows 2 100 (1 # 10000) zero_rng)
    as [e|[r g']] eqn:E.
  - vm_compute in E. discriminate.
  - specialize (H identical_rows 2%Z 100%Z (1 # 10000) zero_rng r g'
                  ltac:(discriminate) ltac:(simpl; lia) E).
    vm_compute in E. injection E as <- _. vm_compute in H. discriminate.
Qed.

End KMeansFacts.

(** ** More on the clustering *)

Module KMeansMore.
Import Py PyFacts KMeans_Cluster KMeansFacts examples samples.

(** The run returns, whatever the draws. *)
Lemma kmeans_from_irt_total (irt_data : list dict) (k max_iter : Z) (tol : Q) (g : rng) :
  irt_data <> [] -> (1 <= k)%Z -> (1 <= max_iter)%Z ->
  exists (r : kmeans_result) (g' : rng),
    kmeans_from_irt irt_data k max_iter tol g = inr (r, g')
    /\ List.length (assignments r) = List.length irt_data.
Proof.
  intros Hne Hk Hm. unfold kmeans_from_irt, kmeans_run.
  assert (Hrows : List.length (feature_rows irt_data) = List.length irt_data)
    by apply length_map.
  destruct (feature_rows irt_data) as [|first rest] eqn:Ef.
  { destruct irt_data; [contradiction|discriminate]. }
  set (data := normalize_data (first :: rest)) in *.
  assert (Hlen : List.length data = List.length irt_data).
  { unfold data. rewrite normalize_data_length. exact Hrows. }
  assert (Hdata : data <> []).
  { intros E0. rewrite E0 in Hlen. destruct irt_data; [contradiction|discriminate]. }
  destruct (init_kmeans_plus_plus_spec data k g Hdata) as (Hc1 & _ & Hc3).
  destruct (init_kmeans_plus_plus data k g) as [cs g1]. cbn [fst] in *.
  destruct (Z.leb_spec max_iter 0) as [|_]; [lia|].
  destruct (kmeans_loop_returns data k tol (Z.to_nat max_iter) 0 cs [] [] g1
              Hdata Hc1 (Hc3 Hk) ltac:(lia) ltac:(lia) ltac:(lia))
    as (st & E & H1 & H2 & H3 & H4).
  rewrite E. cbn [bind]. eexists. eexists. split; [reflexivity|].
  cbn [assignments]. congruence.
Qed.


(** *** The centroid *)

(** X1.  The centroid of a non-empty cluster of points of one
    dimension is the point from which the sum of the squared distances
    to the points of the cluster is least. *)
Theorem centroid_minimizes_squared_distance (points : list (list Q)) (c : list Q)
    (d : nat) :
  points <> [] -> (forall p, In p points -> List.length p = d) -> List.length c = d ->
  sum (map (fun p => squared_distance p (compute_centroid points)) points)
  <= sum (map (fun p => squared_distance p c) points).
Proof. apply mean_minimizes. Qed.

Lemma centroid_minimizes_squared_distance_witness :
  sum (map (fun p => squared_distance p (compute_centroid three_points)) three_points)
  <= sum (map (fun p => squared_distance p a_centre) three_points).
Proof.
  apply (centroid_minimizes_squared_distance three_points a_centre 2).
  - discriminate.
  - intros p [<-|[<-|[<-|[]]]]; reflexivity.
  - reflexivity.
Defined.

(** *** The nearest centroid *)

Section first_nearest.
Variables (centroids : list (list Q)) (pt : list Q).

Let step : option Q * nat -> nat * list Q -> option Q * nat :=
  fun '(min_dist_sq, nearest) '(idx, centroid) =>
    let dist_sq := squared_distance pt centroid in
    if lt_inf dist_sq min_dist_sq then (Some dist_sq, idx)
    else (min_dist_sq, nearest).

(** What the scan knows after the first [s] centroids. *)
Let scanned (st : option Q * nat) (s : nat) : Prop :=
  match fst st with
  | None => s = 0%nat /\ snd st = 0%nat
  | Some d =>
      (snd st < s)%nat
      /\ d = squared_distance pt (nth (snd st) centroids [])
      /\ (forall j, (j < s)%nat -> d <= squared_distance pt (nth j centroids []))
      /\ (forall j, (j < snd st)%nat -> d < squared_distance pt (nth j centroids []))
  end.

Lemma first_scan_invariant (l : list (list Q)) (s : nat) (st : option Q * nat) :
  (forall i, (i < List.length l)%nat -> nth (s + i) centroids [] = nth i l []) ->
  scanned st s ->
  scanned (fold_left step (combine (seq s (List.length l)) l) st) (s + List.length l).
Proof.
  revert s st. induction l as [|c l IH]; intros s st Hl Hst.
  - simpl. rewrite Nat.add_0_r. exact Hst.
  - cbn [List.length seq combine fold_left].
    replace (s + S (List.length l))%nat with (S s + List.length l)%nat by lia.
    apply IH.
    + intros i Hi. specialize (Hl (S i) ltac:(simpl; lia)).
      replace (S s + i)%nat with (s + S i)%nat by lia. exact Hl.
    + assert (Hc : nth s centroids [] = c).
      { specialize (Hl 0%nat ltac:(simpl; lia)). rewrite Nat.add_0_r in Hl. exact Hl. }
      destruct st as [m n]. unfold scanned in Hst |- *. cbn [fst snd] in Hst.
      unfold step. cbv zeta. destruct m as [d|]; cbn [lt_inf].
      * destruct Hst as (Hn & Hd & Hmin & Hfirst).
        case_ltb (squared_distance pt c) d; cbn [fst snd].
        -- split; [lia|]. split; [rewrite Hc; reflexivity|]. split.
           ++ intros j Hj. destruct (Nat.eq_dec j s) as [->|Hne].
              ** rewrite Hc. apply Qle_refl.
              ** specialize (Hmin j ltac:(lia)). lra.
           ++ intros j Hj. specialize (Hmin j Hj). lra.
        -- split; [lia|]. split; [exact Hd|]. split; [|exact Hfirst].
           intros j Hj. destruct (Nat.eq_dec j s) as [->|Hne].
           ++ rewrite Hc. exact Hlt.
           ++ apply Hmin. lia.
      * destruct Hst as [-> ->]. cbn [fst snd].
        split; [lia|]. split; [rewrite Hc; reflexivity|]. split.
        -- intros j Hj. assert (j = 0%nat) by lia. subst j. rewrite Hc. apply Qle_refl.
        -- intros j Hj. lia.
Qed.

Lemma nearest_centroid_first :
  centroids <> [] ->
  (nearest_centroid centroids pt < List.length centroids)%nat
  /\ (forall j, (j < List.length centroids)%nat ->
        squared_distance pt (nth (nearest_centroid centroids pt) centroids [])
        <= squared_distance pt (nth j centroids []))
  /\ (forall j, (j < nearest_centroid centroids pt)%nat ->
        squared_distance pt (nth (nearest_centroid centroids pt) centroids [])
        < squared_distance pt (nth j centroids [])).
Proof.
  intros Hne.
  pose proof (first_scan_invariant centroids 0 (None, 0%nat)) as H.
  cbn [Nat.add] in H. specialize (H (fun i _ => eq_refl)).
  specialize (H (conj eq_refl eq_refl)).
  unfold nearest_centroid. fold step.
  set (r := fold_left step _ _) in *.
  unfold scanned in H. destruct (fst r) as [d|].
  - destruct H as (Hn & Hd & Hmin & Hfirst). split; [exact Hn|]. split.
    + intros j Hj. rewrite <- Hd. apply Hmin. exact Hj.
    + intros j Hj. rewrite <- Hd. apply Hfirst. exact Hj.
  - destruct H as [H _]. destruct centroids; [contradiction|discriminate].
Qed.

End first_nearest.

(** X2.  The index that the assignment step gives a point is that
    of a centroid, no centroid is nearer to the point, and every
    centroid before it in the list is strictly further: among the
    nearest centroids the first one is taken. *)
Theorem nearest_centroid_is_first_nearest (centroids : list (list Q)) (pt : list Q) :
  centroids <> [] ->
  (nearest_centroid centroids pt < List.length centroids)%nat
  /\ (forall j, (j < List.length centroids)%nat ->
        squared_distance pt (nth (nearest_centroid centroids pt) centroids [])
        <= squared_distance pt (nth j centroids []))
  /\ (forall j, (j < nearest_centroid centroids pt)%nat ->
        squared_distance pt (nth (nearest_centroid centroids pt) centroids [])
        < squared_distance pt (nth j centroids [])).
Proof. apply nearest_centroid_first. Qed.

Lemma nearest_centroid_is_first_nearest_witness :
  (nearest_centroid three_centroids a_point < List.length three_centroids)%nat
  /\ (forall j, (j < List.length three_centroids)%nat ->
        squared_distance a_point
          (nth (nearest_centroid three_centroids a_point) three_centroids [])
        <= squared_distance a_point (nth j three_centroids []))
  /\ (forall j, (j < nearest_centroid three_centroids a_point)%nat ->
        squared_distance a_point
          (nth (nearest_centroid three_centroids a_point) three_centroids [])
        < squared_distance a_point (nth j three_centroids [])).
Proof.
  apply (nearest_centroid_is_first_nearest three_centroids a_point).
  discriminate.
Defined.


(** *** Normalisation *)

Section normalize.
Variable dims : nat.

Let step : list Q * list Q -> list Q -> list Q * list Q :=
  fun '(mins, maxs) pt =>
    (map (fun i => if ltb (nth i pt 0) (nth i mins 0)
                   then nth i pt 0 else nth i mins 0) (seq 0 dims),
     map (fun i => if ltb (nth i maxs 0) (nth i pt 0)
                   then nth i pt 0 else nth i maxs 0) (seq 0 dims)).

(** The bounds in hand enclose every row seen so far. *)
Let enclose (mm : list Q * list Q) (seen : list (list Q)) : Prop :=
  forall i, (i < dims)%nat ->
    nth i (fst mm) 0 <= nth i (snd mm) 0
    /\ forall pt, In pt seen -> nth i (fst mm) 0 <= nth i pt 0 <= nth i (snd mm) 0.

Lemma bounds_enclose (rest : list (list Q)) (mm : list Q * list Q)
    (seen : list (list Q)) :
  enclose mm seen -> enclose (fold_left step rest mm) (seen ++ rest).
Proof.
  revert mm seen. induction rest as [|pt rest IH]; intros mm seen H.
  - cbn [fold_left]. now rewrite app_nil_r.
  - cbn [fold_left].
    replace (seen ++ pt :: rest) with ((seen ++ [pt]) ++ rest)
      by (rewrite <- app_assoc; reflexivity).
    apply IH. destruct mm as [mins maxs]. intros i Hi.
    specialize (H i Hi). cbn [fst snd] in H. destruct H as [H1 H2].
    unfold step. cbn [fst snd]. rewrite !nth_map_seq by exact Hi.
    case_ltb (nth i pt 0) (nth i mins 0); case_ltb (nth i maxs 0) (nth i pt 0).
    all: split; [lra|].
    all: intros q Hq; apply in_app_or in Hq; destruct Hq as [Hq|[<-|[]]];
      [specialize (H2 q Hq); lra|lra].
Qed.

End normalize.

Lemma unit_quotient (a r : Q) : 0 <= a <= r -> ~ r == 0 -> 0 <= a / r <= 1.
Proof.
  intros [H0 H1] Hr. assert (Hpos : 0 < r) by lra. split.
  - apply Qle_shift_div_l; [exact Hpos|]. lra.
  - apply Qle_shift_div_r; [exact Hpos|]. lra.
Qed.

Lemma normalize_data_range (first : list Q) (rest : list (list Q)) :
  forall p, In p (normalize_data (first :: rest)) ->
            forall x, In x p -> 0 <= x <= 1.
Proof.
  intros p Hp x Hx. unfold normalize_data in Hp.
  pose proof (bounds_enclose (List.length first) rest (first, first) [first]) as Hb.
  cbv zeta in Hb.
  destruct (fold_left _ rest (first, first)) as [mins maxs].
  assert (He : forall i, (i < List.length first)%nat ->
                 nth i mins 0 <= nth i maxs 0
                 /\ forall pt, In pt (first :: rest) ->
                      nth i mins 0 <= nth i pt 0 <= nth i maxs 0).
  { apply Hb. intros i Hi. cbn [fst snd]. split; [apply Qle_refl|].
    intros pt [<-|[]]. split; apply Qle_refl. }
  clear Hb. apply in_map_iff in Hp. destruct Hp as (pt & <- & Hpt).
  apply in_map_iff in Hx. destruct Hx as (i & <- & Hi). apply in_seq in Hi.
  assert (Hi' : (i < List.length first)%nat) by lia.
  rewrite nth_map_seq by exact Hi'.
  destruct (He i Hi') as [H1 H2]. specialize (H2 pt Hpt).
  unfold eqb. destruct (Qeq_bool (nth i maxs 0 - nth i mins 0) 0.0) eqn:E.
  - lra.
  - apply unit_quotient; [lra|]. intros E0. apply Qeq_bool_neq in E.
    apply E. rewrite E0. reflexivity.
Qed.

(** X3.  [normalize_data] keeps the number of rows and of columns,
    and every coordinate of every row it returns lies between 0 and
    1. *)
Theorem normalize_data_unit_range (data : list (list Q)) (d : nat) :
  (forall p, In p data -> List.length p = d) ->
  List.length (normalize_data data) = List.length data
  /\ forall p, In p (normalize_data data) ->
       List.length p = d /\ forall x, In x p -> 0 <= x <= 1.
Proof.
  intros Hd. split; [apply normalize_data_length|].
  destruct data as [|first rest]; [intros p []|].
  intros p Hp. split.
  - rewrite (normalize_data_dim first rest p Hp). apply Hd. now left.
  - now apply (normalize_data_range first rest).
Qed.

Lemma normalize_data_unit_range_witness :
  List.length (normalize_data three_points) = List.length three_points
  /\ forall p, In p (normalize_data three_points) ->
       List.length p = 2%nat /\ forall x, In x p -> 0 <= x <= 1.
Proof.
  apply (normalize_data_unit_range three_points 2).
  intros p [<-|[<-|[<-|[]]]]; reflexivity.
Defined.


(** *** Seeding *)

(** X4.  On a non-empty data set, the k-means++ seeding returns at
    least one centroid, each of them a point of the data set, and for
    [k >= 1] at most [k] of them; when [k] is at least the number of
    points it returns the points themselves and draws nothing. *)
Theorem init_kmeans_plus_plus_seeds_from_data (data : list (list Q)) (k : Z)
    (g : rng) :
  data <> [] ->
  let cs := fst (init_kmeans_plus_plus data k g) in
  cs <> [] /\ (forall c, In c cs -> In c data)
  /\ ((1 <= k)%Z -> (List.length cs <= Z.to_nat k)%nat)
  /\ ((Z.of_nat (List.length data) <= k)%Z -> init_kmeans_plus_plus data k g = (data, g)).
Proof.
  intros Hne. cbv zeta.
  destruct (init_kmeans_plus_plus_spec data k g Hne) as (H1 & H2 & H3).
  split; [exact H1|]. split; [exact H2|]. split; [exact H3|].
  intros Hk. unfold init_kmeans_plus_plus. destruct data as [|p data']; [contradiction|].
  destruct (Z.leb_spec (Z.of_nat (List.length (p :: data'))) k); [reflexivity|lia].
Qed.

Lemma init_kmeans_plus_plus_seeds_from_data_witness :
  let cs := fst (init_kmeans_plus_plus three_points 2 counting_rng) in
  cs <> [] /\ (forall c, In c cs -> In c three_points)
  /\ ((1 <= 2)%Z -> (List.length cs <= Z.to_nat 2)%nat)
  /\ ((Z.of_nat (List.length three_points) <= 2)%Z ->
      init_kmeans_plus_plus three_points 2 counting_rng = (three_points, counting_rng)).
Proof.
  apply (init_kmeans_plus_plus_seeds_from_data three_points 2 counting_rng).
  discriminate.
Defined.

(** *** The run *)

Lemma kmeans_loop_iteration (k : Z) (tol : Q) (data : list (list Q)) (todo : nat) :
  forall (iteration : Z) (cs : list (list Q))
         (history : list (list (list Q) * list nat)) (assignments : list nat) (g : rng)
         (st : loop_state),
  kmeans_loop todo iteration k tol data cs history assignments g = inr st ->
  (iteration - 1 <= ls_iteration st <= iteration + Z.of_nat todo - 1)%Z
  /\ (todo <> 0%nat -> (iteration <= ls_iteration st)%Z /\ (1 <= k)%Z \/ data = []).
Proof.
  induction todo as [|todo IH]; intros iteration cs history assignments g st H.
  - simpl in H. injection H as <-. cbn [ls_iteration]. split; [lia|]. intros E.
    now elim E.
  - cbn [kmeans_loop] in H.
    destruct (assign_points cs data [] (repeat [] (Z.to_nat k))) as [e|[a cl]] eqn:Ea;
      [discriminate|].
    cbn [bind] in H.
    assert (Hk : (1 <= k)%Z \/ data = []).
    { destruct data as [|pt data']; [now right|]. left.
      cbn [assign_points] in Ea.
      destruct (Z.to_nat k) as [|n] eqn:En; [discriminate|]. lia. }
    destruct (rebuild_centroids cl data g) as [cs' g1].
    destruct (ltb _ (tol * tol)).
    { injection H as <-. cbn [ls_iteration]. split; [lia|]. intros _.
      destruct Hk as [Hk|Hk]; [left; split; [lia|exact Hk]|now right]. }
    destruct ((5 <? iteration)%Z && ltb _ _).
    { injection H as <-. cbn [ls_iteration]. split; [lia|]. intros _.
      destruct Hk as [Hk|Hk]; [left; split; [lia|exact Hk]|now right]. }
    apply IH in H. destruct H as [H1 H2]. split; [lia|]. intros _.
    destruct Hk as [Hk|Hk]; [left; split; [lia|exact Hk]|now right].
Qed.

(** X5.  Whenever [kmeans_from_irt] returns, the list of records
    was not empty, [k] was at least 1, and the reported
    [converged_after] lies between 1 and [max_iter]; the reported
    [cluster_count] is [k] itself, however many centroids there
    are. *)
Theorem kmeans_from_irt_reports_iterations (irt_data : list dict) (k max_iter : Z)
    (tol : Q) (g : rng) (r : kmeans_result) (g' : rng) :
  kmeans_from_irt irt_data k max_iter tol g = inr (r, g') ->
  irt_data <> [] /\ (1 <= k)%Z /\ (1 <= converged_after r <= max_iter)%Z
  /\ cluster_count r = k.
Proof.
  unfold kmeans_from_irt, kmeans_run.
  assert (Hrows : List.length (feature_rows irt_data) = List.length irt_data)
    by apply length_map.
  destruct (feature_rows irt_data) as [|first rest] eqn:Ef; [discriminate|].
  set (data := normalize_data (first :: rest)) in *.
  assert (Hdata : data <> []).
  { intros E0. apply (f_equal (@List.length (list Q))) in E0. unfold data in E0.
    rewrite normalize_data_length in E0. discriminate. }
  destruct (init_kmeans_plus_plus data k g) as [cs g1].
  destruct (Z.leb_spec max_iter 0) as [|Hm]; [discriminate|].
  destruct (kmeans_loop _ _ _ _ _ _ _ _ _) as [e|st] eqn:E; [discriminate|].
  cbn [bind ret]. intros H. injection H as <- _.
  cbn [converged_after cluster_count].
  apply kmeans_loop_iteration in E. destruct E as [H1 H2].
  destruct H2 as [[H2 Hk]|H2]; [lia| |contradiction].
  split; [intros E0; rewrite E0 in Hrows; discriminate|].
  split; [exact Hk|]. split; [lia|reflexivity].
Qed.

Lemma kmeans_from_irt_reports_iterations_witness :
  exists r g',
    kmeans_from_irt identical_rows 2 100 (1 # 10000) zero_rng = inr (r, g')
    /\ identical_rows <> [] /\ (1 <= 2)%Z /\ (1 <= converged_after r <= 100)%Z
    /\ cluster_count r = 2%Z.
Proof.
  destruct (kmeans_from_irt identical_rows 2 100 (1 # 10000) zero_rng)
    as [e|[r g']] eqn:E.
  - vm_compute in E. discriminate.
  - exists r, g'. split; [reflexivity|].
    exact (kmeans_from_irt_reports_iterations identical_rows 2 100 (1 # 10000)
             zero_rng r g' E).
Defined.

(** X6.  On a non-empty list of records, [kmeans_from_irt] with no
    iteration allowed fails on the unbound name [iteration], and with
    [k] of zero or less it fails in its first iteration with an
    IndexError, there being no cluster to put the first point in. *)
Theorem kmeans_from_irt_rejects_bad_parameters (irt_data : list dict)
    (k max_iter : Z) (tol : Q) (g : rng) :
  irt_data <> [] ->
  ((max_iter <= 0)%Z ->
   kmeans_from_irt irt_data k max_iter tol g = inl (UnboundLocalError "iteration"))
  /\ ((1 <= max_iter)%Z -> (k <= 0)%Z ->
      kmeans_from_irt irt_data k max_iter tol g = inl IndexError).
Proof.
  intros Hne. unfold kmeans_from_irt, kmeans_run.
  assert (Hrows : List.length (feature_rows irt_data) = List.length irt_data)
    by apply length_map.
  destruct (feature_rows irt_data) as [|first rest] eqn:Ef.
  { destruct irt_data; [contradiction|discriminate]. }
  set (data := normalize_data (first :: rest)) in *.
  assert (Hdata : data <> []).
  { intros E0. apply (f_equal (@List.length (list Q))) in E0. unfold data in E0.
    rewrite normalize_data_length in E0. discriminate. }
  destruct (init_kmeans_plus_plus data k g) as [cs g1].
  split.
  - intros Hm. destruct (Z.leb_spec max_iter 0); [reflexivity|lia].
  - intros Hm Hk. destruct (Z.leb_spec max_iter 0); [lia|].
    destruct (Z.to_nat max_iter) as [|todo] eqn:Et; [lia|].
    cbn [kmeans_loop]. replace (Z.to_nat k) with 0%nat by lia.
    destruct data as [|pt data']; [contradiction|]. reflexivity.
Qed.

Lemma kmeans_from_irt_rejects_bad_parameters_witness :
  kmeans_from_irt mixed_rows 3 0 (1 # 10000) zero_rng
  = inl (UnboundLocalError "iteration")
  /\ kmeans_from_irt mixed_rows 0 100 (1 # 10000) zero_rng = inl IndexError.
Proof.
  split.
  - apply (kmeans_from_irt_rejects_bad_parameters mixed_rows 3 0 (1 # 10000) zero_rng);
      [discriminate|lia].
  - apply (kmeans_from_irt_rejects_bad_parameters mixed_rows 0 100 (1 # 10000)
             zero_rng); [discriminate|lia|lia].
Defined.

End KMeansMore.

(** ** Group formation *)

Module MultiplayerFacts.
Import Py PyFacts KMeans_Cluster KMeansFacts KMeansMore Multiplayer_Based Groups.
Import lobby examples.

(** *** Lists of indices *)

Lemma mem_In (i : nat) (l : list nat) : mem i l = true <-> In i l.
Proof.
  unfold mem. rewrite existsb_exists. split.
  - intros (x & Hx & E). apply Nat.eqb_eq in E. now subst.
  - intros H. exists i. split; [exact H|apply Nat.eqb_refl].
Qed.

Lemma mem_not_In (i : nat) (l : list nat) : mem i l = false <-> ~ In i l.
Proof.
  rewrite <- mem_In. destruct (mem i l); split; intros H; congruence.
Qed.

Lemma insert_by_perm {A : Type} (key : A -> Q) (x : A) (l : list A) :
  Permutation (insert_by key x l) (x :: l).
Proof.
  induction l as [|y l IH]; simpl; [reflexivity|].
  destruct (leb (key x) (key y)); [reflexivity|].
  rewrite IH. apply perm_swap.
Qed.

Lemma sort_by_perm {A : Type} (key : A -> Q) (l : list A) :
  Permutation (sort_by key l) l.
Proof.
  induction l as [|x l IH]; simpl; [reflexivity|].
  unfold sort_by in *. simpl. rewrite insert_by_perm. now constructor.
Qed.

Lemma window_cons {A : Type} (x : A) (g l : list A) : window g l -> window g (x :: l).
Proof. intros (pre & post & ->). exists (x :: pre), post. reflexivity. Qed.

Lemma window_slice {A : Type} (l : list A) (start : nat) (stop : Z) :
  window (slice l start stop) l.
Proof.
  unfold slice. set (n := Z.to_nat _).
  exists (firstn start l), (skipn n (skipn start l)).
  rewrite firstn_skipn, firstn_skipn. reflexivity.
Qed.

Lemma window_incl {A : Type} (g l : list A) : window g l -> incl g l.
Proof.
  intros (pre & post & ->) x Hx. apply in_or_app. right. apply in_or_app. now left.
Qed.

Lemma window_NoDup {A : Type} (g l : list A) : window g l -> NoDup l -> NoDup g.
Proof.
  intros (pre & post & ->) H.
  apply NoDup_app_remove_l in H. apply NoDup_app_remove_r in H. exact H.
Qed.


(** *** Reading the profiles *)

Lemma theta_of_inr (profiles : list profile) (i : nat) (t : Q) :
  theta_of profiles i = inr t -> (i < List.length profiles)%nat.
Proof.
  unfold theta_of. destruct (nth_error profiles i) eqn:E; [|discriminate].
  intros _. apply nth_error_Some. congruence.
Qed.

Lemma theta_of_ok (profiles : list profile) (i : nat) :
  (i < List.length profiles)%nat -> exists t, theta_of profiles i = inr t.
Proof.
  intros H. unfold theta_of. destruct (nth_error profiles i) eqn:E.
  - eexists. reflexivity.
  - apply nth_error_None in E. lia.
Qed.

Lemma thetas_of_inr (profiles : list profile) (g : list nat) (ts : list Q) :
  thetas_of profiles g = inr ts ->
  List.length ts = List.length g /\ Forall (fun i => (i < List.length profiles)%nat) g.
Proof.
  revert ts. induction g as [|i g IH]; simpl; intros ts H.
  - inversion H. split; [reflexivity|constructor].
  - destruct (theta_of profiles i) as [e|t] eqn:Et; [discriminate|].
    destruct (thetas_of profiles g) as [e|ts'] eqn:Ets; [discriminate|].
    simpl in H. inversion H; subst. destruct (IH _ eq_refl) as [Hl Hf].
    split; [simpl; now rewrite Hl|constructor; [now apply theta_of_inr in Et|exact Hf]].
Qed.

Lemma thetas_of_ok (profiles : list profile) (g : list nat) :
  Forall (fun i => (i < List.length profiles)%nat) g ->
  exists ts, thetas_of profiles g = inr ts.
Proof.
  induction 1 as [|i g Hi Hg IH]; simpl.
  - eexists. reflexivity.
  - destruct (theta_of_ok _ _ Hi) as [t ->]. destruct IH as [ts ->].
    eexists. reflexivity.
Qed.

Lemma sum_squares_nonneg (l : list Q) (m : Q) :
  0 <= sum (map (fun t => (t - m) * (t - m)) l).
Proof.
  apply sum_map_nonneg. intros t _. apply square_nonneg.
Qed.

Lemma variance_of_inr (profiles : list profile) (g : list nat) (v : Q) :
  variance_of profiles g = inr v ->
  0 <= v /\ g <> [] /\ Forall (fun i => (i < List.length profiles)%nat) g.
Proof.
  unfold variance_of. destruct (thetas_of profiles g) as [e|ts] eqn:E; [discriminate|].
  cbv beta iota delta [bind]. destruct (thetas_of_inr _ _ _ E) as [Hl Hf].
  destruct ts as [|t ts]; [discriminate|]. intros H. injection H as <-.
  split; [|split; [|exact Hf]].
  - match goal with |- 0 <= ?s / ?len => set (s0 := s); set (len0 := len) end.
    assert (Hlen : 0 < len0).
    { unfold len0. change 0 with (inject_Z 0). rewrite <- Zlt_Qlt. simpl List.length. lia. }
    assert (Hs : 0 <= s0).
    { unfold s0. match goal with |- 0 <= sum (_ :: map ?f ts) =>
        change (0 <= sum (map f (t :: ts))) end.
      apply sum_map_nonneg. intros x _. apply square_nonneg. }
    unfold Qdiv. apply Qmult_le_0_compat; [exact Hs|].
    apply Qlt_le_weak. now apply Qinv_lt_0_compat.
  - intros ->. discriminate.
Qed.

Lemma variance_of_ok (profiles : list profile) (g : list nat) :
  g <> [] -> Forall (fun i => (i < List.length profiles)%nat) g ->
  exists v, variance_of profiles g = inr v.
Proof.
  intros Hne Hf. unfold variance_of. destruct (thetas_of_ok _ _ Hf) as [ts E].
  rewrite E. cbv beta match delta [bind]. destruct (thetas_of_inr _ _ _ E) as [Hl _].
  destruct ts as [|t ts].
  - destruct g; [now elim Hne|discriminate].
  - eexists. reflexivity.
Qed.


(** *** The scans of [_find_best_group_fast] *)

Lemma valid_incl (profiles : list profile) (g l : list nat) :
  incl g l -> valid profiles l -> valid profiles g.
Proof.
  unfold valid. rewrite !Forall_forall. intros Hi Hl x Hx. apply Hl, Hi, Hx.
Qed.

Lemma best_pair_scan_cons (profiles : list profile) (a b : nat) (rest bp : list nat)
    (md : Q) :
  best_pair_scan profiles (a :: b :: rest) bp md =
  (ta <- theta_of profiles a ;;
   tb <- theta_of profiles b ;;
   let diff := Qabs (ta - tb) in
   if ltb diff md then best_pair_scan profiles (b :: rest) [a; b] diff
   else best_pair_scan profiles (b :: rest) bp md).
Proof. reflexivity. Qed.

Lemma best_pair_scan_inr (profiles : list profile) (cands bp : list nat) (md : Q)
    (bp' : list nat) (md' : Q) :
  best_pair_scan profiles cands bp md = inr (bp', md') ->
  bp' = bp \/ (window bp' cands /\ List.length bp' = 2%nat).
Proof.
  revert bp md. induction cands as [|a rest IH]; intros bp md H.
  - simpl in H. injection H as <- _. now left.
  - destruct rest as [|b rest'].
    + simpl in H. injection H as <- _. now left.
    + rewrite best_pair_scan_cons in H.
      destruct (theta_of profiles a) as [e|ta]; [discriminate|].
      destruct (theta_of profiles b) as [e|tb]; [discriminate|].
      cbv beta match zeta delta [bind] in H.
      destruct (ltb (Qabs (ta - tb)) md).
      * apply IH in H. destruct H as [->|[Hw Hl]].
        -- right. split; [|reflexivity]. exists [], rest'. reflexivity.
        -- right. split; [now apply window_cons|exact Hl].
      * apply IH in H. destruct H as [->|[Hw Hl]]; [now left|].
        right. split; [now apply window_cons|exact Hl].
Qed.

Lemma best_pair_scan_ok (profiles : list profile) (cands bp : list nat) (md : Q) :
  valid profiles cands -> exists r, best_pair_scan profiles cands bp md = inr r.
Proof.
  revert bp md. induction cands as [|a rest IH]; intros bp md H.
  - eexists. reflexivity.
  - destruct rest as [|b rest'].
    + eexists. reflexivity.
    + rewrite best_pair_scan_cons. inversion H as [|? ? Ha Hr]; subst.
      inversion Hr as [|? ? Hb _]; subst.
      destruct (theta_of_ok _ _ Ha) as [ta ->]. destruct (theta_of_ok _ _ Hb) as [tb ->].
      cbv beta match zeta delta [bind].
      destruct (ltb (Qabs (ta - tb)) md); apply IH; exact Hr.
Qed.

Lemma best_window_scan_inr (profiles : list profile) (cands : list nat) (ms : Z)
    (starts : list nat) (bg : option (list nat)) (bv : option Q)
    (bg' : option (list nat)) (bv' : option Q) :
  best_window_scan profiles cands ms starts bg bv = inr (bg', bv') ->
  bg' = bg \/ exists g, bg' = Some g /\ window g cands.
Proof.
  revert bg bv. induction starts as [|start rest IH]; intros bg bv H.
  - simpl in H. injection H as <- _. now left.
  - cbn [best_window_scan] in H.
    destruct (variance_of profiles _) as [e|v]; [discriminate|].
    cbv beta match delta [bind] in H.
    destruct (lt_inf v bv).
    + apply IH in H. destruct H as [->|H]; [|now right].
      right. eexists. split; [reflexivity|apply window_slice].
    + apply IH in H. exact H.
Qed.

Lemma slice_length {A : Type} (l : list A) (start : nat) (ms : Z) :
  (0 <= ms)%Z -> (Z.of_nat start + ms <= Z.of_nat (List.length l))%Z ->
  List.length (slice l start (Z.of_nat start + ms)) = Z.to_nat ms.
Proof.
  intros H0 H. unfold slice.
  destruct (Z.ltb_spec (Z.of_nat start + ms) 0); [lia|].
  rewrite length_firstn, length_skipn. lia.
Qed.

Lemma best_window_scan_ok (profiles : list profile) (cands : list nat) (ms : Z)
    (starts : list nat) (bg : option (list nat)) (bv : option Q) :
  (1 <= ms)%Z -> valid profiles cands ->
  Forall (fun start => (Z.of_nat start + ms <= Z.of_nat (List.length cands))%Z) starts ->
  exists r, best_window_scan profiles cands ms starts bg bv = inr r.
Proof.
  intros Hms Hv. revert bg bv. induction starts as [|start rest IH]; intros bg bv H.
  - eexists. reflexivity.
  - cbn [best_window_scan]. inversion H as [|? ? Hs Hr]; subst.
    destruct (variance_of_ok profiles (slice cands start (Z.of_nat start + ms)))
      as [v Ev].
    + intros E. apply (f_equal (@List.length nat)) in E.
      rewrite slice_length in E by lia. simpl in E. lia.
    + eapply valid_incl; [apply window_incl, window_slice|exact Hv].
    + rewrite Ev. cbv beta match delta [bind].
      destruct (lt_inf v bv); apply IH; exact Hr.
Qed.

Lemma range_bound (n : Z) (ms : Z) (len : Z) :
  Forall (fun start => (Z.of_nat start + ms <= len)%Z) (range (len - ms + 1)).
Proof.
  apply Forall_forall. intros x Hx. unfold range in Hx. apply in_seq in Hx. lia.
Qed.

Lemma _find_best_group_fast_inr (cands : list nat) (profiles : list profile)
    (ms : Z) (min_score : Q) (g : list nat) :
  _find_best_group_fast cands profiles ms min_score = inr (Some g) ->
  window g cands /\ g <> [].
Proof.
  unfold _find_best_group_fast.
  destruct (Z.of_nat (List.length cands) <? ms)%Z; [discriminate|].
  destruct (ms =? 2)%Z.
  - destruct cands as [|c0 [|c1 rest]]; try discriminate.
    destruct (theta_of profiles c0) as [e|t0]; [discriminate|].
    destruct (theta_of profiles c1) as [e|t1]; [discriminate|].
    cbv beta match delta [bind].
    destruct (best_pair_scan _ _ _ _) as [e|[bp md]] eqn:E; [discriminate|].
    destruct (leb min_score _); [|discriminate].
    intros H. injection H as <-.
    apply best_pair_scan_inr in E. destruct E as [->|[Hw Hl]].
    + split; [exists [], rest; reflexivity|discriminate].
    + split; [exact Hw|]. intros ->. discriminate.
  - destruct (best_window_scan _ _ _ _ _ _) as [e|[bg bv]] eqn:E; [discriminate|].
    cbv beta match delta [bind].
    destruct bg as [[|x g']|]; try discriminate.
    destruct bv as [v|]; [|discriminate].
    destruct (leb min_score _); [|discriminate].
    intros H. injection H as <-.
    apply best_window_scan_inr in E. destruct E as [E|(g0 & E & Hw)]; [discriminate|].
    inversion E; subst g0. split; [exact Hw|discriminate].
Qed.

Lemma _find_best_group_fast_ok (cands : list nat) (profiles : list profile)
    (ms : Z) (min_score : Q) :
  (1 <= ms)%Z -> valid profiles cands ->
  exists r, _find_best_group_fast cands profiles ms min_score = inr r.
Proof.
  intros Hms Hv. unfold _find_best_group_fast.
  destruct (Z.of_nat (List.length cands) <? ms)%Z; [eexists; reflexivity|].
  destruct (ms =? 2)%Z.
  - destruct cands as [|c0 [|c1 rest]]; try (eexists; reflexivity).
    inversion Hv as [|? ? H0 Hr]; subst. inversion Hr as [|? ? H1 _]; subst.
    destruct (theta_of_ok _ _ H0) as [t0 ->]. destruct (theta_of_ok _ _ H1) as [t1 ->].
    cbv beta match delta [bind].
    destruct (best_pair_scan_ok profiles (c0 :: c1 :: rest) [c0; c1] (Qabs (t0 - t1)) Hv)
      as [[bp md] ->].
    destruct (leb min_score _); eexists; reflexivity.
  - destruct (best_window_scan_ok profiles cands ms
                (range (Z.of_nat (List.length cands) - ms + 1)) None None Hms Hv)
      as [[bg bv] ->].
    + apply range_bound. exact 0%Z.
    + cbv beta match delta [bind].
      destruct bg as [[|x g']|]; try (eexists; reflexivity).
      destruct bv as [v|]; [|eexists; reflexivity].
      destruct (leb min_score _); eexists; reflexivity.
Qed.


(** *** One match *)

Lemma players_at_inr (all_players : list player) (g : list nat) (ps : list player) :
  players_at all_players g = inr ps ->
  List.length ps = List.length g
  /\ Forall (fun i => (i < List.length all_players)%nat) g.
Proof.
  revert ps. induction g as [|i g IH]; intros ps H.
  - simpl in H. injection H as <-. split; [reflexivity|constructor].
  - cbn [players_at] in H.
    destruct (nth_error all_players i) as [p|] eqn:Ep; [|discriminate].
    cbv beta match delta [bind ret] in H.
    destruct (players_at all_players g) as [e|ps'] eqn:Eg; [discriminate|].
    injection H as <-. destruct (IH _ eq_refl) as [Hl Hf].
    split; [simpl; now rewrite Hl|].
    constructor; [|exact Hf]. apply nth_error_Some. congruence.
Qed.

Lemma players_at_ok (all_players : list player) (g : list nat) :
  Forall (fun i => (i < List.length all_players)%nat) g ->
  exists ps, players_at all_players g = inr ps.
Proof.
  induction 1 as [|i g Hi Hg IH].
  - eexists. reflexivity.
  - cbn [players_at]. destruct (nth_error all_players i) as [p|] eqn:Ep.
    + destruct IH as [ps ->]. eexists. reflexivity.
    + apply nth_error_None in Ep. lia.
Qed.

Lemma unit_score (v : Q) : 0 <= v -> 0 <= round (1.0 - Qmin (v * 4) 1.0) 3 <= 1.
Proof.
  intros Hv.
  assert (H : 0 <= 1.0 - Qmin (v * 4) 1.0 <= 1).
  { pose proof (Q.le_min_r (v * 4) 1.0) as H1.
    assert (H2 : 0 <= Qmin (v * 4) 1.0) by (apply Q.min_glb; lra).
    set (m := Qmin (v * 4) 1.0) in *. lra. }
  split.
  - apply (round_lower _ 0 3 0); [decimal|apply H].
  - apply (round_upper _ 1 3 1000); [decimal|apply H].
Qed.

Lemma _calculate_group_score_range (g : list nat) (profiles : list profile) (s : Q) :
  _calculate_group_score g profiles = inr s -> 0 <= s <= 1.
Proof.
  unfold _calculate_group_score. destruct (List.length g <? 2)%nat.
  - intros H. injection H as <-. lra.
  - destruct (variance_of profiles g) as [e|v] eqn:Ev; [discriminate|].
    intros H. injection H as <-. apply unit_score.
    apply variance_of_inr in Ev. apply Ev.
Qed.

Lemma _calculate_group_score_ok (g : list nat) (profiles : list profile) :
  valid profiles g -> exists s, _calculate_group_score g profiles = inr s.
Proof.
  intros Hv. unfold _calculate_group_score.
  destruct (List.length g <? 2)%nat eqn:E; [eexists; reflexivity|].
  destruct (variance_of_ok profiles g) as [v ->].
  - intros ->. discriminate.
  - exact Hv.
  - eexists. reflexivity.
Qed.

(** *** The matching loop *)

Lemma groups_app (a b : list match_) : groups (a ++ b) = groups a ++ groups b.
Proof. unfold groups. rewrite map_app, concat_app. reflexivity. Qed.

Lemma match_loop_step (fuel : nat) (all_players : list player)
    (profiles : list profile) (ms : Z) (min : Q) (tag : cluster_tag) (mt : string)
    (available : list nat) (matches : list match_) (matched : list nat) :
  match_loop (S fuel) all_players profiles ms min tag mt available matches matched =
  if (Z.of_nat (List.length available) <? ms)%Z then ret (matches, matched)
  else
    match_group <- _find_best_group_fast available profiles ms min ;;
    match match_group with
    | Some ((_ :: _) as g) =>
        if (Z.of_nat (List.length g) =? ms)%Z then
          ps <- players_at all_players g ;;
          score <- _calculate_group_score g profiles ;;
          let m := {| group := g; players := ps; cluster := tag;
                      match_score := score; match_type := mt |} in
          match_loop fuel all_players profiles ms min tag mt
            (filter (fun i => negb (mem i g)) available) (matches ++ [m]) (matched ++ g)
        else
          match available with
          | [] => raise IndexError
          | _ :: available' =>
              match_loop fuel all_players profiles ms min tag mt available' matches
                matched
          end
    | _ =>
        match available with
        | [] => raise IndexError
        | _ :: available' =>
            match_loop fuel all_players profiles ms min tag mt available' matches
              matched
        end
    end.
Proof. reflexivity. Qed.

Lemma added_weaken (tag : cluster_tag) (mt : string) (a b : list nat)
    (new : list match_) :
  incl a b -> added tag mt a new -> added tag mt b new.
Proof.
  intros Hi. unfold added. apply Forall_impl. intros m (H1 & H2 & H3).
  split; [exact H1|]. split; [exact H2|]. intros x Hx. apply Hi, H3, Hx.
Qed.

Lemma match_loop_inv (fuel : nat) (all_players : list player) (profiles : list profile)
    (ms : Z) (min : Q) (tag : cluster_tag) (mt : string) :
  forall (available : list nat) (matches : list match_) (matched : list nat)
         (r_matches : list match_) (r_matched : list nat),
  match_loop fuel all_players profiles ms min tag mt available matches matched
    = inr (r_matches, r_matched) ->
  NoDup available -> (forall i, In i available -> ~ In i matched) ->
  NoDup matched -> matched = groups matches ->
  Forall (good_match all_players ms) matches ->
  NoDup r_matched /\ r_matched = groups r_matches
  /\ Forall (good_match all_players ms) r_matches
  /\ exists new, r_matches = matches ++ new /\ added tag mt available new.
Proof.
  induction fuel as [|fuel IH];
    intros available matches matched r_matches r_matched H Hnd Hdis Hm Hg Hgood.
  - cbn [match_loop] in H.
    destruct (Z.of_nat (List.length available) <? ms)%Z; [|discriminate].
    injection H as <- <-. repeat split; try assumption.
    exists []. split; [now rewrite app_nil_r|constructor].
  - rewrite match_loop_step in H.
    destruct (Z.of_nat (List.length available) <? ms)%Z.
    { injection H as <- <-. repeat split; try assumption.
      exists []. split; [now rewrite app_nil_r|constructor]. }
    assert (Hpop : forall available',
              available = hd 0%nat available :: available' ->
              match_loop fuel all_players profiles ms min tag mt available' matches
                matched = inr (r_matches, r_matched) ->
              NoDup r_matched /\ r_matched = groups r_matches
              /\ Forall (good_match all_players ms) r_matches
              /\ exists new, r_matches = matches ++ new /\ added tag mt available new).
    { intros available' Ea H'. rewrite Ea in Hnd, Hdis.
      apply IH in H'; try assumption.
      - destruct H' as (H1 & H2 & H3 & new & H4 & H5).
        repeat split; try assumption. exists new. split; [exact H4|].
        rewrite Ea. eapply added_weaken; [|exact H5]. apply incl_tl, incl_refl.
      - now inversion Hnd.
      - intros i Hi. apply Hdis. now right. }
    destruct (_find_best_group_fast available profiles ms min) as [e|mg] eqn:Eg;
      [discriminate|].
    cbv beta match delta [bind] in H.
    destruct mg as [[|x g']|].
    + destruct available as [|a available']; [discriminate|].
      apply (Hpop available' eq_refl H).
    + set (g := x :: g') in *.
      destruct (_find_best_group_fast_inr _ _ _ _ _ Eg) as [Hw _].
      destruct (Z.of_nat (List.length g) =? ms)%Z eqn:El.
      * destruct (players_at all_players g) as [e|ps] eqn:Ep; [discriminate|].
        destruct (_calculate_group_score g profiles) as [e|score] eqn:Es;
          [discriminate|].
        cbv beta match zeta delta [bind] in H.
        set (m := {| group := g; players := ps; cluster := tag;
                     match_score := score; match_type := mt |}) in *.
        assert (Hin : incl g available) by now apply window_incl.
        apply IH in H.
        -- destruct H as (H1 & H2 & H3 & new & H4 & H5).
           repeat split; try assumption. exists (m :: new). split.
           ++ rewrite H4, <- app_assoc. reflexivity.
           ++ constructor.
              ** cbn [cluster match_type group m]. repeat split. exact Hin.
              ** eapply added_weaken; [|exact H5].
                 intros i Hi. apply filter_In in Hi. apply Hi.
        -- apply NoDup_filter. exact Hnd.
        -- intros i Hi Hc. apply filter_In in Hi. destruct Hi as [Hi Hf].
           apply negb_true_iff, mem_not_In in Hf.
           apply in_app_or in Hc. destruct Hc as [Hc|Hc]; [|contradiction].
           now apply (Hdis i).
        -- apply NoDup_app; [exact Hm|now apply (window_NoDup g available)|].
           intros i Hi Hc. apply (Hdis i); [apply Hin, Hc|exact Hi].
        -- rewrite groups_app, Hg. unfold groups at 3. cbn [map concat group m].
           now rewrite app_nil_r.
        -- apply Forall_app. split; [exact Hgood|]. constructor; [|constructor].
           unfold good_match. cbn [group players match_score m].
           split; [now apply Z.eqb_eq|]. split; [exact Ep|].
           now apply (_calculate_group_score_range g profiles).
      * destruct available as [|a available']; [discriminate|].
        apply (Hpop available' eq_refl H).
    + destruct available as [|a available']; [discriminate|].
      apply (Hpop available' eq_refl H).
Qed.

Lemma filter_shorter (g available : list nat) (x : nat) :
  In x g -> In x available ->
  (List.length (filter (fun i => negb (mem i g)) available) < List.length available)%nat.
Proof.
  intros Hg. induction available as [|a l IH]; intros Ha; [destruct Ha|].
  cbn [filter]. destruct (mem a g) eqn:Em; cbn [negb List.length].
  - pose proof (filter_length_le (fun i => negb (mem i g)) l). lia.
  - destruct Ha as [->|Ha].
    + apply mem_not_In in Em. contradiction.
    + specialize (IH Ha). lia.
Qed.

(** The loop ends within the fuel it is given, for groups of at least
    one player. *)
Lemma match_loop_ok (all_players : list player) (profiles : list profile)
    (ms : Z) (min : Q) (tag : cluster_tag) (mt : string) :
  (1 <= ms)%Z -> List.length all_players = List.length profiles ->
  forall (fuel : nat) (available : list nat) (matches : list match_)
         (matched : list nat),
  (List.length available < fuel)%nat -> valid profiles available ->
  exists r,
    match_loop fuel all_players profiles ms min tag mt available matches matched = inr r.
Proof.
  intros Hms Hlen. induction fuel as [|fuel IH]; intros available matches matched Hf Hv.
  - lia.
  - rewrite match_loop_step.
    destruct (Z.ltb_spec (Z.of_nat (List.length available)) ms) as [_|Hge];
      [eexists; reflexivity|].
    assert (Hpop : exists r,
              match available with
              | [] => raise IndexError
              | _ :: available' =>
                  match_loop fuel all_players profiles ms min tag mt available'
                    matches matched
              end = inr r).
    { destruct available as [|a available'].
      - simpl in Hge. lia.
      - apply IH; [simpl in Hf; lia|now inversion Hv]. }
    destruct (_find_best_group_fast_ok available profiles ms min Hms Hv) as [mg Eg].
    rewrite Eg. cbv beta match delta [bind].
    destruct mg as [[|x g']|]; try exact Hpop.
    set (g := x :: g') in *.
    destruct (_find_best_group_fast_inr _ _ _ _ _ Eg) as [Hw _].
    destruct (Z.of_nat (List.length g) =? ms)%Z; try exact Hpop.
    assert (Hin : incl g available) by (now apply window_incl).
    assert (Hvg : valid profiles g) by (now apply (valid_incl _ g available)).
    destruct (players_at_ok all_players g) as [ps ->]; [rewrite Hlen; exact Hvg|].
    destruct (_calculate_group_score_ok g profiles Hvg) as [score ->].
    cbv beta match zeta delta [bind].
    apply IH.
    + pose proof (filter_shorter g available x (or_introl eq_refl)
                    (Hin x (or_introl eq_refl))). lia.
    + apply (valid_incl _ _ available);
        [intros i Hi; apply filter_In in Hi; apply Hi|exact Hv].
Qed.


(** *** The clusters *)

Lemma sort_by_theta_inr (profiles : list profile) (l l' : list nat) :
  sort_by_theta profiles l = inr l' -> Permutation l' l /\ valid profiles l.
Proof.
  unfold sort_by_theta.
  set (keys := fix keys (l : list nat) : result (list (nat * Q)) :=
                 match l with
                 | [] => ret []
                 | i :: rest =>
                     t <- theta_of profiles i ;;
                     ks <- keys rest ;;
                     ret ((i, t) :: ks)
                 end).
  assert (Hk : forall l ks, keys l = inr ks -> map fst ks = l /\ valid profiles l).
  { clear l l'. induction l as [|i l IH]; intros ks H.
    - simpl in H. injection H as <-. split; [reflexivity|constructor].
    - cbn [keys] in H. fold keys in H.
      destruct (theta_of profiles i) as [e|t] eqn:Et; [discriminate|].
      cbv beta match delta [bind] in H.
      destruct (keys l) as [e|ks'] eqn:Ek; [discriminate|].
      injection H as <-. destruct (IH _ eq_refl) as [H1 H2].
      split; [cbn [map fst]; now rewrite H1|].
      constructor; [now apply theta_of_inr in Et|exact H2]. }
  destruct (keys l) as [e|ks] eqn:Ek; [discriminate|].
  cbv beta match delta [bind ret]. intros H. injection H as <-.
  destruct (Hk _ _ Ek) as [H1 H2]. split; [|exact H2].
  rewrite <- H1. apply Permutation_map, sort_by_perm.
Qed.

Lemma sort_by_theta_ok (profiles : list profile) (l : list nat) :
  valid profiles l -> exists l', sort_by_theta profiles l = inr l'.
Proof.
  intros Hv. unfold sort_by_theta.
  set (keys := fix keys (l : list nat) : result (list (nat * Q)) :=
                 match l with
                 | [] => ret []
                 | i :: rest =>
                     t <- theta_of profiles i ;;
                     ks <- keys rest ;;
                     ret ((i, t) :: ks)
                 end).
  assert (Hk : exists ks, keys l = inr ks).
  { induction Hv as [|i l Hi Hl IH].
    - eexists. reflexivity.
    - cbn [keys]. fold keys. destruct (theta_of_ok _ _ Hi) as [t ->].
      destruct IH as [ks ->]. eexists. reflexivity. }
  destruct Hk as [ks ->]. eexists. reflexivity.
Qed.

Lemma setdefault_append_perm (m : list (nat * list nat)) (c i : nat) :
  Permutation (concat (map snd (setdefault_append m c i))) (i :: concat (map snd m)).
Proof.
  induction m as [|[c' members] m IH]; cbn [setdefault_append].
  - reflexivity.
  - destruct (c' =? c)%nat; cbn [map snd concat].
    + rewrite <- app_assoc. cbn [app]. symmetry. apply Permutation_middle.
    + rewrite IH. symmetry. apply Permutation_middle.
Qed.

Lemma setdefault_append_In (m : list (nat * list nat)) (c i c' : nat)
    (members : list nat) (j : nat) :
  In (c', members) (setdefault_append m c i) -> In j members ->
  (exists members0, In (c', members0) m /\ In j members0) \/ (j = i /\ c' = c).
Proof.
  induction m as [|[c0 members0] m IH]; cbn [setdefault_append]; intros H Hj.
  - destruct H as [H|[]]. injection H as E1 E2. subst c' members.
    destruct Hj as [<-|[]]. now right.
  - destruct (c0 =? c)%nat eqn:Ec.
    + destruct H as [H|H].
      * injection H as E1 E2. subst c' members.
        apply in_app_or in Hj. destruct Hj as [Hj|[<-|[]]].
        -- left. exists members0. split; [now left|exact Hj].
        -- right. apply Nat.eqb_eq in Ec. now split.
      * left. exists members. split; [now right|exact Hj].
    + destruct H as [H|H].
      * injection H as E1 E2. subst c' members.
        left. exists members0. split; [now left|exact Hj].
      * destruct (IH H Hj) as [(m0 & H1 & H2)|H1]; [|now right].
        left. exists m0. split; [now right|exact H2].
Qed.

Lemma map_fst_combine {A B : Type} (a : list A) (b : list B) :
  List.length a = List.length b -> map fst (combine a b) = a.
Proof.
  revert b. induction a as [|x a IH]; intros [|y b] H; try discriminate.
  - reflexivity.
  - cbn [combine map fst]. f_equal. apply IH. now injection H.
Qed.

Lemma combine_seq_In (l : list nat) (s i c : nat) :
  In (i, c) (combine (seq s (List.length l)) l) ->
  (s <= i)%nat /\ nth_error l (i - s) = Some c.
Proof.
  revert s. induction l as [|x l IH]; intros s H; [destruct H|].
  cbn [List.length seq combine] in H. destruct H as [H|H].
  - injection H as <- <-. rewrite Nat.sub_diag. split; [lia|reflexivity].
  - apply IH in H. destruct H as [H1 H2]. split; [lia|].
    replace (i - s)%nat with (S (i - S s)) by lia. exact H2.
Qed.

Lemma build_cluster_map_spec (assignments : list nat) :
  Permutation (concat (map snd (build_cluster_map assignments)))
              (seq 0 (List.length assignments))
  /\ forall c members, In (c, members) (build_cluster_map assignments) ->
       Forall (fun i => nth_error assignments i = Some c) members.
Proof.
  unfold build_cluster_map.
  set (step := fun (m : list (nat * list nat)) '(idx, cluster_id) =>
                 setdefault_append m cluster_id idx).
  assert (H : forall pairs m,
             Permutation (concat (map snd (fold_left step pairs m)))
                         (rev (map fst pairs) ++ concat (map snd m))
             /\ forall c members j, In (c, members) (fold_left step pairs m) ->
                  In j members ->
                  (exists members0, In (c, members0) m /\ In j members0)
                  \/ In (j, c) pairs).
  { induction pairs as [|[i c] pairs IH]; intros m.
    - split; [reflexivity|]. intros c members j Hc Hj. left. now exists members.
    - cbn [fold_left]. destruct (IH (step m (i, c))) as [H1 H2]. split.
      + rewrite H1. cbn [map fst rev step]. rewrite setdefault_append_perm.
        rewrite <- app_assoc. cbn [app]. reflexivity.
      + intros c' members j Hc Hj.
        destruct (H2 _ _ _ Hc Hj) as [(m0 & H3 & H4)|H3]; [|right; now right].
        cbn [step] in H3.
        destruct (setdefault_append_In _ _ _ _ _ _ H3 H4) as [H5|[-> ->]];
          [now left|right; now left]. }
  destruct (H (combine (seq 0 (List.length assignments)) assignments) []) as [H1 H2].
  split.
  - rewrite H1. cbn [map concat]. rewrite app_nil_r.
    rewrite <- Permutation_rev.
    rewrite map_fst_combine; [reflexivity|]. now rewrite length_seq.
  - intros c members Hc. apply Forall_forall. intros j Hj.
    destruct (H2 _ _ _ Hc Hj) as [(m0 & [] & _)|H3].
    apply combine_seq_In in H3. rewrite Nat.sub_0_r in H3. apply H3.
Qed.

Lemma NoDup_concat_In {A : Type} (ls : list (list A)) (l : list A) :
  NoDup (concat ls) -> In l ls -> NoDup l.
Proof.
  induction ls as [|x ls IH]; intros H Hl; [destruct Hl|].
  cbn [concat] in H. destruct Hl as [->|Hl].
  - now apply NoDup_app_remove_r in H.
  - apply IH; [now apply NoDup_app_remove_l in H|exact Hl].
Qed.

Lemma sorted_items_filed (assignments : list nat) :
  filed assignments (sorted_items (build_cluster_map assignments)).
Proof.
  intros c members H. unfold sorted_items in H.
  apply (Permutation_in _ (sort_by_perm _ _)) in H.
  destruct (build_cluster_map_spec assignments) as [H1 H2]. split.
  - apply (NoDup_concat_In (map snd (build_cluster_map assignments))).
    + apply (Permutation_NoDup (Permutation_sym H1)). apply seq_NoDup.
    + apply in_map_iff. exists (c, members). now split.
  - now apply H2.
Qed.


Lemma cluster_pass_step (all_players : list player) (profiles : list profile)
    (ms : Z) (min : Q) (c : nat) (members : list nat) (rest : list (nat * list nat))
    (matches : list match_) (matched : list nat) :
  cluster_pass all_players profiles ms min ((c, members) :: rest) matches matched =
  (cluster_indices <- sort_by_theta profiles members ;;
   let available := filter (fun i => negb (mem i matched)) cluster_indices in
   '(matches, matched) <-
     match_loop (S (List.length available)) all_players profiles ms min (in_cluster c)
       "optimized_cluster" available matches matched ;;
   cluster_pass all_players profiles ms min rest matches matched).
Proof. reflexivity. Qed.

Lemma cluster_pass_inv (all_players : list player) (profiles : list profile)
    (ms : Z) (min : Q) (assignments : list nat) (items : list (nat * list nat)) :
  forall (matches : list match_) (matched : list nat) (r_matches : list match_)
         (r_matched : list nat),
  cluster_pass all_players profiles ms min items matches matched
    = inr (r_matches, r_matched) ->
  filed assignments items ->
  NoDup matched -> matched = groups matches ->
  Forall (good_match all_players ms) matches ->
  Forall (same_cluster assignments) matches ->
  NoDup r_matched /\ r_matched = groups r_matches
  /\ Forall (good_match all_players ms) r_matches
  /\ Forall (same_cluster assignments) r_matches.
Proof.
  induction items as [|[c members] items IH];
    intros matches matched r_matches r_matched H Hf Hnd Hg Hgood Hsame.
  - simpl in H. injection H as <- <-. repeat split; assumption.
  - rewrite cluster_pass_step in H.
    destruct (sort_by_theta profiles members) as [e|sorted] eqn:Es; [discriminate|].
    cbv beta match zeta delta [bind] in H.
    destruct (match_loop _ _ _ _ _ _ _ _ _ _) as [e|[matches1 matched1]] eqn:El;
      [discriminate|].
    apply sort_by_theta_inr in Es. destruct Es as [Hp _].
    destruct (Hf c members (or_introl eq_refl)) as [Hnm Ham].
    apply match_loop_inv in El; try assumption.
    + destruct El as (H1 & H2 & H3 & new & H4 & H5).
      apply IH in H; try assumption.
      * intros c' m' Hin. apply Hf. now right.
      * rewrite H4. apply Forall_app. split; [exact Hsame|].
        eapply Forall_impl; [|exact H5]. cbv beta. intros m (Hc & _ & Hi).
        unfold same_cluster. rewrite Hc. apply Forall_forall. intros i Hi'.
        apply Hi, filter_In in Hi'. destruct Hi' as [Hi' _].
        apply (Permutation_in _ Hp) in Hi'.
        rewrite Forall_forall in Ham. now apply Ham.
    + apply NoDup_filter. apply (Permutation_NoDup (Permutation_sym Hp)). exact Hnm.
    + intros i Hi. apply filter_In in Hi. destruct Hi as [_ Hi].
      now apply negb_true_iff, mem_not_In in Hi.
Qed.

Lemma cluster_pass_ok (all_players : list player) (profiles : list profile)
    (ms : Z) (min : Q) (items : list (nat * list nat)) :
  (1 <= ms)%Z -> List.length all_players = List.length profiles ->
  (forall c members, In (c, members) items -> valid profiles members) ->
  forall (matches : list match_) (matched : list nat),
  exists r, cluster_pass all_players profiles ms min items matches matched = inr r.
Proof.
  intros Hms Hlen. induction items as [|[c members] items IH]; intros Hv matches matched.
  - eexists. reflexivity.
  - rewrite cluster_pass_step.
    destruct (sort_by_theta_ok profiles members (Hv c members (or_introl eq_refl)))
      as [sorted Es].
    rewrite Es. cbv beta match zeta delta [bind].
    apply sort_by_theta_inr in Es. destruct Es as [Hp Hvm].
    set (available := filter _ sorted).
    destruct (match_loop_ok all_players profiles ms min (in_cluster c)
                "optimized_cluster" Hms Hlen (S (List.length available)) available
                matches matched) as [[matches1 matched1] ->].
    + lia.
    + apply (valid_incl _ _ sorted).
      * intros i Hi. apply filter_In in Hi. apply Hi.
      * unfold valid. apply (Permutation_Forall (Permutation_sym Hp)). exact Hvm.
    + apply IH. intros c' m' Hin. apply (Hv c'). now right.
Qed.


(** *** [find_matches] *)

Lemma prepare_player_data_lengths {M : MathLib} (players : list player) :
  let '(irt_data, data_points, player_profiles) := prepare_player_data players in
  List.length irt_data = List.length players
  /\ List.length data_points = List.length players
  /\ List.length player_profiles = List.length players.
Proof. unfold prepare_player_data. rewrite !length_map. repeat split. Qed.

Lemma find_matches_inv {M : MathLib} (self : MultiplayerMatchmaker)
    (players : list player) (ms : Z) (allow : bool) (min : Q) (g : rng)
    (self' : MultiplayerMatchmaker) (matches : list match_) (g' : rng) :
  find_matches self players ms allow min g = inr (self', matches, g') ->
  NoDup (groups matches) /\ Forall (good_match players ms) matches
  /\ forall r, clustering_of self players g = inr r ->
       Forall (same_cluster (assignments (snd (fst r)))) matches.
Proof.
  unfold find_matches, clustering_of.
  destruct (Z.of_nat (List.length players) <? ms)%Z.
  { intros H. injection H as _ <- _. repeat split; constructor. }
  unfold prepare_player_data. cbn [fst].
  set (rows := map prepare_player players).
  set (irt_data := map (fun r => fst (fst r)) rows).
  set (profiles := map snd rows).
  destruct (cluster_players self irt_data true g) as [e|[[self1 clustering] g1]] eqn:Ec;
    [discriminate|].
  cbv beta match delta [bind].
  set (a := assignments clustering).
  destruct (cluster_pass _ _ _ _ _ _ _) as [e|[matches1 matched1]] eqn:Ep;
    [discriminate|].
  cbv beta match delta [bind].
  apply (cluster_pass_inv _ _ _ _ a) in Ep;
    [|apply sorted_items_filed|constructor|reflexivity|constructor|constructor].
  destruct Ep as (H1 & H2 & H3 & H4).
  destruct allow.
  - destruct (sort_by_theta profiles _) as [e|remaining] eqn:Es; [discriminate|].
    cbv beta match delta [bind].
    destruct (match_loop _ _ _ _ _ _ _ _ _ _) as [e|[matches2 matched2]] eqn:El;
      [discriminate|].
    cbv beta match delta [bind ret]. intros H. injection H as _ <- _.
    apply sort_by_theta_inr in Es. destruct Es as [Hp _].
    apply match_loop_inv in El; try assumption.
    + destruct El as (H5 & H6 & H7 & new & H8 & H9).
      split; [now rewrite <- H6|]. split; [exact H7|].
      intros r Hr. injection Hr as <-. cbn [fst snd]. fold a.
      rewrite H8. apply Forall_app. split; [exact H4|].
      eapply Forall_impl; [|exact H9]. cbv beta. intros m (Hc & _).
      unfold same_cluster. now rewrite Hc.
    + apply (Permutation_NoDup (Permutation_sym Hp)).
      apply NoDup_filter, seq_NoDup.
    + intros i Hi. apply (Permutation_in _ Hp), filter_In in Hi.
      destruct Hi as [_ Hi]. now apply negb_true_iff, mem_not_In in Hi.
  - intros H. injection H as _ <- _.
    split; [now rewrite <- H2|]. split; [exact H3|].
    intros r Hr. injection Hr as <-. exact H4.
Qed.


Lemma cluster_players_fresh (self : MultiplayerMatchmaker) (irt_data : list dict)
    (use_cache : bool) (g : rng) :
  irt_data <> [] -> (1 <= max_iter self)%Z -> _clustering_cache self = [] ->
  exists self' r g',
    cluster_players self irt_data use_cache g = inr (self', r, g')
    /\ List.length (assignments r) = List.length irt_data.
Proof.
  intros Hne Hm Hc. unfold cluster_players. rewrite Hc. cbn [cache_get].
  set (k := if (Z.min _ _ <? 1)%Z then 1%Z else _).
  assert (Hk : (1 <= k)%Z).
  { unfold k. destruct (Z.ltb_spec (Z.min (k_clusters self)
                                      (Z.of_nat (List.length irt_data))) 1); lia. }
  destruct (kmeans_from_irt_total irt_data k (max_iter self) (tolerance self) g
              Hne Hk Hm) as (r & g' & E & Hl).
  assert (Hnone : (if use_cache then @None kmeans_result else None) = None)
    by (destruct use_cache; reflexivity).
  rewrite Hnone, E. cbv beta match delta [bind ret].
  eexists. exists r, g'. split; [reflexivity|exact Hl].
Qed.

Lemma filed_valid (assignments : list nat) (profiles : list profile)
    (items : list (nat * list nat)) :
  List.length assignments = List.length profiles -> filed assignments items ->
  forall c members, In (c, members) items -> valid profiles members.
Proof.
  intros Hl Hf c members Hin. destruct (Hf c members Hin) as [_ H].
  unfold valid. eapply Forall_impl; [|exact H]. cbv beta. intros i Hi.
  rewrite <- Hl. apply nth_error_Some. congruence.
Qed.

Lemma seq_valid (profiles : list profile) (f : nat -> bool) :
  valid profiles (filter f (seq 0 (List.length profiles))).
Proof.
  apply Forall_forall. intros i Hi. apply filter_In in Hi. destruct Hi as [Hi _].
  apply in_seq in Hi. lia.
Qed.

Lemma find_matches_total {M : MathLib} (self : MultiplayerMatchmaker)
    (players : list player) (ms : Z) (allow : bool) (min : Q) (g : rng) :
  (1 <= ms)%Z -> (1 <= max_iter self)%Z -> _clustering_cache self = [] ->
  exists self' matches g',
    find_matches self players ms allow min g = inr (self', matches, g').
Proof.
  intros Hms Hm Hc. unfold find_matches.
  destruct (Z.ltb_spec (Z.of_nat (List.length players)) ms) as [_|Hge].
  { eexists. eexists. eexists. reflexivity. }
  unfold prepare_player_data.
  set (rows := map prepare_player players).
  set (irt_data := map (fun r => fst (fst r)) rows).
  set (profiles := map snd rows).
  assert (Hlp : List.length players = List.length profiles)
    by (unfold profiles, rows; now rewrite !length_map).
  assert (Hli : List.length irt_data = List.length players)
    by (unfold irt_data, rows; now rewrite !length_map).
  assert (Hne : irt_data <> []).
  { intros E. rewrite E in Hli. simpl in Hli. lia. }
  destruct (cluster_players_fresh self irt_data true g Hne Hm Hc)
    as (self1 & r & g1 & -> & Hla).
  cbv beta match delta [bind].
  assert (Hv : forall c members,
             In (c, members) (sorted_items (build_cluster_map (assignments r))) ->
             valid profiles members).
  { apply (filed_valid (assignments r)); [congruence|apply sorted_items_filed]. }
  destruct (cluster_pass_ok players profiles ms min _ Hms Hlp Hv [] [])
    as [[matches1 matched1] ->].
  cbv beta match delta [bind].
  destruct allow; [|eexists; eexists; eexists; reflexivity].
  destruct (sort_by_theta_ok profiles
              (filter (fun i => negb (mem i matched1)) (seq 0 (List.length players))))
    as [remaining Es].
  { rewrite Hlp. apply seq_valid. }
  rewrite Es. cbv beta match delta [bind].
  apply sort_by_theta_inr in Es. destruct Es as [Hp Hvr].
  destruct (match_loop_ok players profiles ms min cross_cluster
              "optimized_cross_cluster" Hms Hlp (S (List.length remaining)) remaining
              matches1 matched1) as [[matches2 matched2] ->].
  - lia.
  - unfold valid. apply (Permutation_Forall (Permutation_sym Hp)). exact Hvr.
  - eexists. eexists. eexists. reflexivity.
Qed.

(** *** Groups of no player *)

Lemma variance_of_nil (profiles : list profile) :
  variance_of profiles [] = inl ZeroDivisionError.
Proof. reflexivity. Qed.

Lemma best_window_scan_raises (profiles : list profile) (cands : list nat) (ms : Z)
    (starts : list nat) (bg : option (list nat)) (bv : option Q) :
  valid profiles cands ->
  Exists (fun start => slice cands start (Z.of_nat start + ms) = []) starts ->
  best_window_scan profiles cands ms starts bg bv = inl ZeroDivisionError.
Proof.
  intros Hv. revert bg bv. induction starts as [|start rest IH]; intros bg bv H.
  - inversion H.
  - cbn [best_window_scan].
    destruct (slice cands start (Z.of_nat start + ms)) as [|x w] eqn:Ew.
    + reflexivity.
    + destruct (variance_of_ok profiles (x :: w)) as [v ->]; [discriminate| |].
      * rewrite <- Ew. eapply valid_incl; [apply window_incl, window_slice|exact Hv].
      * cbv beta match delta [bind].
        assert (Hr : Exists (fun start => slice cands start (Z.of_nat start + ms) = [])
                       rest).
        { inversion H as [? ? H0|? ? H0]; subst; [congruence|exact H0]. }
        destruct (lt_inf v bv); apply IH; exact Hr.
Qed.

Lemma _find_best_group_fast_nonpositive (cands : list nat) (profiles : list profile)
    (ms : Z) (min : Q) :
  (ms <= 0)%Z -> valid profiles cands ->
  _find_best_group_fast cands profiles ms min = inl ZeroDivisionError.
Proof.
  intros Hms Hv. unfold _find_best_group_fast.
  destruct (Z.ltb_spec (Z.of_nat (List.length cands)) ms) as [|_]; [lia|].
  destruct (Z.eqb_spec ms 2) as [|_]; [lia|].
  rewrite best_window_scan_raises; [reflexivity|exact Hv|].
  apply Exists_exists. exists (List.length cands). split.
  - unfold range. apply in_seq. lia.
  - unfold slice. rewrite skipn_all. apply firstn_nil.
Qed.

Lemma cluster_pass_nonpositive (all_players : list player) (profiles : list profile)
    (ms : Z) (min : Q) (items : list (nat * list nat)) (matches : list match_)
    (matched : list nat) :
  (ms <= 0)%Z -> items <> [] ->
  (forall c members, In (c, members) items -> valid profiles members) ->
  cluster_pass all_players profiles ms min items matches matched
  = inl ZeroDivisionError.
Proof.
  intros Hms Hne Hv. destruct items as [|[c members] items]; [contradiction|].
  rewrite cluster_pass_step.
  destruct (sort_by_theta_ok profiles members (Hv c members (or_introl eq_refl)))
    as [sorted Es].
  rewrite Es. cbv beta match zeta delta [bind].
  apply sort_by_theta_inr in Es. destruct Es as [Hp Hvm].
  set (available := filter _ sorted).
  rewrite match_loop_step.
  destruct (Z.ltb_spec (Z.of_nat (List.length available)) ms) as [|_]; [lia|].
  rewrite _find_best_group_fast_nonpositive; [reflexivity|exact Hms|].
  apply (valid_incl _ _ sorted).
  - intros i Hi. apply filter_In in Hi. apply Hi.
  - unfold valid. apply (Permutation_Forall (Permutation_sym Hp)). exact Hvm.
Qed.

Lemma find_matches_nonpositive {M : MathLib} (self : MultiplayerMatchmaker)
    (players : list player) (ms : Z) (allow : bool) (min : Q) (g : rng) :
  players <> [] -> (ms <= 0)%Z -> (1 <= max_iter self)%Z ->
  _clustering_cache self = [] ->
  find_matches self players ms allow min g = inl ZeroDivisionError.
Proof.
  intros Hpl Hms Hm Hc. unfold find_matches.
  destruct (Z.ltb_spec (Z.of_nat (List.length players)) ms) as [|_]; [lia|].
  unfold prepare_player_data.
  set (rows := map prepare_player players).
  set (irt_data := map (fun r => fst (fst r)) rows).
  set (profiles := map snd rows).
  assert (Hlp : List.length players = List.length profiles)
    by (unfold profiles, rows; now rewrite !length_map).
  assert (Hli : List.length irt_data = List.length players)
    by (unfold irt_data, rows; now rewrite !length_map).
  assert (Hne : irt_data <> []).
  { intros E. rewrite E in Hli. destruct players; [contradiction|discriminate]. }
  destruct (cluster_players_fresh self irt_data true g Hne Hm Hc)
    as (self1 & r & g1 & -> & Hla).
  cbv beta match delta [bind].
  rewrite cluster_pass_nonpositive; [reflexivity|exact Hms| |].
  - intros E. destruct (build_cluster_map_spec (assignments r)) as [H1 _].
    unfold sorted_items in E.
    pose proof (sort_by_perm (fun item : nat * list nat => inject_Z (Z.of_nat (fst item)))
                  (build_cluster_map (assignments r))) as Hs.
    rewrite E in Hs. apply Permutation_nil in Hs. rewrite Hs in H1.
    cbn [map concat] in H1. apply Permutation_nil in H1.
    apply (f_equal (@List.length nat)) in H1. rewrite length_seq in H1.
    destruct players; [contradiction|]. simpl in *. lia.
  - apply (filed_valid (assignments r)); [congruence|apply sorted_items_filed].
Qed.


(** *** The best group *)

Lemma best_pair_scan_min (profiles : list profile) (cands bp : list nat) (md : Q)
    (bp' : list nat) (md' : Q) :
  best_pair_scan profiles cands bp md = inr (bp', md') ->
  md' <= md
  /\ (forall pre x y post tx ty,
        cands = pre ++ x :: y :: post ->
        theta_of profiles x = inr tx -> theta_of profiles y = inr ty ->
        md' <= Qabs (tx - ty))
  /\ ((bp' = bp /\ md' = md)
      \/ exists a b ta tb,
           bp' = [a; b] /\ window [a; b] cands
           /\ theta_of profiles a = inr ta /\ theta_of profiles b = inr tb
           /\ md' = Qabs (ta - tb)).
Proof.
  revert bp md. induction cands as [|a rest IH]; intros bp md H.
  - simpl in H. injection H as <- <-. split; [apply Qle_refl|]. split; [|now left].
    intros [|? ?] x y post tx ty E; discriminate.
  - destruct rest as [|b rest'].
    + simpl in H. injection H as <- <-. split; [apply Qle_refl|]. split; [|now left].
      intros [|? [|? ?]] x y post tx ty E; discriminate.
    + rewrite best_pair_scan_cons in H.
      destruct (theta_of profiles a) as [e|ta] eqn:Ea; [discriminate|].
      destruct (theta_of profiles b) as [e|tb] eqn:Eb; [discriminate|].
      cbv beta match zeta delta [bind] in H.
      assert (Hadj : forall m : Q,
                m <= Qabs (ta - tb) ->
                (forall pre x y post tx ty,
                   b :: rest' = pre ++ x :: y :: post ->
                   theta_of profiles x = inr tx -> theta_of profiles y = inr ty ->
                   m <= Qabs (tx - ty)) ->
                forall pre x y post tx ty,
                  a :: b :: rest' = pre ++ x :: y :: post ->
                  theta_of profiles x = inr tx -> theta_of profiles y = inr ty ->
                  m <= Qabs (tx - ty)).
      { intros m Hm Hrest [|p pre] x y post tx ty E Hx Hy.
        - cbn [app] in E. injection E as <- <- _.
          rewrite Ea in Hx. rewrite Eb in Hy. injection Hx as <-. injection Hy as <-.
          exact Hm.
        - cbn [app] in E. injection E as _ E. now apply (Hrest pre x y post). }
      case_ltb (Qabs (ta - tb)) md.
      * apply IH in H. destruct H as (H1 & H2 & H3). split; [lra|]. split.
        -- apply Hadj; [exact H1|exact H2].
        -- right. destruct H3 as [[-> ->]|(a' & b' & ta' & tb' & -> & Hw & H3)].
           ++ exists a, b, ta, tb. repeat split; try assumption.
              exists [], rest'. reflexivity.
           ++ exists a', b', ta', tb'. split; [reflexivity|].
              split; [now apply window_cons|exact H3].
      * apply IH in H. destruct H as (H1 & H2 & H3). split; [exact H1|]. split.
        -- apply Hadj; [lra|exact H2].
        -- destruct H3 as [H3|(a' & b' & ta' & tb' & -> & Hw & H3)]; [now left|].
           right. exists a', b', ta', tb'. split; [reflexivity|].
           split; [now apply window_cons|exact H3].
Qed.

Lemma best_window_scan_min (profiles : list profile) (cands : list nat) (ms : Z)
    (starts seen : list nat) (bg : option (list nat)) (bv : option Q)
    (bg' : option (list nat)) (bv' : option Q) :
  best_window_scan profiles cands ms starts bg bv = inr (bg', bv') ->
  tightest profiles cands ms seen bg bv ->
  tightest profiles cands ms (seen ++ starts) bg' bv'.
Proof.
  revert seen bg bv. induction starts as [|start rest IH]; intros seen bg bv H Hinv.
  - simpl in H. injection H as <- <-. now rewrite app_nil_r.
  - cbn [best_window_scan] in H.
    destruct (variance_of profiles _) as [e|v] eqn:Ev; [discriminate|].
    cbv beta match delta [bind] in H.
    replace (seen ++ start :: rest) with ((seen ++ [start]) ++ rest)
      by (rewrite <- app_assoc; reflexivity).
    destruct bv as [b|]; cbn [lt_inf] in H.
    + destruct Hinv as (s0 & Hg & Hs0 & Hv0 & Hmin).
      case_ltb v b.
      * apply IH with (seen := seen ++ [start]) in H; [exact H|].
        exists start. split; [reflexivity|]. split; [apply in_or_app; right; now left|].
        split; [exact Ev|]. intros s v' Hs Hv'. apply in_app_or in Hs.
        destruct Hs as [Hs|[<-|[]]].
        -- specialize (Hmin s v' Hs Hv'). lra.
        -- rewrite Ev in Hv'. injection Hv' as <-. apply Qle_refl.
      * apply IH with (seen := seen ++ [start]) in H; [exact H|].
        exists s0. split; [exact Hg|]. split; [apply in_or_app; now left|].
        split; [exact Hv0|]. intros s v' Hs Hv'. apply in_app_or in Hs.
        destruct Hs as [Hs|[<-|[]]].
        -- now apply (Hmin s).
        -- rewrite Ev in Hv'. injection Hv' as <-. exact Hlt.
    + destruct Hinv as [-> ->].
      apply IH with (seen := [] ++ [start]) in H; [exact H|].
      exists start. split; [reflexivity|]. split; [now left|].
      split; [exact Ev|]. intros s v' [<-|[]] Hv'.
      rewrite Ev in Hv'. injection Hv' as <-. apply Qle_refl.
Qed.


(** *** The matches returned *)

(** X7.  Whatever the arguments, in the matches that [find_matches]
    returns no player index occurs twice: not in two matches and not
    twice in one. *)
Theorem find_matches_no_player_twice {M : MathLib} (self : MultiplayerMatchmaker)
    (players : list player) (match_size : Z) (allow_cross_cluster : bool)
    (min_match_score : Q) (g : rng) (self' : MultiplayerMatchmaker)
    (matches : list match_) (g' : rng) :
  find_matches self players match_size allow_cross_cluster min_match_score g
    = inr (self', matches, g') ->
  NoDup (groups matches).
Proof. intros H. apply (find_matches_inv _ _ _ _ _ _ _ _ _ H). Qed.

(** Four players in one cluster: players 0 and 1 are matched. *)
Lemma find_matches_no_player_twice_witness :
  exists self' matches g',
    find_matches (M := rational_math) (create_matchmaker 1) four_players 2 true 0.5
      zero_rng = inr (self', matches, g')
    /\ NoDup (groups matches).
Proof.
  destruct (find_matches (M := rational_math) (create_matchmaker 1) four_players 2 true
              0.5 zero_rng) as [e|[[s m] g]] eqn:E.
  - vm_compute in E. discriminate.
  - exists s, m, g. split; [reflexivity|].
    exact (find_matches_no_player_twice (M := rational_math) (create_matchmaker 1)
             four_players 2 true 0.5 zero_rng s m g E).
Defined.

(** X8.  Every match that [find_matches] returns is well formed:
    it lists exactly [match_size] players, they are the players of the
    input found at the indices of its group, in that order, and its
    [match_score] is between 0 and 1. *)
Theorem find_matches_groups_well_formed {M : MathLib}
    (self : MultiplayerMatchmaker) (players : list player) (match_size : Z)
    (allow_cross_cluster : bool) (min_match_score : Q) (g : rng)
    (self' : MultiplayerMatchmaker) (matches : list match_) (g' : rng) :
  find_matches self players match_size allow_cross_cluster min_match_score g
    = inr (self', matches, g') ->
  Forall (fun m => Z.of_nat (List.length (Multiplayer_Based.players m)) = match_size
                   /\ players_at players (group m) = inr (Multiplayer_Based.players m)
                   /\ 0 <= match_score m <= 1)
         matches.
Proof.
  intros H. destruct (find_matches_inv _ _ _ _ _ _ _ _ _ H) as (_ & Hg & _).
  eapply Forall_impl; [|exact Hg]. cbv beta. intros m (H1 & H2 & H3).
  split; [|split; [exact H2|exact H3]].
  apply players_at_inr in H2. destruct H2 as [H2 _]. now rewrite H2.
Qed.

Lemma find_matches_groups_well_formed_witness :
  exists self' matches g',
    find_matches (M := rational_math) (create_matchmaker 1) four_players 2 true 0.5
      zero_rng = inr (self', matches, g')
    /\ Forall (fun m => Z.of_nat (List.length (Multiplayer_Based.players m)) = 2%Z
                        /\ players_at four_players (group m)
                           = inr (Multiplayer_Based.players m)
                        /\ 0 <= match_score m <= 1)
              matches.
Proof.
  destruct (find_matches (M := rational_math) (create_matchmaker 1) four_players 2 true
              0.5 zero_rng) as [e|[[s m] g]] eqn:E.
  - vm_compute in E. discriminate.
  - exists s, m, g. split; [reflexivity|].
    exact (find_matches_groups_well_formed (M := rational_math)
             (create_matchmaker 1) four_players 2 true 0.5 zero_rng s m g E).
Defined.

(** X9.  A match that [find_matches] files under a cluster holds
    only players that the clustering of the call assigned to that
    cluster. *)
Theorem find_matches_cluster_matches_share_cluster {M : MathLib}
    (self : MultiplayerMatchmaker) (players : list player) (match_size : Z)
    (allow_cross_cluster : bool) (min_match_score : Q) (g : rng)
    (self' : MultiplayerMatchmaker) (matches : list match_) (g' : rng)
    (self1 : MultiplayerMatchmaker) (clustering : kmeans_result) (g1 : rng) :
  find_matches self players match_size allow_cross_cluster min_match_score g
    = inr (self', matches, g') ->
  clustering_of self players g = inr (self1, clustering, g1) ->
  Forall (same_cluster (assignments clustering)) matches.
Proof.
  intros H Hc. destruct (find_matches_inv _ _ _ _ _ _ _ _ _ H) as (_ & _ & Hs).
  apply (Hs _ Hc).
Qed.

Lemma find_matches_cluster_matches_share_cluster_witness :
  exists self' matches g' self1 clustering g1,
    find_matches (M := rational_math) (create_matchmaker 1) four_players 2 true 0.5
      zero_rng = inr (self', matches, g')
    /\ clustering_of (M := rational_math) (create_matchmaker 1) four_players zero_rng
       = inr (self1, clustering, g1)
    /\ Forall (same_cluster (assignments clustering)) matches.
Proof.
  destruct (find_matches (M := rational_math) (create_matchmaker 1) four_players 2 true
              0.5 zero_rng) as [e|[[s m] g]] eqn:E.
  - vm_compute in E. discriminate.
  - destruct (clustering_of (M := rational_math) (create_matchmaker 1) four_players
                zero_rng) as [e|[[s1 c] g1]] eqn:Ec.
    + vm_compute in Ec. discriminate.
    + exists s, m, g, s1, c, g1. split; [reflexivity|]. split; [reflexivity|].
      exact (find_matches_cluster_matches_share_cluster (M := rational_math)
               (create_matchmaker 1) four_players 2 true 0.5 zero_rng s m g s1 c g1
               E Ec).
Defined.

(** X10.  For groups of at least one player, a matchmaker with an
    empty cache and at least one clustering iteration allowed always
    returns a list of matches: no index is out of range, no division
    is by zero, and each matching loop ends. *)
Theorem find_matches_returns {M : MathLib} (self : MultiplayerMatchmaker)
    (players : list player) (match_size : Z) (allow_cross_cluster : bool)
    (min_match_score : Q) (g : rng) :
  (1 <= match_size)%Z -> (1 <= max_iter self)%Z -> _clustering_cache self = [] ->
  exists self' matches g',
    find_matches self players match_size allow_cross_cluster min_match_score g
    = inr (self', matches, g').
Proof. apply find_matches_total. Qed.

Lemma find_matches_returns_witness :
  exists self' matches g',
    find_matches (M := rational_math) (create_matchmaker 3) four_players 3 true 0.5
      counting_rng = inr (self', matches, g').
Proof.
  apply (find_matches_returns (M := rational_math) (create_matchmaker 3) four_players 3
           true 0.5 counting_rng).
  - lia.
  - simpl. lia.
  - reflexivity.
Defined.

(** X11.  With at least one player and a [match_size] of zero or
    less, [find_matches] does not return: the first search for a group
    divides by the length of an empty window and raises
    ZeroDivisionError. *)
Theorem find_matches_rejects_nonpositive_size {M : MathLib}
    (self : MultiplayerMatchmaker) (players : list player) (match_size : Z)
    (allow_cross_cluster : bool) (min_match_score : Q) (g : rng) :
  players <> [] -> (match_size <= 0)%Z -> (1 <= max_iter self)%Z ->
  _clustering_cache self = [] ->
  find_matches self players match_size allow_cross_cluster min_match_score g
  = inl ZeroDivisionError.
Proof. apply find_matches_nonpositive. Qed.

Lemma find_matches_rejects_nonpositive_size_witness :
  find_matches (M := rational_math) (create_matchmaker 3) four_players 0 true 0.5
    zero_rng = inl ZeroDivisionError.
Proof.
  apply (find_matches_rejects_nonpositive_size (M := rational_math)
           (create_matchmaker 3) four_players 0 true 0.5 zero_rng).
  - discriminate.
  - lia.
  - simpl. lia.
  - reflexivity.
Defined.


(** X12.  For pairs, the group that [_find_best_group_fast] returns
    is a pair of neighbours in the candidate list whose abilities are
    at least as close as those of any other pair of neighbours, and
    whose score [1 - min(gap, 1)] reaches [min_score]. *)
Theorem best_pair_is_closest (candidates : list nat) (profiles : list profile)
    (min_score : Q) (g : list nat) :
  _find_best_group_fast candidates profiles 2 min_score = inr (Some g) ->
  exists a b ta tb,
    g = [a; b] /\ window g candidates
    /\ theta_of profiles a = inr ta /\ theta_of profiles b = inr tb
    /\ min_score <= 1.0 - Qmin (Qabs (ta - tb)) 1.0
    /\ forall pre x y post tx ty,
         candidates = pre ++ x :: y :: post ->
         theta_of profiles x = inr tx -> theta_of profiles y = inr ty ->
         Qabs (ta - tb) <= Qabs (tx - ty).
Proof.
  unfold _find_best_group_fast.
  destruct (Z.of_nat (List.length candidates) <? 2)%Z; [discriminate|].
  change (2 =? 2)%Z with true. cbv beta match.
  destruct candidates as [|c0 [|c1 rest]]; try discriminate.
  destruct (theta_of profiles c0) as [e|t0] eqn:E0; [discriminate|].
  destruct (theta_of profiles c1) as [e|t1] eqn:E1; [discriminate|].
  cbv beta match delta [bind].
  destruct (best_pair_scan _ _ _ _) as [e|[bp md]] eqn:E; [discriminate|].
  cbv beta match zeta.
  case_leb min_score (1.0 - Qmin md 1.0); [|discriminate].
  intros H. injection H as <-.
  apply best_pair_scan_min in E. destruct E as (_ & Hmin & Hbp).
  destruct Hbp as [[-> ->]|(a & b & ta & tb & -> & Hw & Ha & Hb & ->)].
  - exists c0, c1, t0, t1. split; [reflexivity|].
    split; [exists [], rest; reflexivity|]. repeat split; assumption.
  - exists a, b, ta, tb. repeat split; assumption.
Qed.

(** The four players in the order of their indices: players 0 and 1
    are the closest neighbours. *)
Lemma best_pair_is_closest_witness :
  exists g a b ta tb,
    _find_best_group_fast [2; 0; 1; 3]%nat four_profiles 2 0.5 = inr (Some g)
    /\ g = [a; b] /\ window g [2; 0; 1; 3]%nat
    /\ theta_of four_profiles a = inr ta /\ theta_of four_profiles b = inr tb
    /\ 0.5 <= 1.0 - Qmin (Qabs (ta - tb)) 1.0
    /\ forall pre x y post tx ty,
         [2; 0; 1; 3]%nat = pre ++ x :: y :: post ->
         theta_of four_profiles x = inr tx -> theta_of four_profiles y = inr ty ->
         Qabs (ta - tb) <= Qabs (tx - ty).
Proof.
  destruct (_find_best_group_fast [2; 0; 1; 3]%nat four_profiles 2 0.5)
    as [e|[g|]] eqn:E.
  - vm_compute in E. discriminate.
  - destruct (best_pair_is_closest [2; 0; 1; 3]%nat four_profiles 0.5 g E)
      as (a & b & ta & tb & H).
    exists g, a, b, ta, tb. split; [reflexivity|exact H].
  - vm_compute in E. discriminate.
Defined.

(** X13.  For groups of a size other than two, the group that
    [_find_best_group_fast] returns is a run of exactly [match_size]
    consecutive candidates; no other such run has a smaller variance of
    abilities, and its score [1 - min(4 * variance, 1)] reaches
    [min_score]. *)
Theorem best_window_is_tightest (candidates : list nat) (profiles : list profile)
    (match_size : Z) (min_score : Q) (g : list nat) :
  (1 <= match_size)%Z -> match_size <> 2%Z ->
  _find_best_group_fast candidates profiles match_size min_score = inr (Some g) ->
  window g candidates /\ Z.of_nat (List.length g) = match_size
  /\ exists v,
       variance_of profiles g = inr v
       /\ min_score <= 1.0 - Qmin (v * 4) 1.0
       /\ forall start v',
            (Z.of_nat start + match_size <= Z.of_nat (List.length candidates))%Z ->
            variance_of profiles (slice candidates start (Z.of_nat start + match_size))
            = inr v' ->
            v <= v'.
Proof.
  intros Hms H2. unfold _find_best_group_fast.
  destruct (Z.of_nat (List.length candidates) <? match_size)%Z; [discriminate|].
  destruct (Z.eqb_spec match_size 2) as [|_]; [contradiction|].
  destruct (best_window_scan _ _ _ _ _ _) as [e|[bg bv]] eqn:E; [discriminate|].
  cbv beta match delta [bind].
  apply (best_window_scan_min _ _ _ _ []) in E; [|split; reflexivity].
  cbn [app] in E. unfold tightest in E.
  destruct bv as [v|].
  - destruct E as (start & -> & Hs & Hv & Hmin).
    pose proof (range_bound 0 match_size (Z.of_nat (List.length candidates))) as Hr.
    rewrite Forall_forall in Hr. specialize (Hr _ Hs).
    set (w := slice candidates start (Z.of_nat start + match_size)) in *.
    assert (Hl : List.length w = Z.to_nat match_size)
      by (apply slice_length; lia).
    destruct w as [|x w'] eqn:Ew; [discriminate|].
    cbv beta match zeta.
    case_leb min_score (1.0 - Qmin (v * 4) 1.0); [|discriminate].
    intros H. injection H as <-.
    split; [rewrite <- Ew; apply window_slice|]. split; [rewrite Hl; lia|].
    exists v. split; [exact Hv|]. split; [exact Hle|].
    intros s v' Hsb Hv'. apply (Hmin s v'); [|exact Hv'].
    unfold range. apply in_seq. lia.
  - destruct E as [-> _]. discriminate.
Qed.

(** The four players in groups of three. *)
Lemma best_window_is_tightest_witness :
  exists g,
    _find_best_group_fast [2; 0; 1; 3]%nat four_profiles 3 0 = inr (Some g)
    /\ window g [2; 0; 1; 3]%nat /\ Z.of_nat (List.length g) = 3%Z
    /\ exists v,
         variance_of four_profiles g = inr v
         /\ 0 <= 1.0 - Qmin (v * 4) 1.0
         /\ forall start v',
              (Z.of_nat start + 3 <= Z.of_nat (List.length [2; 0; 1; 3]%nat))%Z ->
              variance_of four_profiles (slice [2; 0; 1; 3]%nat start (Z.of_nat start + 3))
              = inr v' ->
              v <= v'.
Proof.
  destruct (_find_best_group_fast [2; 0; 1; 3]%nat four_profiles 3 0)
    as [e|[g|]] eqn:E.
  - vm_compute in E. discriminate.
  - exists g. split; [reflexivity|].
    apply (best_window_is_tightest [2; 0; 1; 3]%nat four_profiles 3 0 g);
      [lia|discriminate|exact E].
  - vm_compute in E. discriminate.
Defined.


(** *** The cache of clusterings *)

Lemma eqb_refl (x : Q) : eqb x x = true.
Proof. unfold eqb. apply Qeq_bool_iff. reflexivity. Qed.

Lemma cache_key_eqb_refl (key : cache_key) : cache_key_eqb key key = true.
Proof.
  induction key as [|[x y] key IH]; [reflexivity|].
  cbn [cache_key_eqb]. now rewrite !eqb_refl, IH.
Qed.

Lemma cluster_players_cached (self : MultiplayerMatchmaker) (irt_data : list dict)
    (g : rng) (self1 : MultiplayerMatchmaker) (r : kmeans_result) (g1 : rng) :
  cluster_players self irt_data true g = inr (self1, r, g1) ->
  forall g2, cluster_players self1 irt_data true g2 = inr (self1, r, g2).
Proof.
  unfold cluster_players.
  set (key := map _ irt_data).
  destruct (cache_get (_clustering_cache self) key) as [cached|] eqn:Ec.
  - intros H g2. injection H as <- <- _. rewrite Ec. reflexivity.
  - destruct (kmeans_from_irt _ _ _ _ _) as [e|[r' g']]; [discriminate|].
    cbv beta match delta [bind ret]. intros H g2. injection H as <- <- _.
    cbn [_clustering_cache cache_get]. rewrite cache_key_eqb_refl. reflexivity.
Qed.

(** Once [cluster_players] has answered for a list of IRT
    records, asking again for the same records returns the same
    clustering from the cache: the matchmaker is left as it is and no
    random number is drawn. *)
Theorem cluster_players_reuses_cache (self : MultiplayerMatchmaker)
    (irt_data : list dict) (g : rng) (self1 : MultiplayerMatchmaker)
    (r : kmeans_result) (g1 : rng) :
  cluster_players self irt_data true g = inr (self1, r, g1) ->
  forall g2, cluster_players self1 irt_data true g2 = inr (self1, r, g2).
Proof. apply cluster_players_cached. Qed.

Lemma cluster_players_reuses_cache_witness :
  exists self1 r g1,
    cluster_players (create_matchmaker 3) identical_rows true zero_rng
    = inr (self1, r, g1)
    /\ forall g2, cluster_players self1 identical_rows true g2 = inr (self1, r, g2).
Proof.
  destruct (cluster_players (create_matchmaker 3) identical_rows true zero_rng)
    as [e|[[s r] g]] eqn:E.
  - vm_compute in E. discriminate.
  - exists s, r, g. split; [reflexivity|].
    exact (cluster_players_reuses_cache (create_matchmaker 3) identical_rows zero_rng
             s r g E).
Defined.

(** X14.  Calling [find_matches] again on the matchmaker it left,
    with the same arguments, returns the same matches whatever the
    state of the random generator, draws nothing from it and leaves the
    matchmaker unchanged. *)
Theorem find_matches_again_is_same {M : MathLib} (self : MultiplayerMatchmaker)
    (players : list player) (match_size : Z) (allow_cross_cluster : bool)
    (min_match_score : Q) (g : rng) (self1 : MultiplayerMatchmaker)
    (matches : list match_) (g1 : rng) :
  find_matches self players match_size allow_cross_cluster min_match_score g
    = inr (self1, matches, g1) ->
  forall g2,
    find_matches self1 players match_size allow_cross_cluster min_match_score g2
    = inr (self1, matches, g2).
Proof.
  unfold find_matches.
  destruct (Z.of_nat (List.length players) <? match_size)%Z.
  { intros H g2. injection H as <- <- _. reflexivity. }
  unfold prepare_player_data.
  set (rows := map prepare_player players).
  set (irt_data := map (fun r => fst (fst r)) rows).
  set (profiles := map snd rows).
  destruct (cluster_players self irt_data true g) as [e|[[s1 c] g1']] eqn:Ec;
    [discriminate|].
  cbv beta match delta [bind].
  intros H g2.
  assert (Hs : self1 = s1).
  { destruct (cluster_pass _ _ _ _ _ _ _) as [e|[matches1 matched1]]; [discriminate|].
    cbv beta match delta [bind] in H. destruct allow_cross_cluster.
    - destruct (sort_by_theta profiles _) as [e|remaining]; [discriminate|].
      cbv beta match delta [bind] in H.
      destruct (match_loop _ _ _ _ _ _ _ _ _ _) as [e|[matches2 matched2]];
        [discriminate|].
      cbv beta match delta [bind ret] in H. now injection H.
    - now injection H. }
  subst self1. rewrite (cluster_players_cached _ _ _ _ _ _ Ec g2).
  cbv beta match delta [bind].
  destruct (cluster_pass _ _ _ _ _ _ _) as [e|[matches1 matched1]]; [discriminate|].
  cbv beta match delta [bind] in H |- *.
  destruct allow_cross_cluster.
  - destruct (sort_by_theta profiles _) as [e|remaining]; [discriminate|].
    cbv beta match delta [bind] in H |- *.
    destruct (match_loop _ _ _ _ _ _ _ _ _ _) as [e|[matches2 matched2]];
      [discriminate|].
    cbv beta match delta [bind ret] in H |- *.
    injection H as <- _. reflexivity.
  - injection H as <- _. reflexivity.
Qed.

Lemma find_matches_again_is_same_witness :
  exists self1 matches g1,
    find_matches (M := rational_math) (create_matchmaker 1) four_players 2 true 0.5
      zero_rng = inr (self1, matches, g1)
    /\ forall g2,
         find_matches (M := rational_math) self1 four_players 2 true 0.5 g2
         = inr (self1, matches, g2).
Proof.
  destruct (find_matches (M := rational_math) (create_matchmaker 1) four_players 2 true
              0.5 zero_rng) as [e|[[s m] g]] eqn:E.
  - vm_compute in E. discriminate.
  - exists s, m, g. split; [reflexivity|].
    exact (find_matches_again_is_same (M := rational_math) (create_matchmaker 1)
             four_players 2 true 0.5 zero_rng s m g E).
Defined.

End MultiplayerFacts.

(** ** The matchmaking service *)

Module ServiceMore.
Import Py PyFacts Multiplayer_Based Groups MultiplayerFacts matchmaking lobby examples.

Lemma fold_add_lengths (l : list match_) (acc : nat) :
  (forall m, In m l ->
     List.length (Multiplayer_Based.players m) = List.length (group m)) ->
  fold_left Nat.add (map (fun m => List.length (Multiplayer_Based.players m)) l) acc
  = (acc + List.length (groups l))%nat.
Proof.
  revert acc. induction l as [|m l IH]; intros acc H.
  - simpl. lia.
  - cbn [map fold_left]. rewrite IH by (intros m' Hm'; apply H; now right).
    unfold groups. cbn [map concat]. rewrite length_app.
    rewrite (H m (or_introl eq_refl)). lia.
Qed.

Lemma groups_length (l : list match_) (ms : Z) :
  (forall m, In m l -> Z.of_nat (List.length (group m)) = ms) ->
  Z.of_nat (List.length (groups l)) = (Z.of_nat (List.length l) * ms)%Z.
Proof.
  induction l as [|m l IH]; intros H.
  - reflexivity.
  - unfold groups in *. cbn [map concat List.length]. rewrite length_app.
    rewrite Nat2Z.inj_add, IH by (intros m' Hm'; apply H; now right).
    rewrite (H m (or_introl eq_refl)). lia.
Qed.

(** X15.  In a result of the [find_matches] request, the number of
    matched players is the number of matches times [match_size], and
    it is at most the number of players sent. *)
Theorem main_find_matches_counts {M : MathLib} (players : list player)
    (match_size : Z) (allow_cross_cluster : bool) (min_match_score : Q)
    (k_clusters : Z) (g : rng) (out : find_matches_output) :
  main_find_matches players match_size allow_cross_cluster min_match_score k_clusters g
    = inr out ->
  Z.of_nat (matched_players out) = (Z.of_nat (total_matches out) * match_size)%Z
  /\ (matched_players out <= total_players out)%nat.
Proof.
  unfold main_find_matches. destruct players as [|p players']; [discriminate|].
  set (players := p :: players').
  destruct (find_matches _ players _ _ _ _) as [e|[[s ms] g']] eqn:E; [discriminate|].
  cbv beta match delta [bind ret]. intros H. injection H as <-.
  cbn [matched_players total_matches total_players].
  destruct (find_matches_inv _ _ _ _ _ _ _ _ _ E) as (Hnd & Hgood & _).
  rewrite Forall_forall in Hgood.
  rewrite fold_add_lengths.
  2:{ intros m Hm. destruct (Hgood m Hm) as (_ & Hp & _).
      now apply players_at_inr in Hp. }
  cbn [Nat.add]. split.
  - apply groups_length. intros m Hm. apply (Hgood m Hm).
  - apply Nat.le_trans with (List.length (seq 0 (List.length players)));
      [|rewrite length_seq; apply Nat.le_refl].
    apply NoDup_incl_length; [exact Hnd|].
    intros i Hi. unfold groups in Hi. apply in_concat in Hi.
    destruct Hi as (l & Hl & Hi). apply in_map_iff in Hl.
    destruct Hl as (m & <- & Hm). destruct (Hgood m Hm) as (_ & Hp & _).
    apply players_at_inr in Hp. destruct Hp as [_ Hp].
    rewrite Forall_forall in Hp. apply in_seq. specialize (Hp i Hi). lia.
Qed.

Lemma main_find_matches_counts_witness :
  exists out,
    main_find_matches (M := rational_math) four_players 2 true 0.5 1 zero_rng = inr out
    /\ Z.of_nat (matched_players out) = (Z.of_nat (total_matches out) * 2)%Z
    /\ (matched_players out <= total_players out)%nat.
Proof.
  destruct (main_find_matches (M := rational_math) four_players 2 true 0.5 1 zero_rng)
    as [e|out] eqn:E.
  - vm_compute in E. discriminate.
  - exists out. split; [reflexivity|].
    exact (main_find_matches_counts (M := rational_math) four_players 2 true 0.5 1
             zero_rng out E).
Defined.

End ServiceMore.

(** ** More on the difficulty controller *)

Module DDAMore.
Import Py PyFacts MathFacts algo_config IRT_Algo DDA_Algo DDAFacts IRTFacts PuzzleFacts.
Import test_dda.




(** *** The direction of the move *)

Lemma clamp_beta_mono (x y : Q) : x <= y -> clamp_beta x <= clamp_beta y.
Proof.
  intros H. unfold clamp_beta, BETA_MIN, BETA_MAX.
  case_ltb x 0.1; case_ltb y 0.1; try lra;
    case_ltb 1.0 y; try lra; case_ltb 1.0 x; lra.
Qed.

Lemma _cap_step_up (old proposed : Q) :
  0.1 <= old <= 1.0 -> old <= proposed -> old <= _cap_step old proposed.
Proof.
  intros Ho H. unfold _cap_step, MAX_BETA_STEP.
  apply Qle_trans with (clamp_beta old);
    [rewrite (clamp_beta_id old Ho); apply Qle_refl|].
  case_ltb 0.15 (Qabs (proposed - old)).
  - apply clamp_beta_mono. case_ltb old proposed; [lra|].
    rewrite Qabs_pos in Hlt by lra. lra.
  - now apply clamp_beta_mono.
Qed.

Lemma _cap_step_down (old proposed : Q) :
  0.1 <= old <= 1.0 -> proposed <= old -> _cap_step old proposed <= old.
Proof.
  intros Ho H. unfold _cap_step, MAX_BETA_STEP.
  apply Qle_trans with (clamp_beta old);
    [|rewrite (clamp_beta_id old Ho); apply Qle_refl].
  case_ltb 0.15 (Qabs (proposed - old)).
  - apply clamp_beta_mono. case_ltb old proposed; lra.
  - now apply clamp_beta_mono.
Qed.

Section direction.
Context {M : MathLib} (HT : tanh_spec M) (HS : sqrt_spec M).
Variables (self : DDASystem) (beta_old : Q) (irt_output : dict).
Variables (success_count fail_count : Z) (target_performance adjustment_rate : Q).
Hypothesis factor_unit : 0 <= _momentum_factor self <= 1.
Hypothesis rate_nonneg : 0 <= adjustment_rate.

Let L := adjust_locals self beta_old irt_output success_count fail_count
           target_performance adjustment_rate.

(** The factor by which the raw adjustment is scaled. *)
Lemma scale_positive :
  exists c, 0 <= c /\ (l_gated L == 0 \/ l_gated L == c * l_performance_gap L).
Proof.
  pose proof (behavior_weight_bounds (Z.max 0 success_count) (Z.max 0 fail_count) HS)
    as Hw.
  pose proof (sensitivity_bounds (theta (l_irt_snapshot L))) as Hsens.
  exists (adjustment_rate * _calculate_sensitivity (theta (l_irt_snapshot L))
          * (1 + l_behavior_weight L * 0.3)).
  change (l_behavior_weight L)
    with (_calculate_behavior_weight (_fetch_success_metrics (Z.max 0 success_count))
            (_fetch_fail_metrics (Z.max 0 fail_count))).
  set (w := _calculate_behavior_weight _ _) in *.
  set (s := _calculate_sensitivity _) in *.
  split.
  { apply Qmult_le_0_compat; [apply Qmult_le_0_compat|]; lra. }
  assert (E : l_gated L
              = _enforce_stability_gate self (l_performance_gap L)
                  (_apply_behavior_weight
                     (adjustment_rate * l_performance_gap L * s) w))
    by reflexivity.
  rewrite E. unfold _enforce_stability_gate, _apply_behavior_weight.
  destruct (ltb _ _); [left; reflexivity|right; ring].
Qed.

Lemma slowed_sign (sgn : Q) :
  (sgn == 1 \/ sgn == -1) ->
  0 <= sgn * l_performance_gap L -> 0 <= sgn * _momentum self ->
  0 <= sgn * l_slowed L.
Proof.
  intros Hsgn Hgap Hmom. destruct scale_positive as (c & Hc & Hg).
  assert (Hgated : 0 <= sgn * l_gated L).
  { destruct Hg as [Hg|Hg]; rewrite Hg; [lra|].
    setoid_replace (sgn * (c * l_performance_gap L))
      with (c * (sgn * l_performance_gap L)) by ring.
    apply Qmult_le_0_compat; assumption. }
  assert (Em : _momentum (l_self_momentum L)
               = _momentum_factor self * _momentum self
                 + (1 - _momentum_factor self) * l_gated L) by reflexivity.
  assert (Ea : l_after_momentum L = l_gated L + _momentum (l_self_momentum L) * 0.5)
    by reflexivity.
  assert (Hm' : 0 <= sgn * _momentum (l_self_momentum L)).
  { rewrite Em.
    setoid_replace (sgn * (_momentum_factor self * _momentum self
                           + (1 - _momentum_factor self) * l_gated L))
      with (_momentum_factor self * (sgn * _momentum self)
            + (1 - _momentum_factor self) * (sgn * l_gated L)) by ring.
    set (f := _momentum_factor self) in *.
    set (a := sgn * _momentum self) in *. set (b := sgn * l_gated L) in *. nra. }
  assert (Hafter : 0 <= sgn * l_after_momentum L).
  { rewrite Ea. set (m := _momentum (l_self_momentum L)) in *.
    set (gt := l_gated L) in *. lra. }
  change (l_slowed L)
    with (_slow_if_recently_stable (l_self_momentum L) (l_beta_old L)
            (l_after_momentum L)).
  unfold _slow_if_recently_stable. destruct (_previous_beta (l_self_momentum L)) as [pb|]; [|exact Hafter].
  cbv zeta. destruct (ltb _ _); [|exact Hafter].
  set (a := l_after_momentum L) in *. lra.
Qed.

Lemma moves_up :
  0 <= l_performance_gap L -> 0 <= _momentum self -> l_beta_old L <= l_beta_new L.
Proof.
  intros Hgap Hmom.
  pose proof (slowed_sign 1 (or_introl (Qeq_refl 1)) ltac:(lra) ltac:(lra)) as Hs.
  assert (Hs' : 0 <= l_slowed L) by lra.
  pose proof (tanh_nonneg HT _ Hs') as Ht.
  pose proof (l_beta_old_range self beta_old irt_output success_count fail_count
                target_performance adjustment_rate) as Ho.
  fold L in Ho.
  assert (Hp : l_beta_old L <= l_proposed_beta L).
  { change (l_proposed_beta L) with (_propose_beta (l_beta_old L) (l_slowed L)).
    unfold _propose_beta. cbv zeta.
    apply Qle_trans with (clamp_beta (l_beta_old L));
      [rewrite (clamp_beta_id _ Ho); apply Qle_refl|].
    apply clamp_beta_mono. set (t := tanh _) in *. lra. }
  change (l_beta_new L)
    with (_preserve_on_perfect_performance (l_beta_old L) (l_capped L)
            (l_irt_snapshot L)).
  destruct (_preserve_cases (l_beta_old L) (l_capped L) (l_irt_snapshot L)) as [E|E];
    rewrite E; [apply Qle_refl|].
  change (l_capped L) with (_cap_step (l_beta_old L) (l_proposed_beta L)).
  now apply _cap_step_up.
Qed.

Lemma moves_down :
  l_performance_gap L <= 0 -> _momentum self <= 0 -> l_beta_new L <= l_beta_old L.
Proof.
  intros Hgap Hmom.
  pose proof (slowed_sign (-1) (or_intror (Qeq_refl (-1))) ltac:(lra) ltac:(lra)) as Hs.
  assert (Hs' : 0 <= - l_slowed L) by lra.
  pose proof (tanh_nonneg HT _ Hs') as Ht.
  rewrite (tanh_odd M HT) in Ht.
  pose proof (l_beta_old_range self beta_old irt_output success_count fail_count
                target_performance adjustment_rate) as Ho.
  fold L in Ho.
  assert (Hp : l_proposed_beta L <= l_beta_old L).
  { change (l_proposed_beta L) with (_propose_beta (l_beta_old L) (l_slowed L)).
    unfold _propose_beta. cbv zeta.
    apply Qle_trans with (clamp_beta (l_beta_old L));
      [|rewrite (clamp_beta_id _ Ho); apply Qle_refl].
    apply clamp_beta_mono. set (t := tanh _) in *. lra. }
  change (l_beta_new L)
    with (_preserve_on_perfect_performance (l_beta_old L) (l_capped L)
            (l_irt_snapshot L)).
  destruct (_preserve_cases (l_beta_old L) (l_capped L) (l_irt_snapshot L)) as [E|E];
    rewrite E; [apply Qle_refl|].
  change (l_capped L) with (_cap_step (l_beta_old L) (l_proposed_beta L)).
  now apply _cap_step_down.
Qed.

End direction.


Lemma round3_nonneg (x : Q) : 0 <= x -> 0 <= round x 3.
Proof. intros H. apply (round_lower x 0 3 0); [decimal|exact H]. Qed.

Lemma round3_nonpos (x : Q) : x <= 0 -> round x 3 <= 0.
Proof. intros H. apply (round_upper x 0 3 0); [decimal|exact H]. Qed.

(** X17.  With a momentum factor in [0, 1] and a non-negative
    adjustment rate, one call never moves the difficulty against the
    performance gap: if the probability of the snapshot is at most the
    target and the momentum carried over is not negative, the
    difficulty returned is not below the (rounded) difficulty given
    and the reported adjustment is not negative; the mirror image
    holds when the probability is at least the target and the momentum
    is not positive. *)
Theorem difficulty_follows_gap {M : MathLib} (self : DDASystem) (beta_old : Q)
    (irt_output : dict) (success_count fail_count : Z)
    (target_performance adjustment_rate : Q) :
  tanh_spec M -> sqrt_spec M ->
  0 <= _momentum_factor self <= 1 -> 0 <= adjustment_rate ->
  let out := adjust_difficulty self beta_old irt_output success_count fail_count
               target_performance adjustment_rate in
  let old := _sanitize_beta beta_old in
  let p := get irt_output "probability" 0.5 in
  (p <= target_performance -> 0 <= _momentum self ->
   round old 3 <= beta_new (snd out) /\ 0 <= adjustment_applied (snd out))
  /\ (target_performance <= p -> _momentum self <= 0 ->
      beta_new (snd out) <= round old 3 /\ adjustment_applied (snd out) <= 0).
Proof.
  intros HT HS Hf Hr. cbv zeta.
  rewrite out_beta_new, out_adjustment_applied.
  set (L := adjust_locals self beta_old irt_output success_count fail_count
              target_performance adjustment_rate).
  change (_sanitize_beta beta_old) with (l_beta_old L).
  assert (Eg : l_performance_gap L
               = target_performance - get irt_output "probability" 0.5)
    by reflexivity.
  split; intros Hp Hm.
  - assert (H : l_beta_old L <= l_beta_new L).
    { apply (moves_up HT HS); try assumption. fold L. rewrite Eg. lra. }
    split; [now apply round_mono|]. apply round3_nonneg. lra.
  - assert (H : l_beta_new L <= l_beta_old L).
    { apply (moves_down HT HS); try assumption. fold L. rewrite Eg. lra. }
    split; [now apply round_mono|]. apply round3_nonpos. lra.
Qed.

(** A new controller, once with a probability below the target and
    once above. *)
Lemma difficulty_follows_gap_witness :
  0 <= adjustment_applied
         (snd (adjust_difficulty (M := rational_math) (__init__ 0.05 0.6) 0.5
                 (make_irt 0.4 0.0) 1 4 0.7 0.1))
  /\ adjustment_applied
       (snd (adjust_difficulty (M := rational_math) (__init__ 0.05 0.6) 0.5
               (make_irt 0.9 0.0) 4 1 0.7 0.1)) <= 0.
Proof.
  split.
  - apply (proj1 (difficulty_follows_gap (M := rational_math) (__init__ 0.05 0.6) 0.5
                    (make_irt 0.4 0.0) 1 4 0.7 0.1 rational_math_tanh
                    rational_math_sqrt ltac:(simpl; lra) ltac:(lra)));
      simpl; lra.
  - apply (proj2 (difficulty_follows_gap (M := rational_math) (__init__ 0.05 0.6) 0.5
                    (make_irt 0.9 0.0) 4 1 0.7 0.1 rational_math_tanh
                    rational_math_sqrt ltac:(simpl; lra) ltac:(lra)));
      simpl; lra.
Defined.

(** *** Momentum *)

(** X18.  With a momentum factor in [0, 1], the momentum that a call
    leaves in the controller is bounded by any bound that holds for
    the momentum it found and for 1.95 times the size of
    [adjustment_rate * (target - probability)]: the momentum cannot
    grow beyond what the gaps put in. *)
Theorem momentum_stays_bounded {M : MathLib} (self : DDASystem) (beta_old : Q)
    (irt_output : dict) (success_count fail_count : Z)
    (target_performance adjustment_rate bound : Q) :
  sqrt_spec M -> 0 <= _momentum_factor self <= 1 ->
  Qabs (_momentum self) <= bound ->
  1.95 * Qabs (adjustment_rate
               * (target_performance - get irt_output "probability" 0.5)) <= bound ->
  Qabs (_momentum (fst (adjust_difficulty self beta_old irt_output success_count
                          fail_count target_performance adjustment_rate))) <= bound.
Proof.
  intros HS Hf Hm Hx. rewrite out_momentum.
  set (L := adjust_locals self beta_old irt_output success_count fail_count
              target_performance adjustment_rate).
  pose proof (behavior_weight_bounds (Z.max 0 success_count) (Z.max 0 fail_count) HS)
    as Hw.
  pose proof (sensitivity_bounds (theta (l_irt_snapshot L))) as Hsens.
  assert (Em : _momentum (l_self_momentum L)
               = _momentum_factor self * _momentum self
                 + (1 - _momentum_factor self) * l_gated L) by reflexivity.
  assert (Eg : l_gated L
               = _enforce_stability_gate self (l_performance_gap L)
                   (_apply_behavior_weight
                      (adjustment_rate
                       * (target_performance - get irt_output "probability" 0.5)
                       * _calculate_sensitivity (theta (l_irt_snapshot L)))
                      (_calculate_behavior_weight
                         (_fetch_success_metrics (Z.max 0 success_count))
                         (_fetch_fail_metrics (Z.max 0 fail_count)))))
    by reflexivity.
  set (w := _calculate_behavior_weight _ _) in *.
  set (s := _calculate_sensitivity _) in *.
  set (x := adjustment_rate * _) in *.
  assert (Hb : 0 <= bound) by (pose proof (Qabs_nonneg (_momentum self)); lra).
  apply Qabs_le_iff in Hm.
  assert (Hx' : - bound <= 1.95 * x <= bound).
  { assert (H : Qabs x <= bound * (100 # 195)) by lra.
    apply Qabs_le_iff in H. lra. }
  assert (Hgated : - bound <= l_gated L <= bound).
  { rewrite Eg. unfold _enforce_stability_gate, _apply_behavior_weight.
    destruct (ltb _ _); [lra|].
    set (c := s * (1 + w * 0.3)).
    assert (Hc : 0 <= c <= 1.95) by (unfold c; split; nra).
    setoid_replace (x * s * (1 + w * 0.3)) with (x * c) by (unfold c; ring).
    destruct (Qlt_le_dec x 0); split; nra. }
  rewrite Em. apply Qabs_le_iff.
  set (f := _momentum_factor self) in *. set (m := _momentum self) in *.
  set (gt := l_gated L) in *. split; nra.
Qed.

Lemma momentum_stays_bounded_witness :
  Qabs (_momentum (fst (adjust_difficulty (M := rational_math) (__init__ 0.05 0.6) 0.5
                          (make_irt 0.4 0.0) 1 4 0.7 0.1))) <= 0.06.
Proof.
  apply (momentum_stays_bounded (M := rational_math) (__init__ 0.05 0.6) 0.5
           (make_irt 0.4 0.0) 1 4 0.7 0.1 0.06 rational_math_sqrt).
  - simpl. lra.
  - vm_compute. discriminate.
  - vm_compute. discriminate.
Defined.

(** *** Sensitivity and behaviour weight *)

(** The sensitivity of the controller to the performance gap
    lies between 0.5 and 1.5 and does not increase with the ability:
    the abler the player, the smaller the step. *)
Theorem sensitivity_decreases_with_ability (theta1 theta2 : Q) :
  theta1 <= theta2 ->
  0.5 <= _calculate_sensitivity theta2
  /\ _calculate_sensitivity theta2 <= _calculate_sensitivity theta1
  /\ _calculate_sensitivity theta1 <= 1.5.
Proof.
  intros H. split; [apply sensitivity_bounds|]. split; [|apply sensitivity_bounds].
  unfold _calculate_sensitivity. cbv zeta.
  assert (Hc : Qmax (-3.0) (Qmin 3.0 theta1) <= Qmax (-3.0) (Qmin 3.0 theta2)).
  { apply Q.max_le_compat_l. apply Q.min_le_compat_l. exact H. }
  set (c1 := Qmax _ (Qmin _ theta1)) in *. set (c2 := Qmax _ (Qmin _ theta2)) in *.
  setoid_replace (c1 / 6.0) with (c1 * (1 # 6)) by field.
  setoid_replace (c2 / 6.0) with (c2 * (1 # 6)) by field.
  lra.
Qed.

Lemma sensitivity_decreases_with_ability_witness :
  0.5 <= _calculate_sensitivity 2
  /\ _calculate_sensitivity 2 <= _calculate_sensitivity (-1)
  /\ _calculate_sensitivity (-1) <= 1.5.
Proof. apply (sensitivity_decreases_with_ability (-1) 2). lra. Defined.

(** For every pair of counts, as long as [math.sqrt] maps
    [0, 1] into itself, the metrics that a response reports lie in
    their ranges: success rate and consistency in [0, 1], the fail
    penalty in [0, 0.12], and the behaviour weight in [-0.06, 1]. *)
Theorem response_metrics_in_range {M : MathLib} (self : DDASystem) (beta_old : Q)
    (irt_output : dict) (success_count fail_count : Z)
    (target_performance adjustment_rate : Q) :
  sqrt_spec M ->
  let r := snd (adjust_difficulty self beta_old irt_output success_count fail_count
                  target_performance adjustment_rate) in
  0 <= r_success_rate r <= 1 /\ 0 <= r_consistency r <= 1
  /\ 0 <= fail_penalty r <= 0.12 /\ -0.06 <= behavior_weight r <= 1.
Proof.
  intros HS. cbv zeta.
  pose proof (success_metrics_bounds (Z.max 0 success_count) HS) as [H1 H2].
  pose proof (fail_metrics_bounds (Z.max 0 fail_count) HS) as H3.
  pose proof (behavior_weight_bounds (Z.max 0 success_count) (Z.max 0 fail_count) HS)
    as H4.
  split; [exact H1|]. split; [exact H2|]. split; [exact H3|].
  change (behavior_weight (snd (adjust_difficulty self beta_old irt_output
                                  success_count fail_count target_performance
                                  adjustment_rate)))
    with (round (_calculate_behavior_weight
                   (_fetch_success_metrics (Z.max 0 success_count))
                   (_fetch_fail_metrics (Z.max 0 fail_count))) 3).
  set (w := _calculate_behavior_weight _ _) in *. split.
  - apply (round_lower w (-0.06) 3 (-60)); [decimal|apply H4].
  - apply (round_upper w 1 3 1000); [decimal|apply H4].
Qed.

Lemma response_metrics_in_range_witness :
  let r := snd (adjust_difficulty (M := rational_math) (__init__ 0.05 0.6) 0.5
                  (make_irt 0.4 0.0) 1 4 0.7 0.1) in
  0 <= r_success_rate r <= 1 /\ 0 <= r_consistency r <= 1
  /\ 0 <= fail_penalty r <= 0.12 /\ -0.06 <= behavior_weight r <= 1.
Proof.
  apply (response_metrics_in_range (M := rational_math) (__init__ 0.05 0.6) 0.5
           (make_irt 0.4 0.0) 1 4 0.7 0.1 rational_math_sqrt).
Defined.

End DDAMore.

(** ** More on the probability model *)

Module IRTMore.
Import Py PyFacts MathFacts IRT_Bases IRT_Algo DDAFacts IRTFacts.

(** X19.  The sigmoid of the model is symmetric about one half:
    [_sigmoid(-x) = 1 - _sigmoid(x)], the saturated branches
    included. *)
Theorem sigmoid_symmetric {M : MathLib} (x : Q) :
  tanh_spec M -> _sigmoid (- x) == 1 - _sigmoid x.
Proof.
  intros HT. unfold _sigmoid.
  case_ltb x (-20).
  - case_ltb (- x) (-20); [lra|]. case_ltb 20 (- x); lra.
  - case_ltb 20 x.
    + case_ltb (- x) (-20); lra.
    + case_ltb (- x) (-20); [lra|]. case_ltb 20 (- x); [lra|].
      assert (E : - x / 2.0 == - (x / 2.0)) by field.
      rewrite (tanh_comp M HT _ _ E), (tanh_odd M HT). ring.
Qed.

Lemma sigmoid_symmetric_witness :
  _sigmoid (M := rational_math) (- 3) == 1 - _sigmoid (M := rational_math) 3.
Proof. apply (sigmoid_symmetric (M := rational_math) 3 rational_math_tanh). Defined.

Lemma _sigmoid_upper_half {M : MathLib} (x : Q) :
  tanh_spec M -> 0 <= x -> 0.5 <= _sigmoid x <= 1.
Proof.
  intros HT Hx. split; [|now apply _sigmoid_range].
  unfold _sigmoid. case_ltb x (-20); [lra|]. case_ltb 20 x; [lra|].
  assert (H : 0 <= x / 2.0).
  { setoid_replace (x / 2.0) with (x * (1 # 2)) by field. lra. }
  pose proof (tanh_nonneg HT _ H). lra.
Qed.

Lemma _sigmoid_lower_half {M : MathLib} (x : Q) :
  tanh_spec M -> x <= 0 -> 0 <= _sigmoid x <= 0.5.
Proof.
  intros HT Hx. split; [now apply _sigmoid_range|].
  unfold _sigmoid. case_ltb x (-20); [lra|]. case_ltb 20 x; [lra|].
  assert (H : 0 <= - (x / 2.0)).
  { setoid_replace (x / 2.0) with (x * (1 # 2)) by field. lra. }
  pose proof (tanh_nonneg HT _ H) as Ht. rewrite (tanh_odd M HT) in Ht. lra.
Qed.

(** X20.  With a non-negative scaling factor [D], the probability of
    success is at least one half when the ability is at least the
    difficulty and at most one half when it is at most the difficulty;
    it is always between 0 and 1. *)
Theorem compute_probability_side {M : MathLib} (self : IRTModel) (theta beta : Q) :
  tanh_spec M -> 0 <= D self ->
  (beta <= theta -> 0.5 <= compute_probability self theta beta <= 1)
  /\ (theta <= beta -> 0 <= compute_probability self theta beta <= 0.5).
Proof.
  intros HT HD. unfold compute_probability. split; intros H.
  - assert (Hx : 0 <= D self * (theta - beta)) by (apply Qmult_le_0_compat; lra).
    pose proof (_sigmoid_upper_half _ HT Hx) as [H1 H2]. split.
    + apply (round_lower _ 0.5 4 5000); [decimal|exact H1].
    + apply (round_upper _ 1 4 10000); [decimal|exact H2].
  - assert (Hx : D self * (theta - beta) <= 0).
    { assert (0 <= D self * (beta - theta)) by (apply Qmult_le_0_compat; lra).
      setoid_replace (D self * (theta - beta)) with (- (D self * (beta - theta)))
        by ring. lra. }
    pose proof (_sigmoid_lower_half _ HT Hx) as [H1 H2]. split.
    + apply (round_lower _ 0 4 0); [decimal|exact H1].
    + apply (round_upper _ 0.5 4 5000); [decimal|exact H2].
Qed.

Lemma compute_probability_side_witness :
  0.5 <= compute_probability (M := rational_math) IRTModel_default 1 0.5 <= 1
  /\ 0 <= compute_probability (M := rational_math) IRTModel_default 0 0.5 <= 0.5.
Proof.
  split.
  - apply (proj1 (compute_probability_side (M := rational_math) IRTModel_default 1 0.5
                    rational_math_tanh ltac:(simpl; lra))). lra.
  - apply (proj2 (compute_probability_side (M := rational_math) IRTModel_default 0 0.5
                    rational_math_tanh ltac:(simpl; lra))). lra.
Defined.

(** *** The ability update *)

Lemma ratio_unit (s f : Z) :
  (0 <= s)%Z -> (0 <= f)%Z -> (s + f <> 0)%Z ->
  0 <= inject_Z s / inject_Z (s + f) <= 1.
Proof.
  intros Hs Hf Ht.
  assert (Hpos : 0 < inject_Z (s + f)).
  { change 0 with (inject_Z 0). rewrite <- Zlt_Qlt. lia. }
  assert (Hs' : 0 <= inject_Z s) by (change 0 with (inject_Z 0); rewrite <- Zle_Qle; lia).
  assert (Hle : inject_Z s <= inject_Z (s + f)) by (rewrite <- Zle_Qle; lia).
  split.
  - apply Qle_shift_div_l; [exact Hpos|]. lra.
  - apply Qle_shift_div_r; [exact Hpos|]. lra.
Qed.

Lemma ratio_half (s f : Z) :
  (0 <= s)%Z -> (0 <= f)%Z -> (s + f <> 0)%Z ->
  ((f <= s)%Z -> 0.5 <= inject_Z s / inject_Z (s + f))
  /\ ((s <= f)%Z -> inject_Z s / inject_Z (s + f) <= 0.5).
Proof.
  intros Hs Hf Ht.
  assert (Hpos : 0 < inject_Z (s + f)).
  { change 0 with (inject_Z 0). rewrite <- Zlt_Qlt. lia. }
  assert (E : inject_Z (s + f) == inject_Z s + inject_Z f)
    by (rewrite inject_Z_plus; reflexivity).
  split; intros H.
  - apply Qle_shift_div_l; [exact Hpos|].
    assert (inject_Z f <= inject_Z s) by (rewrite <- Zle_Qle; lia). lra.
  - apply Qle_shift_div_r; [exact Hpos|].
    assert (inject_Z s <= inject_Z f) by (rewrite <- Zle_Qle; lia). lra.
Qed.

Lemma _clamp3_id (v : Q) : -3 <= v <= 3 -> _clamp3 v == v.
Proof.
  intros [Hl Hu]. unfold _clamp3, _clamp.
  rewrite (Q.min_r 3.0 v) by lra. apply Q.max_r. lra.
Qed.

Lemma _clamp3_mono (x y : Q) : x <= y -> _clamp3 x <= _clamp3 y.
Proof.
  intros H. unfold _clamp3, _clamp.
  apply Q.max_le_compat_l. apply Q.min_le_compat_l. exact H.
Qed.

(** X21.  For an ability in [-3, 3], counts that are not negative
    and a learning rate that is not negative, [update_ability] moves
    the ability by at most half the learning rate and keeps it in
    [-3, 3]; it does not lower it when the successes are at least the
    failures, and does not raise it when they are at most the
    failures. *)
Theorem update_ability_step (theta : Q) (success_count fail_count : Z)
    (learning_rate : Q) :
  -3 <= theta <= 3 -> (0 <= success_count)%Z -> (0 <= fail_count)%Z ->
  0 <= learning_rate ->
  let theta' := update_ability theta success_count fail_count learning_rate in
  -3 <= theta' <= 3
  /\ Qabs (theta' - theta) <= learning_rate / 2
  /\ ((fail_count <= success_count)%Z -> theta <= theta')
  /\ ((success_count <= fail_count)%Z -> theta' <= theta).
Proof.
  intros Ht Hs Hf Hl. cbv zeta. unfold update_ability.
  assert (Eh : learning_rate / 2 == learning_rate * (1 # 2)) by field.
  destruct (Z.eqb_spec (success_count + fail_count) 0) as [E|E].
  - split; [exact Ht|]. split.
    + setoid_replace (theta - theta) with 0 by ring. rewrite Eh. simpl. lra.
    + split; intros _; apply Qle_refl.
  - cbv zeta.
    pose proof (ratio_unit success_count fail_count Hs Hf E) as Hr.
    pose proof (ratio_half success_count fail_count Hs Hf E) as [Hup Hdown].
    set (r := inject_Z success_count / inject_Z (success_count + fail_count)) in *.
    pose proof (_clamp3_id theta Ht) as Eid.
    split; [apply _clamp3_range|]. split; [|split].
    + rewrite Eh. apply Qabs_le_iff.
      assert (H1 : (r - 0.5) * learning_rate <= learning_rate * (1 # 2)) by nra.
      assert (H2 : - (learning_rate * (1 # 2)) <= (r - 0.5) * learning_rate) by nra.
      pose proof (_clamp3_mono (theta - learning_rate * (1 # 2))
                    (theta + (r - 0.5) * learning_rate) ltac:(lra)) as Hlo.
      pose proof (_clamp3_mono (theta + (r - 0.5) * learning_rate)
                    (theta + learning_rate * (1 # 2)) ltac:(lra)) as Hhi.
      pose proof (_clamp3_bounds (theta - learning_rate * (1 # 2))
                    (theta - learning_rate * (1 # 2)) theta) as Hb1.
      assert (Hlo' : theta - learning_rate * (1 # 2)
                     <= _clamp3 (theta + (r - 0.5) * learning_rate)).
      { apply Qle_trans with (_clamp3 (theta - learning_rate * (1 # 2)));
          [|exact Hlo].
        unfold _clamp3, _clamp.
        apply Qle_trans with (Qmin 3.0 (theta - learning_rate * (1 # 2)));
          [apply Q.min_glb; lra|apply Q.le_max_r]. }
      assert (Hhi' : _clamp3 (theta + (r - 0.5) * learning_rate)
                     <= theta + learning_rate * (1 # 2)).
      { apply Qle_trans with (_clamp3 (theta + learning_rate * (1 # 2)));
          [exact Hhi|].
        unfold _clamp3, _clamp. apply Q.max_lub; [lra|apply Q.le_min_r]. }
      lra.
    + intros H. specialize (Hup H).
      pose proof (_clamp3_mono theta (theta + (r - 0.5) * learning_rate)
                    ltac:(nra)) as Hm.
      rewrite Eid in Hm. exact Hm.
    + intros H. specialize (Hdown H).
      pose proof (_clamp3_mono (theta + (r - 0.5) * learning_rate) theta
                    ltac:(nra)) as Hm.
      rewrite Eid in Hm. exact Hm.
Qed.

Lemma update_ability_step_witness :
  let theta' := update_ability 1 7 3 0.05 in
  -3 <= theta' <= 3
  /\ Qabs (theta' - 1) <= 0.05 / 2
  /\ ((3 <= 7)%Z -> 1 <= theta')
  /\ ((7 <= 3)%Z -> theta' <= 1).
Proof.
  apply (update_ability_step 1 7 3 0.05); [lra|lia|lia|lra].
Defined.


(** *** Confidence and smoothing *)

Lemma compute_confidence_range (self : IRTModel) (success_rate fail_rate : Q) :
  0 <= compute_confidence self success_rate fail_rate <= 1.
Proof.
  unfold compute_confidence. cbv zeta. apply round3_unit.
  set (c := 1.0 - Qabs (success_rate - fail_rate)).
  pose proof (Q.le_max_l 0.0 (Qmin c 1.0)) as H0.
  assert (H1 : Qmax 0.0 (Qmin c 1.0) <= 1.0).
  { apply Q.max_lub; [lra|apply Q.le_min_r]. }
  set (m := Qmax 0.0 (Qmin c 1.0)) in *. lra.
Qed.

(** The confidence index lies between 0 and 1, does not
    depend on the order of the two rates, and is 1 when they are
    equal. *)
Theorem compute_confidence_properties (self : IRTModel) (success_rate fail_rate : Q) :
  0 <= compute_confidence self success_rate fail_rate <= 1
  /\ compute_confidence self success_rate fail_rate
     == compute_confidence self fail_rate success_rate
  /\ (success_rate == fail_rate ->
      compute_confidence self success_rate fail_rate == 1).
Proof.
  split; [apply compute_confidence_range|]. unfold compute_confidence. cbv zeta. split.
  - apply round_comp.
    assert (E : Qabs (success_rate - fail_rate) == Qabs (fail_rate - success_rate)).
    { rewrite <- (Qabs_opp (success_rate - fail_rate)).
      apply Qabs_wd. ring. }
    rewrite E. reflexivity.
  - intros E.
    assert (E0 : Qabs (success_rate - fail_rate) == 0).
    { rewrite E. setoid_replace (fail_rate - fail_rate) with 0 by ring. reflexivity. }
    assert (E1 : Qmax 0.0 (Qmin (1.0 - Qabs (success_rate - fail_rate)) 1.0) == 1).
    { rewrite E0. reflexivity. }
    rewrite (round_comp _ _ 3 E1). reflexivity.
Qed.

Lemma compute_confidence_properties_witness :
  0 <= compute_confidence IRTModel_default 0.8 0.3 <= 1
  /\ compute_confidence IRTModel_default 0.8 0.3
     == compute_confidence IRTModel_default 0.3 0.8
  /\ (0.8 == 0.3 -> compute_confidence IRTModel_default 0.8 0.3 == 1).
Proof. apply (compute_confidence_properties IRTModel_default 0.8 0.3). Defined.

(** With a smoothing factor in [0, 1], the smoothed value lies
    between the roundings of any two bounds that enclose the current
    and the previous value: smoothing never leaves the range of its
    two inputs by more than the rounding. *)
Theorem smooth_value_between (self : IRTModel) (current previous lo hi : Q) :
  0 <= alpha self <= 1 -> lo <= current <= hi -> lo <= previous <= hi ->
  round lo 3 <= smooth_value self current previous <= round hi 3.
Proof.
  intros Ha Hc Hp. unfold smooth_value. set (a := alpha self) in *.
  split; apply round_mono; nra.
Qed.

Lemma smooth_value_between_witness :
  round 0.2 3 <= smooth_value IRTModel_default 1.5 0.2 <= round 1.5 3.
Proof.
  apply (smooth_value_between IRTModel_default 1.5 0.2 0.2 1.5); simpl; lra.
Defined.

(** *** The wrapper *)

Lemma irt_probability_ranges {M : MathLib} (theta beta : Q) (rank_name : string)
    (completed_achievements success_count fail_count : Z) (exp : option Z) :
  tanh_spec M -> sqrt_spec M ->
  let d := irt_probability theta beta rank_name completed_achievements success_count
             fail_count exp in
  0 <= get d "probability" 0.5 <= 1
  /\ -3 <= get d "adjusted_theta" 0 <= 3
  /\ 0 <= get d "confidence_index" 0 <= 1
  /\ 0 <= get d "success_rate" 0 <= 1
  /\ 0 <= get d "fail_rate" 0 <= 1
  /\ -0.05 <= get d "rank_bonus" 0 <= 0.07.
Proof.
  intros HT HS. cbv zeta.
  set (sc := if (success_count <? 0)%Z then 0%Z else success_count).
  set (fc := if (fail_count <? 0)%Z then 0%Z else fail_count).
  pose proof (get_success_rate_bounds sc HS) as [Hs _].
  pose proof (get_fail_rate_bounds fc HS) as [Hf _].
  split; [|split; [|split; [|split; [|split]]]].
  - change (get _ "probability" 0.5)
      with (_sigmoid (D IRTModel_default
                      * (_clamp3 theta - Qmax 0.1 (Qmin 1.0 beta)))).
    now apply _sigmoid_range.
  - unfold irt_probability. cbv zeta. fold sc fc.
    destruct (get_success_rate sc) as [[l1 v1] b1].
    destruct (get_fail_rate fc) as [[l2 v2] b2].
    cbn [get String.eqb Ascii.eqb Bool.eqb]. apply _clamp3_range.
  - change (get _ "confidence_index" 0)
      with (compute_confidence IRTModel_default (snd (fst (get_success_rate sc)))
              (snd (fst (get_fail_rate fc)))).
    apply compute_confidence_range.
  - change (get _ "success_rate" 0) with (snd (fst (get_success_rate sc))). exact Hs.
  - change (get _ "fail_rate" 0) with (snd (fst (get_fail_rate fc))). exact Hf.
  - unfold irt_probability. cbv zeta. fold sc fc.
    destruct (get_success_rate sc) as [[l1 v1] b1].
    destruct (get_fail_rate fc) as [[l2 v2] b2].
    cbn [get String.eqb Ascii.eqb Bool.eqb].
    assert (Hb : forall i, -0.05 <= nth i RANK_BIAS 0 <= 0.07).
    { intros i. do 10 (destruct i as [|i]; [simpl; lra|]). destruct i; simpl; lra. }
    destruct exp as [e|]; unfold get_rank_from_exp, get_rank_data, get_rank_value;
      cbn [snd]; apply Hb.
Qed.

(** X22.  Whatever its arguments, the dict that [irt_probability]
    returns holds a probability, a confidence index, a success rate
    and a fail rate in [0, 1], an adjusted ability in [-3, 3] and a
    rank bonus in [-0.05, 0.07], for any [math] library in which
    [tanh] and [sqrt] keep to their ranges. *)
Theorem irt_probability_in_range {M : MathLib} (theta beta : Q) (rank_name : string)
    (completed_achievements success_count fail_count : Z) (exp : option Z) :
  tanh_spec M -> sqrt_spec M ->
  let d := irt_probability theta beta rank_name completed_achievements success_count
             fail_count exp in
  0 <= get d "probability" 0.5 <= 1
  /\ -3 <= get d "adjusted_theta" 0 <= 3
  /\ 0 <= get d "confidence_index" 0 <= 1
  /\ 0 <= get d "success_rate" 0 <= 1
  /\ 0 <= get d "fail_rate" 0 <= 1
  /\ -0.05 <= get d "rank_bonus" 0 <= 0.07.
Proof. apply irt_probability_ranges. Qed.

Lemma irt_probability_in_range_witness :
  let d := irt_probability (M := rational_math) 0.4 0.5 "novice" 2 7 3 (Some 2500%Z) in
  0 <= get d "probability" 0.5 <= 1
  /\ -3 <= get d "adjusted_theta" 0 <= 3
  /\ 0 <= get d "confidence_index" 0 <= 1
  /\ 0 <= get d "success_rate" 0 <= 1
  /\ 0 <= get d "fail_rate" 0 <= 1
  /\ -0.05 <= get d "rank_bonus" 0 <= 0.07.
Proof.
  apply (irt_probability_in_range (M := rational_math) 0.4 0.5 "novice" 2 7 3
           (Some 2500%Z) rational_math_tanh rational_math_sqrt).
Defined.

End IRTMore.

(** ** More on the search for an opponent *)

Module SBMMMore.
Import Py PyFacts MathFacts algo_config IRT_Algo DDA_Algo DDAFacts IRTFacts.
Import KMeans_Cluster KMeansFacts KMeansMore SkillBasedMatchMaking SBMMFacts.
Import samples.

Lemma normalize_range (value min_val max_val : Q) :
  0 <= normalize value min_val max_val <= 1.
Proof.
  unfold normalize. destruct (eqb max_val min_val); [lra|]. cbv zeta.
  case_ltb ((value - min_val) / (max_val - min_val)) 0.0; [lra|].
  case_ltb 1.0 ((value - min_val) / (max_val - min_val)); lra.
Qed.

Lemma adaptive_weights_sum (consistency : Q) :
  0 <= consistency <= 1 ->
  let '(w_theta, w_beta) := adaptive_weights consistency in
  w_theta + w_beta == 1 /\ 0.4 <= w_theta /\ 0 <= w_beta <= 0.6.
Proof.
  intros [H0 H1]. unfold adaptive_weights. cbv zeta.
  pose proof (Q.le_max_l 0.4 (1.0 - consistency)) as Ha.
  pose proof (Q.le_max_r 0.4 (1.0 - consistency)) as Ha'.
  assert (Ha1 : Qmax 0.4 (1.0 - consistency) <= 1) by (apply Q.max_lub; lra).
  pose proof (Q.le_min_l 0.6 (consistency + 0.3)) as Hb.
  pose proof (Q.le_min_r 0.6 (consistency + 0.3)) as Hb'.
  assert (Hb0 : 0.3 <= Qmin 0.6 (consistency + 0.3)) by (apply Q.min_glb; lra).
  set (a := Qmax _ _) in *. set (b := Qmin _ _) in *.
  assert (Hpos : 0 < a + b) by lra.
  assert (Hne : ~ a + b == 0) by lra.
  split; [field; exact Hne|]. split.
  - apply Qle_shift_div_l; [exact Hpos|].
    (* 0.4 * (a + b) <= a: the sum is at most 1 when a = 1 - c >= 0.4,
       and b <= 0.6 when a = 0.4 *)
    destruct (Qlt_le_dec (1.0 - consistency) 0.4) as [Hc|Hc].
    + assert (Ea : a == 0.4) by (unfold a; apply Q.max_l; lra). lra.
    + assert (Ea : a == 1.0 - consistency) by (unfold a; apply Q.max_r; lra).
      assert (Hb2 : b <= consistency + 0.3) by exact Hb'. nra.
  - split.
    + apply Qle_shift_div_l; [exact Hpos|]. lra.
    + apply Qle_shift_div_r; [exact Hpos|].
      destruct (Qlt_le_dec (1.0 - consistency) 0.4) as [Hc|Hc].
      * assert (Ea : a == 0.4) by (unfold a; apply Q.max_l; lra). lra.
      * assert (Ea : a == 1.0 - consistency) by (unfold a; apply Q.max_r; lra).
        assert (Hb2 : b <= consistency + 0.3) by exact Hb'. nra.
Qed.

(** For a consistency in [0, 1], the two adaptive weights add
    up to 1; the weight of the ability is at least 0.4 and that of the
    difficulty is at most 0.6. *)
Theorem adaptive_weights_sum_to_one (consistency : Q) :
  0 <= consistency <= 1 ->
  fst (adaptive_weights consistency) + snd (adaptive_weights consistency) == 1
  /\ 0.4 <= fst (adaptive_weights consistency)
  /\ 0 <= snd (adaptive_weights consistency) <= 0.6.
Proof.
  intros H. pose proof (adaptive_weights_sum consistency H) as Hs.
  destruct (adaptive_weights consistency) as [wt wb]. exact Hs.
Qed.

Lemma adaptive_weights_sum_to_one_witness :
  fst (adaptive_weights 0.8) + snd (adaptive_weights 0.8) == 1
  /\ 0.4 <= fst (adaptive_weights 0.8)
  /\ 0 <= snd (adaptive_weights 0.8) <= 0.6.
Proof. apply (adaptive_weights_sum_to_one 0.8). lra. Defined.

Lemma calculate_match_score_unit (ta tb ba bb wt wb : Q) :
  0 <= wt -> 0 <= wb -> 0 <= calculate_match_score ta tb ba bb wt wb <= 1.
Proof.
  intros Ht Hb. split; [apply calculate_match_score_nonneg|].
  unfold calculate_match_score. cbv zeta.
  apply (round_upper _ 1 3 1000); [decimal|].
  assert (H : 0 <= Qmin (wt * Qabs (ta - tb) + wb * Qabs (ba - bb)) 1.0).
  { apply Q.min_glb; [|lra].
    pose proof (Qabs_nonneg (ta - tb)). pose proof (Qabs_nonneg (ba - bb)).
    assert (0 <= wt * Qabs (ta - tb)) by (apply Qmult_le_0_compat; assumption).
    assert (0 <= wb * Qabs (ba - bb)) by (apply Qmult_le_0_compat; assumption).
    lra. }
  set (m := Qmin _ _) in *. lra.
Qed.

(** X23.  With weights that are not negative, the match score of two
    players lies in [0, 1], is the same whichever of the two is taken
    first, and is 1 for two players of equal ability and
    difficulty. *)
Theorem calculate_match_score_properties (theta_a theta_b beta_a beta_b
    w_theta w_beta : Q) :
  0 <= w_theta -> 0 <= w_beta ->
  0 <= calculate_match_score theta_a theta_b beta_a beta_b w_theta w_beta <= 1
  /\ calculate_match_score theta_a theta_b beta_a beta_b w_theta w_beta
     == calculate_match_score theta_b theta_a beta_b beta_a w_theta w_beta
  /\ calculate_match_score theta_a theta_a beta_a beta_a w_theta w_beta == 1.
Proof.
  intros Ht Hb. split; [now apply calculate_match_score_unit|].
  unfold calculate_match_score. cbv zeta. split.
  - apply round_comp.
    assert (E1 : Qabs (theta_a - theta_b) == Qabs (theta_b - theta_a)).
    { rewrite <- (Qabs_opp (theta_a - theta_b)). apply Qabs_wd. ring. }
    assert (E2 : Qabs (beta_a - beta_b) == Qabs (beta_b - beta_a)).
    { rewrite <- (Qabs_opp (beta_a - beta_b)). apply Qabs_wd. ring. }
    rewrite E1, E2. reflexivity.
  - assert (E1 : Qabs (theta_a - theta_a) == 0).
    { setoid_replace (theta_a - theta_a) with 0 by ring. reflexivity. }
    assert (E2 : Qabs (beta_a - beta_a) == 0).
    { setoid_replace (beta_a - beta_a) with 0 by ring. reflexivity. }
    assert (E : 1.0 - Qmin (w_theta * Qabs (theta_a - theta_a)
                           + w_beta * Qabs (beta_a - beta_a)) 1.0 == 1).
    { rewrite E1, E2.
      setoid_replace (w_theta * 0 + w_beta * 0) with 0 by ring. reflexivity. }
    rewrite (round_comp _ _ 3 E). reflexivity.
Qed.

Lemma calculate_match_score_properties_witness :
  0 <= calculate_match_score 0.2 1.1 0.5 0.7 0.4 0.6 <= 1
  /\ calculate_match_score 0.2 1.1 0.5 0.7 0.4 0.6
     == calculate_match_score 1.1 0.2 0.7 0.5 0.4 0.6
  /\ calculate_match_score 0.2 0.2 0.5 0.5 0.4 0.6 == 1.
Proof. apply (calculate_match_score_properties 0.2 1.1 0.5 0.7 0.4 0.6); lra. Defined.


(** *** The clusters of [assign_clusters] *)

Lemma map_append_spec (cm : list (list nat)) (j idx : nat) :
  (j < List.length cm)%nat ->
  exists cm',
    map_append cm j idx = inr cm' /\ List.length cm' = List.length cm
    /\ forall c, nth c cm' [] = nth c cm [] ++ (if (c =? j)%nat then [idx] else []).
Proof.
  revert j. induction cm as [|x cm IH]; intros j Hj; [simpl in Hj; lia|].
  destruct j as [|j].
  - eexists. split; [reflexivity|]. split; [reflexivity|].
    intros [|c]; cbn [nth Nat.eqb]; [reflexivity|now rewrite app_nil_r].
  - destruct (IH j ltac:(simpl in Hj; lia)) as (cm' & E & Hl & Hn).
    cbn [map_append]. rewrite E. eexists. split; [reflexivity|].
    split; [simpl; now rewrite Hl|].
    intros [|c]; cbn [nth Nat.eqb]; [now rewrite app_nil_r|apply Hn].
Qed.

Lemma assign_loop_spec (centroids : list (list Q)) (l : list (list Q)) :
  centroids <> [] ->
  forall (s : nat) (cm : list (list nat)),
  List.length cm = List.length centroids ->
  exists cm',
    assign_loop centroids (combine (seq s (List.length l)) l) cm = inr cm'
    /\ List.length cm' = List.length cm
    /\ forall c,
         nth c cm' []
         = nth c cm []
           ++ filter (fun i => (nearest_centroid centroids (nth (i - s) l []) =? c)%nat)
                     (seq s (List.length l)).
Proof.
  intros Hne. induction l as [|p l IH]; intros s cm Hcm.
  - eexists. split; [reflexivity|]. split; [reflexivity|].
    intros c. cbn [List.length seq filter]. now rewrite app_nil_r.
  - cbn [List.length seq combine assign_loop].
    destruct (map_append_spec cm (nearest_centroid centroids p) s)
      as (cm1 & E1 & Hl1 & Hn1).
    { rewrite Hcm. apply nearest_centroid_spec. exact Hne. }
    rewrite E1. cbv beta match delta [bind].
    destruct (IH (S s) cm1 ltac:(congruence)) as (cm' & E & Hl & Hn).
    rewrite E. eexists. split; [reflexivity|]. split; [congruence|].
    intros c. rewrite Hn, Hn1, <- app_assoc. f_equal.
    cbn [filter]. rewrite Nat.sub_diag. cbn [nth].
    rewrite (Nat.eqb_sym c).
    assert (Ef : filter (fun i => (nearest_centroid centroids (nth (i - S s) l [])
                                   =? c)%nat) (seq (S s) (List.length l))
                 = filter (fun i => (nearest_centroid centroids
                                       (nth (i - s) (p :: l) []) =? c)%nat)
                          (seq (S s) (List.length l))).
    { apply filter_ext_in. intros i Hi. apply in_seq in Hi.
      replace (i - s)%nat with (S (i - S s)) by lia. reflexivity. }
    rewrite Ef. destruct (_ =? _)%nat; reflexivity.
Qed.

Lemma assign_clusters_spec (data centroids : list (list Q)) :
  centroids <> [] ->
  exists clusters,
    assign_clusters data centroids = inr clusters
    /\ List.length clusters = List.length centroids
    /\ forall c,
         nth c clusters []
         = filter (fun i => (nearest_centroid centroids (nth i data []) =? c)%nat)
                  (seq 0 (List.length data)).
Proof.
  intros Hne. unfold assign_clusters.
  destruct (assign_loop_spec centroids data Hne 0
              (repeat [] (List.length centroids)) (repeat_length _ _))
    as (cm & E & Hl & Hn).
  exists cm. split; [exact E|]. split; [now rewrite Hl, repeat_length|].
  intros c. rewrite Hn, nth_repeat_nil. cbn [app].
  apply filter_ext. intros i. now rewrite Nat.sub_0_r.
Qed.

(** *** The head of a stable sort *)

Lemma insert_by_head {A : Type} (key : A -> Q) (a x : A) (tl : list A) :
  key x < key a -> exists tl', insert_by key a (x :: tl) = x :: tl'.
Proof.
  intros H. cbn [insert_by]. case_leb (key a) (key x); [lra|]. eexists. reflexivity.
Qed.

Lemma sort_by_head {A : Type} (key : A -> Q) (pre post : list A) (x : A) :
  (forall y, In y pre -> key x < key y) ->
  (forall y, In y post -> key x <= key y) ->
  exists tl, sort_by key (pre ++ x :: post) = x :: tl.
Proof.
  intros Hpre Hpost. induction pre as [|a pre IH].
  - cbn [app]. unfold sort_by. cbn [fold_right]. fold (sort_by key post).
    destruct (sort_by key post) as [|y tl] eqn:Es.
    + eexists. reflexivity.
    + cbn [insert_by].
      assert (Hy : In y post).
      { apply (Permutation_in y (MultiplayerFacts.sort_by_perm key post)).
        rewrite Es. now left. }
      case_leb (key x) (key y); [eexists; reflexivity|].
      specialize (Hpost y Hy). lra.
  - destruct IH as [tl E]; [intros y Hy; apply Hpre; now right|].
    cbn [app]. unfold sort_by in *. cbn [fold_right]. rewrite E.
    apply insert_by_head. apply Hpre. now left.
Qed.


(** *** The candidates *)

Lemma combine_seq_map {A : Type} (l : list A) (d : A) (s : nat) :
  combine (seq s (List.length l)) l
  = map (fun i => (i, nth (i - s) l d)) (seq s (List.length l)).
Proof.
  revert s. induction l as [|x l IH]; intros s; [reflexivity|].
  cbn [List.length seq combine map]. rewrite Nat.sub_diag. cbn [nth]. f_equal.
  rewrite IH. apply map_ext_in. intros i Hi. apply in_seq in Hi.
  replace (i - s)%nat with (S (i - S s)) by lia. reflexivity.
Qed.

Lemma best_candidate_spec (data : list (list Q)) (a_theta a_beta wt wb : Q) :
  0 <= wt -> 0 <= wb ->
  forall (cands : list nat) (bm : option nat) (bs : Q),
  Forall (fun i => exists a b, nth_error data i = Some [a; b]) cands ->
  exists bm' bs',
    best_candidate data cands a_theta a_beta wt wb bm bs = inr (bm', bs')
    /\ ((bm' = bm /\ bs' = bs) \/ (exists j, bm' = Some j /\ In j cands /\ 0 <= bs' <= 1))
    /\ (bs < 0 -> cands <> [] -> exists j, bm' = Some j /\ In j cands /\ 0 <= bs' <= 1).
Proof.
  intros Hwt Hwb. induction cands as [|i cands IH]; intros bm bs Hv.
  - exists bm, bs. split; [reflexivity|]. split; [now left|]. intros _ H. now elim H.
  - inversion Hv as [|? ? (a & b & Hi) Hr]; subst.
    cbn [best_candidate]. unfold lookup. rewrite Hi.
    cbv beta match delta [bind ret unpack2].
    pose proof (calculate_match_score_unit a_theta a a_beta b wt wb Hwt Hwb) as Hs.
    set (score := calculate_match_score a_theta a a_beta b wt wb) in *.
    case_ltb bs score.
    + destruct (IH (Some i) score Hr) as (bm' & bs' & E & Hc & _).
      exists bm', bs'. split; [exact E|].
      assert (Hj : exists j, bm' = Some j /\ In j (i :: cands) /\ 0 <= bs' <= 1).
      { destruct Hc as [[-> ->]|(j & -> & Hj & Hb)].
        - exists i. split; [reflexivity|]. split; [now left|exact Hs].
        - exists j. split; [reflexivity|]. split; [now right|exact Hb]. }
      split; [now right|]. intros _ _. exact Hj.
    + destruct (IH bm bs Hr) as (bm' & bs' & E & Hc & _).
      exists bm', bs'. split; [exact E|]. split.
      * destruct Hc as [Hc|(j & -> & Hj & Hb)]; [now left|].
        right. exists j. split; [reflexivity|]. split; [now right|exact Hb].
      * intros Hneg _. lra.
Qed.

Lemma find_best_match_candidates {M : MathLib} (dda : DDASystem) (player_index : nat)
    (data_points centroids : list (list Q)) (rank_name : string)
    (completed_achievements success_count fail_count : Z) (theta beta_old : Q) :
  (2 <= List.length data_points)%nat ->
  nth_error data_points player_index = Some [theta; beta_old] ->
  centroids <> [] ->
  Forall (fun p => exists a b, p = [a; b]) data_points ->
  let pc := nearest_centroid centroids [theta; beta_old] in
  let own := filter (fun i => (nearest_centroid centroids (nth i data_points [])
                               =? pc)%nat) (seq 0 (List.length data_points)) in
  let others := filter (fun idx => negb (idx =? player_index)%nat) own in
  exists r,
    snd (find_best_match dda player_index data_points centroids rank_name
           completed_achievements success_count fail_count) = inr r
    /\ SkillBasedMatchMaking.cluster r = Some pc
    /\ 0 <= SkillBasedMatchMaking.match_score r <= 1
    /\ exists j,
         match_index r = Some j
         /\ In j (match others with [] => own | _ :: _ => others end).
Proof.
  intros H2 Hpi Hne Hpairs pc own others.
  unfold find_best_match.
  destruct (Nat.ltb_spec (List.length data_points) 2) as [|_]; [lia|].
  unfold lookup at 1. rewrite Hpi. cbv beta match delta [bind ret unpack2].
  destruct (adjust_difficulty dda beta_old _ success_count fail_count 0.7 0.1)
    as [dda' res].
  cbn [snd].
  destruct (assign_clusters_spec data_points centroids Hne) as (clusters & Ec & Hl & Hn).
  rewrite Ec. unfold lookup. rewrite Hpi. cbv beta match delta [bind ret].
  fold pc.
  assert (Hpc : (pc < List.length clusters)%nat).
  { rewrite Hl. apply nearest_centroid_spec. exact Hne. }
  assert (Eown : nth_error clusters pc = Some own).
  { rewrite (nth_error_nth' clusters [] Hpc). f_equal. apply Hn. }
  rewrite Eown. cbv beta match delta [raise].
  assert (Hin : In player_index own).
  { apply filter_In. split.
    - apply in_seq. split; [lia|]. cbn [Nat.add]. apply nth_error_Some. congruence.
    - apply Nat.eqb_eq. rewrite (nth_error_nth _ _ _ Hpi). reflexivity. }
  fold others.
  set (sorted := sort_by snd _).
  assert (Hsorted : others = [] -> exists d tl, sorted = (pc, d) :: tl).
  { intros _. unfold sorted.
    rewrite (combine_seq_map centroids [] 0).
    rewrite map_map.
    assert (Hsplit : seq 0 (List.length centroids)
                     = seq 0 pc ++ pc :: seq (S pc) (List.length centroids - S pc)).
    { replace (List.length centroids) with (pc + S (List.length centroids - S pc))%nat
        at 1 by lia.
      rewrite seq_app. reflexivity. }
    rewrite Hsplit, map_app, filter_app. cbn [map filter fst].
    rewrite (Hn pc). fold own.
    destruct own as [|o own'] eqn:Eo; [destruct Hin|].
    rewrite Nat.sub_0_r.
    match goal with
    | |- exists d tl, sort_by snd (?pre ++ (pc, ?d0) :: ?post) = _ =>
        destruct (sort_by_head snd pre post (pc, d0)) as [tl Etl]
    end.
    - intros y Hy. apply filter_In in Hy. destruct Hy as [Hy _].
      apply in_map_iff in Hy. destruct Hy as (i & <- & Hi). apply in_seq in Hi.
      cbn [snd]. rewrite Nat.sub_0_r.
      apply (nearest_centroid_first centroids [theta; beta_old] Hne). fold pc. lia.
    - intros y Hy. apply filter_In in Hy. destruct Hy as [Hy _].
      apply in_map_iff in Hy. destruct Hy as (i & <- & Hi). apply in_seq in Hi.
      cbn [snd]. rewrite Nat.sub_0_r.
      apply (nearest_centroid_first centroids [theta; beta_old] Hne). lia.
    - eexists. eexists. exact Etl. }
  set (C := match others with
            | [] => match sorted with
                    | [] => others
                    | (nearest_idx, _) :: _ => nth nearest_idx clusters []
                    end
            | _ :: _ => others
            end).
  assert (EC : C = match others with [] => own | _ :: _ => others end).
  { unfold C. destruct others as [|o others'] eqn:Eo; [|reflexivity].
    destruct (Hsorted eq_refl) as (d & tl & ->). apply Hn. }
  assert (HCne : C <> []).
  { rewrite EC. destruct others; [|discriminate].
    intros E. rewrite E in Hin. destruct Hin. }
  assert (HCv : Forall (fun i => exists a b, nth_error data_points i = Some [a; b]) C).
  { apply Forall_forall. intros i Hi.
    assert (Hi' : In i own).
    { rewrite EC in Hi. destruct others eqn:Eo; [exact Hi|].
      rewrite <- Eo in Hi. unfold others in Hi. apply filter_In in Hi. apply Hi. }
    apply filter_In in Hi'. destruct Hi' as [Hi' _]. apply in_seq in Hi'.
    destruct (nth_error data_points i) as [p|] eqn:Ep.
    - rewrite Forall_forall in Hpairs.
      destruct (Hpairs p (nth_error_In _ _ Ep)) as (a & b & ->). now exists a, b.
    - apply nth_error_None in Ep. lia. }
  destruct C as [|c0 C'] eqn:ECC; [now elim HCne|]. rewrite <- ECC in *.
  set (cons := if (0 <? success_count + fail_count)%Z then _ else 0.5).
  assert (Hcons : 0 <= cons <= 1).
  { unfold cons. destruct (0 <? _)%Z; [apply normalize_range|lra]. }
  pose proof (adaptive_weights_sum cons Hcons) as Hw.
  destruct (adaptive_weights cons) as [wt wb]. destruct Hw as (_ & Hwt & Hwb & _).
  destruct (best_candidate_spec data_points
              (get (irt_probability theta beta_old rank_name completed_achievements
                      success_count fail_count None) "adjusted_theta" 0)
              (beta_new res) wt wb ltac:(lra) Hwb C None (-1.0) HCv)
    as (bm & bs & E & _ & Hj).
  rewrite E. cbv beta match delta [bind ret].
  destruct (Hj ltac:(lra) HCne) as (j & -> & Hjin & Hbs).
  eexists. split; [reflexivity|].
  cbn [SkillBasedMatchMaking.cluster SkillBasedMatchMaking.match_score match_index].
  split; [reflexivity|]. split; [apply round3_unit; exact Hbs|].
  exists j. split; [reflexivity|]. rewrite <- EC. exact Hjin.
Qed.


(** X24.  For a list of at least two [theta, beta] pairs, a valid
    player index and at least one centroid, [find_best_match] returns
    a match: the opponent is a player whose nearest centroid is the
    player's own, the score is in [0, 1], and the opponent is another
    player whenever another player shares that centroid. *)
Theorem find_best_match_stays_in_cluster {M : MathLib} (dda : DDASystem)
    (player_index : nat) (data_points centroids : list (list Q)) (rank_name : string)
    (completed_achievements success_count fail_count : Z) (theta beta_old : Q) :
  (2 <= List.length data_points)%nat ->
  nth_error data_points player_index = Some [theta; beta_old] ->
  centroids <> [] ->
  Forall (fun p => exists a b, p = [a; b]) data_points ->
  let pc := nearest_centroid centroids [theta; beta_old] in
  exists r j,
    snd (find_best_match dda player_index data_points centroids rank_name
           completed_achievements success_count fail_count) = inr r
    /\ match_index r = Some j /\ (j < List.length data_points)%nat
    /\ nearest_centroid centroids (nth j data_points []) = pc
    /\ SkillBasedMatchMaking.cluster r = Some pc
    /\ 0 <= SkillBasedMatchMaking.match_score r <= 1
    /\ ((exists i, (i < List.length data_points)%nat /\ i <> player_index
                   /\ nearest_centroid centroids (nth i data_points []) = pc) ->
        j <> player_index).
Proof.
  intros H2 Hpi Hne Hpairs pc.
  destruct (find_best_match_candidates dda player_index data_points centroids rank_name
              completed_achievements success_count fail_count theta beta_old
              H2 Hpi Hne Hpairs) as (r & Er & Hc & Hs & j & Hj & Hin).
  fold pc in Hc, Hin.
  set (own := filter (fun i => (nearest_centroid centroids (nth i data_points [])
                                =? pc)%nat) (seq 0 (List.length data_points))) in *.
  set (others := filter (fun idx => negb (idx =? player_index)%nat) own) in *.
  assert (Hown : In j own).
  { destruct others eqn:Eo; [exact Hin|].
    rewrite <- Eo in Hin. unfold others in Hin. apply filter_In in Hin. apply Hin. }
  apply filter_In in Hown. destruct Hown as [Hseq Hnear].
  apply in_seq in Hseq. apply Nat.eqb_eq in Hnear.
  exists r, j. split; [exact Er|]. split; [exact Hj|]. split; [lia|].
  split; [exact Hnear|]. split; [exact Hc|]. split; [exact Hs|].
  intros (i & Hi & Hip & Hin').
  assert (Ho : In i others).
  { apply filter_In. split.
    - apply filter_In. split; [apply in_seq; lia|now apply Nat.eqb_eq].
    - apply negb_true_iff. now apply Nat.eqb_neq. }
  destruct others eqn:Eo; [destruct Ho|].
  rewrite <- Eo in Hin. unfold others in Hin. apply filter_In in Hin.
  destruct Hin as [_ Hin]. apply negb_true_iff, Nat.eqb_neq in Hin. exact Hin.
Qed.

(** Three players, the first two near the first of two centres: the
    first is matched with the second. *)
Lemma find_best_match_stays_in_cluster_witness :
  let pc := nearest_centroid two_centres [0; 0.5] in
  exists r j,
    snd (find_best_match (M := rational_math) _dda_instance 0 two_near_one_far
           two_centres "novice" 0 3 1) = inr r
    /\ match_index r = Some j /\ (j < List.length two_near_one_far)%nat
    /\ nearest_centroid two_centres (nth j two_near_one_far []) = pc
    /\ SkillBasedMatchMaking.cluster r = Some pc
    /\ 0 <= SkillBasedMatchMaking.match_score r <= 1
    /\ ((exists i, (i < List.length two_near_one_far)%nat /\ i <> 0%nat
                   /\ nearest_centroid two_centres (nth i two_near_one_far []) = pc) ->
        j <> 0%nat).
Proof.
  apply (find_best_match_stays_in_cluster (M := rational_math) _dda_instance 0
           two_near_one_far two_centres "novice" 0 3 1 0 0.5).
  - simpl. lia.
  - reflexivity.
  - discriminate.
  - repeat constructor; eexists; eexists; reflexivity.
Defined.

(** X25.  A player whose nearest centroid is nobody else's is
    matched with themselves: the fallback to "the nearest populated
    cluster" finds the player's own cluster, which the player
    populates, and the index returned is the player's own. *)
Theorem lone_player_is_matched_with_self {M : MathLib} (dda : DDASystem)
    (player_index : nat) (data_points centroids : list (list Q)) (rank_name : string)
    (completed_achievements success_count fail_count : Z) (theta beta_old : Q) :
  (2 <= List.length data_points)%nat ->
  nth_error data_points player_index = Some [theta; beta_old] ->
  centroids <> [] ->
  Forall (fun p => exists a b, p = [a; b]) data_points ->
  (forall i, (i < List.length data_points)%nat -> i <> player_index ->
     nearest_centroid centroids (nth i data_points [])
     <> nearest_centroid centroids [theta; beta_old]) ->
  exists r,
    snd (find_best_match dda player_index data_points centroids rank_name
           completed_achievements success_count fail_count) = inr r
    /\ match_index r = Some player_index.
Proof.
  intros H2 Hpi Hne Hpairs Halone.
  destruct (find_best_match_candidates dda player_index data_points centroids rank_name
              completed_achievements success_count fail_count theta beta_old
              H2 Hpi Hne Hpairs) as (r & Er & _ & _ & j & Hj & Hin).
  set (pc := nearest_centroid centroids [theta; beta_old]) in *.
  set (own := filter (fun i => (nearest_centroid centroids (nth i data_points [])
                                =? pc)%nat) (seq 0 (List.length data_points))) in *.
  set (others := filter (fun idx => negb (idx =? player_index)%nat) own) in *.
  exists r. split; [exact Er|]. rewrite Hj. f_equal.
  assert (Hown : forall i, In i own -> i = player_index).
  { intros i Hi. apply filter_In in Hi. destruct Hi as [Hseq Hnear].
    apply in_seq in Hseq. apply Nat.eqb_eq in Hnear.
    destruct (Nat.eq_dec i player_index) as [|Hd]; [assumption|].
    elim (Halone i ltac:(lia) Hd). exact Hnear. }
  apply Hown. destruct others eqn:Eo; [exact Hin|].
  rewrite <- Eo in Hin. unfold others in Hin. apply filter_In in Hin. apply Hin.
Qed.

(** Two players far apart, each the centre of a cluster. *)
Lemma lone_player_is_matched_with_self_witness :
  exists r,
    snd (find_best_match (M := rational_math) _dda_instance 0 far_apart two_centres
           "novice" 0 3 1) = inr r
    /\ match_index r = Some 0%nat.
Proof.
  apply (lone_player_is_matched_with_self (M := rational_math) _dda_instance 0
           far_apart two_centres "novice" 0 3 1 0 0.5).
  - simpl. lia.
  - reflexivity.
  - discriminate.
  - repeat constructor; eexists; eexists; reflexivity.
  - intros [|[|i]] Hi Hd; [now elim Hd| |simpl in Hi; lia].
    vm_compute. discriminate.
Defined.

End SBMMMore.

(** ** More on the puzzle entry point *)

Module PuzzleMore.
Import Py PyFacts MathFacts algo_config IRT_Bases IRT_Algo DDA_Algo DDAFacts IRTFacts.
Import DDAMore IRTMore Puzzel_Based.

Lemma input_key_eqb_refl (k : input_key) : input_key_eqb k k = true.
Proof.
  unfold input_key_eqb.
  rewrite !String.eqb_refl, !MultiplayerFacts.eqb_refl, !Z.eqb_refl.
  rewrite Bool.eqb_reflx. cbn [andb].
  destruct (k_exp_value k); [apply Z.eqb_refl|reflexivity].
Qed.

(** X26.  A call of [run_puzzle_adjustment] repeated at once with
    the same arguments is answered from the cache: it returns the same
    result and leaves the module as it was, so that the difficulty
    controller is not advanced a second time. *)
Theorem run_puzzle_adjustment_repeat_is_cached {M : MathLib} (st : module_state)
    (user_id level_id : option string) (theta beta_old : Q) (rank_name : string)
    (completed_achievements success_count fail_count : Z)
    (target_performance adjustment_rate : Q) (auto_sync : bool)
    (player_exp : option PlayerEXP) (exp : option Z) :
  let out := run_puzzle_adjustment st user_id level_id theta beta_old rank_name
               completed_achievements success_count fail_count target_performance
               adjustment_rate auto_sync player_exp exp in
  run_puzzle_adjustment (fst out) user_id level_id theta beta_old rank_name
    completed_achievements success_count fail_count target_performance
    adjustment_rate auto_sync player_exp exp
  = out.
Proof.
  cbv zeta. unfold run_puzzle_adjustment.
  set (key := {| k_user_id := _ |}).
  destruct (_last_inputs st) as [key0|] eqn:Ei.
  - destruct (_last_result st) as [last|] eqn:Er.
    + destruct (input_key_eqb key key0) eqn:Ek.
      * cbn [fst]. rewrite Ei, Er, Ek. reflexivity.
      * destruct (_compute_rates_cached _ _) as [sr fr].
        destruct (adjust_difficulty _ _ _ _ _ _ _) as [dda res].
        cbn [fst _last_inputs _last_result]. rewrite input_key_eqb_refl. reflexivity.
    + destruct (_compute_rates_cached _ _) as [sr fr].
      destruct (adjust_difficulty _ _ _ _ _ _ _) as [dda res].
      cbn [fst _last_inputs _last_result]. rewrite input_key_eqb_refl. reflexivity.
  - destruct (_compute_rates_cached _ _) as [sr fr].
    destruct (adjust_difficulty _ _ _ _ _ _ _) as [dda res].
    cbn [fst _last_inputs _last_result]. rewrite input_key_eqb_refl. reflexivity.
Qed.





End PuzzleMore.

(** ** The trackers of experience and achievements *)

Module EXPFacts.
Import Py PyFacts RankBases_EXP.

Lemma int_nonneg (x : Q) : 0 <= x -> int x = Qfloor x.
Proof. intros H. unfold int. case_ltb x 0; [lra|reflexivity]. Qed.


Lemma _update_level_spec (self : PlayerEXP) :
  (0 <= exp self <= MAX_EXP)%Z ->
  exp (_update_level self) = exp self
  /\ level (_update_level self) = (exp self / 1000)%Z.
Proof.
  intros [H0 H1]. unfold _update_level, MAX_EXP in *. cbn [exp level].
  split; [reflexivity|].
  assert (E : inject_Z (exp self) * (10.0 / inject_Z 10000) == exp self # 1000).
  { unfold Qeq. simpl. ring. }
  assert (Hn : 0 <= inject_Z (exp self) * (10.0 / inject_Z 10000)).
  { rewrite E. unfold Qle. simpl. lia. }
  rewrite (int_nonneg _ Hn), (Qfloor_comp _ _ E).
  change (Qfloor (exp self # 1000)) with (exp self / 1000)%Z.
  assert (exp self / 1000 <= 10)%Z by (apply Z.div_le_upper_bound; lia).
  lia.
Qed.

Lemma gain_in_range (self : PlayerEXP) (amount : Z) :
  in_range self -> in_range (gain self amount).
Proof.
  intros [He Hl]. unfold gain. destruct (Z.leb_spec amount 0); [now split|].
  cbv zeta. set (e := if (MAX_EXP <? exp self + amount)%Z then MAX_EXP
                      else (exp self + amount)%Z).
  assert (Hr : (0 <= e <= MAX_EXP)%Z).
  { unfold e, MAX_EXP in *. destruct (Z.ltb_spec 10000 (exp self + amount)); lia. }
  destruct (_update_level_spec
              {| player_name := player_name self; exp := e; level := level self |} Hr)
    as [E1 E2].
  cbn [exp] in E1, E2. split; [now rewrite E1|now rewrite E1, E2].
Qed.

Lemma lose_in_range (self : PlayerEXP) (amount : Z) :
  in_range self -> in_range (lose self amount).
Proof.
  intros [He Hl]. unfold lose. destruct (Z.leb_spec amount 0); [now split|].
  cbv zeta. set (e := if (exp self - amount <? 0)%Z then 0%Z
                      else (exp self - amount)%Z).
  assert (Hr : (0 <= e <= MAX_EXP)%Z).
  { unfold e, MAX_EXP in *. destruct (Z.ltb_spec (exp self - amount) 0); lia. }
  destruct (_update_level_spec
              {| player_name := player_name self; exp := e; level := level self |} Hr)
    as [E1 E2].
  cbn [exp] in E1, E2. split; [now rewrite E1|now rewrite E1, E2].
Qed.

Lemma apply_call_in_range (self : PlayerEXP) (c : call) :
  in_range self -> in_range (apply_call self c).
Proof.
  intros H. destruct c as [a|a|n fin skipped]; cbn [apply_call].
  - now apply gain_in_range.
  - now apply lose_in_range.
  - unfold complete_lesson. destruct (_ || _)%bool; [exact H|].
    cbv beta match zeta delta [ret]. now apply gain_in_range.
Qed.

(** X28.  Whatever the sequence of [gain], [lose] and
    [complete_lesson] calls made on a new player, the experience stays
    between 0 and [MAX_EXP], and the level is the experience divided
    by 1000, rounded down, hence between 0 and 10. *)
Theorem experience_stays_in_range (name : string) (calls : list call) :
  let p := run calls (__init__ name) in
  (0 <= exp p <= MAX_EXP)%Z /\ level p = (exp p / 1000)%Z /\ (0 <= level p <= 10)%Z.
Proof.
  cbv zeta.
  assert (H : in_range (run calls (__init__ name))).
  { unfold run.
    assert (H0 : in_range (__init__ name))
      by (split; [unfold MAX_EXP; simpl; lia|reflexivity]).
    revert H0. generalize (__init__ name).
    induction calls as [|c calls IH]; intros p Hp; [exact Hp|].
    cbn [fold_left]. apply IH. now apply apply_call_in_range. }
  destruct H as [He Hl]. split; [exact He|]. split; [exact Hl|].
  rewrite Hl. unfold MAX_EXP in He. split.
  - apply Z.div_pos; lia.
  - apply Z.div_le_upper_bound; lia.
Qed.


(** *** Lessons *)

Section lesson.
Variable skipped : list Z.

Let step (total level : Z) : Z :=
  if existsb (Z.eqb level) skipped then total else (total + level_points level)%Z.



End lesson.




End EXPFacts.

Module AchievementFacts.
Import Py PyFacts Achivements.

Lemma _BIAS_MAP_bands :
  forallb (fun i => Qeq_bool (nth i _BIAS_MAP 0) (band_bias (Z.of_nat i)))
          (seq 0 31) = true.
Proof. vm_compute. reflexivity. Qed.

(** X30.  [get_achievement_value] first brings the number of
    completed achievements into 0..30; the progress it returns is that
    number over 30, and the bias is 0 up to 7 achievements, 0.02 up to
    14, 0.05 up to 22, 0.08 up to 26 and 0.12 from 27 on. *)
Theorem get_achievement_value_bands (completed : Z) :
  let k := Z.max 0 (Z.min 30 completed) in
  fst (get_achievement_value completed) == inject_Z k / 30
  /\ 0 <= fst (get_achievement_value completed) <= 1
  /\ snd (get_achievement_value completed) == band_bias k.
Proof.
  cbv zeta. unfold get_achievement_value, TOTAL_ACHIEVEMENTS.
  set (k := if (completed <? 0)%Z then 0%Z
            else if (30 <? completed)%Z then 30%Z else completed).
  assert (Ek : Z.max 0 (Z.min 30 completed) = k).
  { unfold k. destruct (Z.ltb_spec completed 0); [lia|].
    destruct (Z.ltb_spec 30 completed); lia. }
  rewrite Ek. cbn [fst snd].
  assert (Hk : (0 <= k <= 30)%Z).
  { unfold k. destruct (Z.ltb_spec completed 0); [lia|].
    destruct (Z.ltb_spec 30 completed); lia. }
  split; [reflexivity|]. split.
  - assert (H0 : 0 <= inject_Z k) by (change 0 with (inject_Z 0); rewrite <- Zle_Qle; lia).
    assert (H1 : inject_Z k <= inject_Z 30) by (rewrite <- Zle_Qle; lia).
    split; [apply Qle_shift_div_l|apply Qle_shift_div_r]; try reflexivity.
    + lra.
    + change (inject_Z 30) with 30 in *. lra.
  - pose proof _BIAS_MAP_bands as H. rewrite forallb_forall in H.
    specialize (H (Z.to_nat k)). rewrite Z2Nat.id in H by lia.
    apply Qeq_bool_iff, H. apply in_seq. lia.
Qed.

End AchievementFacts.
